(** * Lockplane schema core: lowering, loading and duplicate checking

    A shallow embedding of [internal/schema/parser.go], [loader.go] and
    [checker.go], followed by the properties proved about them.

    Conventions of the embedding:
    - Go [string]s are byte sequences: Rocq [string]s (lists of [ascii]).
    - Go [int] and [int32] values are [Z]; slice indices are [nat].
    - A Go [error] is its message ([err.Error()]); [fmt.Errorf] with [%w]
      or [%s] is concatenation of messages.
    - A Go [map[string]T] is a [gmap string T]; the order in which [range]
      visits it is left open (class [MapOrder]).
    - Library and operating-system calls whose bodies are outside the
      repository are fields of the classes [GoLib] and [World]. *)

From Stdlib Require Import ZArith String Ascii List Lia Permutation.
From stdpp Require Import base strings list gmap sorting pretty.

Local Open Scope string_scope.
Local Open Scope list_scope.
Local Open Scope Z_scope.

(** ** Results of fallible calls *)

Inductive result (A : Type) : Type :=
| Ok (a : A)
| Err (msg : string).
Arguments Ok {A} a.
Arguments Err {A} msg.

Definition is_Ok {A} (r : result A) : bool :=
  match r with Ok _ => true | Err _ => false end.

(** ** The parts of Go's standard library the code calls *)

(** Library functions whose bodies are outside the repository. *)
Class GoLib : Type := {
  (** [strconv.Quote], the [%q] verb of [fmt] on a string *)
  strconv_Quote : string -> string;
  (** [filepath.Join(dir, name)] *)
  filepath_Join : string -> string -> string;
  (** [strings.TrimSpace] *)
  strings_TrimSpace : string -> string;
  (** [unicode.To(unicode.LowerCase, r)] for a rune above ASCII: the
      lower-case mapping of the Unicode tables of the Go release the
      program is built with *)
  unicode_To_LowerCase : Z -> Z
}.

Module GoStrings.

Definition byteValue (c : ascii) : Z := Z.of_nat (nat_of_ascii c).

Definition byteOf (n : Z) : ascii := ascii_of_nat (Z.to_nat n).

Definition between (lo x hi : Z) : bool := ((lo <=? x) && (x <=? hi))%bool.

(** [utf8.RuneError] and [utf8.MaxRune]. *)
Definition RuneError : Z := 65533.

Definition MaxRune : Z := 1114111.

(** A continuation byte, [0x80]..[0xBF]. *)
Definition isContinuation (b : Z) : bool := between 128 b 191.

(** [utf8.DecodeRuneInString]: the rune at the start of the text and
    the number of bytes of its encoding. A byte that starts no valid
    encoding (a stray continuation byte, [0xC0], [0xC1], [0xF5] and
    above, a truncated or overlong sequence, a surrogate, a value above
    [MaxRune]) gives [RuneError] and width 1; the empty text gives
    [RuneError] and width 0. *)
Definition DecodeRuneInString (s : string) : Z * nat :=
  match s with
  | EmptyString => (RuneError, 0%nat)
  | String c0 s1 =>
      let b0 := byteValue c0 in
      if b0 <? 128 then (b0, 1%nat)
      else if between 194 b0 223 then
        match s1 with
        | String c1 _ =>
            let b1 := byteValue c1 in
            if isContinuation b1
            then (Z.lor (Z.shiftl (Z.land b0 31) 6) (Z.land b1 63), 2%nat)
            else (RuneError, 1%nat)
        | _ => (RuneError, 1%nat)
        end
      else if between 224 b0 239 then
        match s1 with
        | String c1 (String c2 _) =>
            let b1 := byteValue c1 in
            let b2 := byteValue c2 in
            if (between (if b0 =? 224 then 160 else 128) b1
                        (if b0 =? 237 then 159 else 191)
                && isContinuation b2)%bool
            then (Z.lor (Z.shiftl (Z.land b0 15) 12)
                    (Z.lor (Z.shiftl (Z.land b1 63) 6) (Z.land b2 63)), 3%nat)
            else (RuneError, 1%nat)
        | _ => (RuneError, 1%nat)
        end
      else if between 240 b0 244 then
        match s1 with
        | String c1 (String c2 (String c3 _)) =>
            let b1 := byteValue c1 in
            let b2 := byteValue c2 in
            let b3 := byteValue c3 in
            if (between (if b0 =? 240 then 144 else 128) b1
                        (if b0 =? 244 then 143 else 191)
                && isContinuation b2 && isContinuation b3)%bool
            then (Z.lor (Z.shiftl (Z.land b0 7) 18)
                    (Z.lor (Z.shiftl (Z.land b1 63) 12)
                       (Z.lor (Z.shiftl (Z.land b2 63) 6) (Z.land b3 63))), 4%nat)
            else (RuneError, 1%nat)
        | _ => (RuneError, 1%nat)
        end
      else (RuneError, 1%nat)
  end.

Definition encode3 (r : Z) : string :=
  String (byteOf (Z.lor 224 (Z.shiftr r 12)))
    (String (byteOf (Z.lor 128 (Z.land (Z.shiftr r 6) 63)))
       (String (byteOf (Z.lor 128 (Z.land r 63))) EmptyString)).

(** [utf8.AppendRune]: the encoding of a rune; a surrogate or a value
    outside [0]..[MaxRune] is encoded as [RuneError]. *)
Definition EncodeRune (r : Z) : string :=
  if (r <? 0) || (MaxRune <? r) || between 55296 r 57343 then encode3 RuneError
  else if r <=? 127 then String (byteOf r) EmptyString
  else if r <=? 2047 then
    String (byteOf (Z.lor 192 (Z.shiftr r 6)))
      (String (byteOf (Z.lor 128 (Z.land r 63))) EmptyString)
  else if r <=? 65535 then encode3 r
  else
    String (byteOf (Z.lor 240 (Z.shiftr r 18)))
      (String (byteOf (Z.lor 128 (Z.land (Z.shiftr r 12) 63)))
         (String (byteOf (Z.lor 128 (Z.land (Z.shiftr r 6) 63)))
            (String (byteOf (Z.lor 128 (Z.land r 63))) EmptyString))).

(** What [strings.Map] writes for one rune of the input: the encoding
    of its image, nothing when the image is negative. *)
Definition writeMapped (mapping : Z -> Z) (c : Z) : string :=
  let r := mapping c in
  if 0 <=? r then EncodeRune r else EmptyString.

(** The second loop of [strings.Map], [for _, c := range s], which
    writes the image of every rune. [skip] counts the bytes of the
    current rune that are still to be passed over. *)
Fixpoint mapRest (mapping : Z -> Z) (skip : nat) (s : string) : string :=
  match s with
  | EmptyString => EmptyString
  | String _ s' =>
      match skip with
      | S skip' => mapRest mapping skip' s'
      | O =>
          let '(c, width) := DecodeRuneInString s in
          (writeMapped mapping c ++ mapRest mapping (width - 1) s')%string
      end
  end.

(** The first loop of [strings.Map]: runes that are their own image are
    passed over, except a byte that is no valid encoding; at the first
    other rune the text read so far is copied, the image written, and
    the second loop takes the rest. [None] when the loop reaches the end
    of the text: then [strings.Map] returns its argument. *)
Fixpoint mapScan (mapping : Z -> Z) (skip : nat) (s : string) : option string :=
  match s with
  | EmptyString => None
  | String b s' =>
      match skip with
      | S skip' =>
          match mapScan mapping skip' s' with
          | Some out => Some (String b out)
          | None => None
          end
      | O =>
          let '(c, width) := DecodeRuneInString s in
          if ((mapping c =? c) && negb ((c =? RuneError) && Nat.eqb width 1))%bool
          then match mapScan mapping (width - 1) s' with
               | Some out => Some (String b out)
               | None => None
               end
          else Some (writeMapped mapping c ++ mapRest mapping (width - 1) s')%string
      end
  end.

(** [strings.Map]. *)
Definition Map (mapping : Z -> Z) (s : string) : string :=
  match mapScan mapping 0 s with
  | Some out => out
  | None => s
  end.

(** [unicode.ToLower]: on ASCII the letters [A]..[Z] are moved to
    [a]..[z]; above ASCII the case tables decide. *)
Definition unicode_ToLower `{GoLib} (r : Z) : Z :=
  if r <=? 127 then (if between 65 r 90 then r + 32 else r)
  else unicode_To_LowerCase r.

Definition lowerByte (c : ascii) : ascii :=
  let n := nat_of_ascii c in
  if ((65 <=? n)%nat && (n <=? 90)%nat)%bool then ascii_of_nat (n + 32) else c.

Fixpoint lowerBytes (s : string) : string :=
  match s with
  | EmptyString => EmptyString
  | String c s' => String (lowerByte c) (lowerBytes s')
  end.

Fixpoint isASCII (s : string) : bool :=
  match s with
  | EmptyString => true
  | String c s' => ((nat_of_ascii c <? 128)%nat && isASCII s')%bool
  end.

(** [strings.ToLower]: a text of ASCII bytes only has its bytes [A]..[Z]
    moved to [a]..[z]; any other text is [strings.Map(unicode.ToLower, s)]. *)
Definition ToLower `{GoLib} (s : string) : string :=
  if isASCII s then lowerBytes s else Map unicode_ToLower s.

(** [strings.HasSuffix]:
    [len(s) >= len(suffix) && s[len(s)-len(suffix):] == suffix]. *)
Definition HasSuffix (s suffix : string) : bool :=
  ((String.length suffix <=? String.length s)%nat &&
   String.eqb
     (String.substring (String.length s - String.length suffix)
                       (String.length suffix) s)
     suffix)%bool.

(** [strings.Join]. *)
Definition Join (elems : list string) (sep : string) : string :=
  String.concat sep elems.

(** Split at the first occurrence of the byte [sep]. *)
Fixpoint cut (sep : ascii) (s : string) : option (string * string) :=
  match s with
  | EmptyString => None
  | String c s' =>
      if Ascii.eqb c sep then Some (EmptyString, s')
      else match cut sep s' with
           | Some (before, after) => Some (String c before, after)
           | None => None
           end
  end.

(** [strings.SplitN(s, sep, n)] for a one-byte separator and [n >= 0]:
    at most [n] pieces, the last one holding the unsplit rest. *)
Fixpoint SplitN (s : string) (sep : ascii) (n : nat) : list string :=
  match n with
  | O => []
  | S O => [s]
  | S n' =>
      match cut sep s with
      | Some (before, after) => before :: SplitN after sep n'
      | None => [s]
      end
  end.

(** [fmt.Sprintf("%d", n)]. *)
Definition FormatInt (n : Z) : string := pretty n.

(** [fmt.Sprintf("%t", b)]. *)
Definition FormatBool (b : bool) : string :=
  if b then "true" else "false".

Definition isDigit (c : ascii) : bool :=
  let n := nat_of_ascii c in ((48 <=? n)%nat && (n <=? 57)%nat)%bool.

Fixpoint digitsValue (acc : Z) (s : string) : Z :=
  match s with
  | EmptyString => acc
  | String c s' => digitsValue (10 * acc + (Z.of_nat (nat_of_ascii c) - 48)) s'
  end.

Definition MaxInt : Z := 2 ^ 63 - 1.

(** [strconv.Atoi] with the error dropped ([n, _ := strconv.Atoi(s)]), on
    a non-empty string of decimal digits and a 64-bit [int]: the value,
    or [MaxInt] when it does not fit. Only such strings reach it (they are
    captures of [(\d+)]). *)
Definition Atoi (s : string) : Z :=
  let v := digitsValue 0 s in
  if v <=? MaxInt then v else MaxInt.

End GoStrings.

(** ** Go's [regexp], for the two patterns of [checker.go]

    [regexp] returns the leftmost match and, among the matches that start
    there, the one a backtracking search finds first. The fragment below
    (literal bytes and captured greedy [c+] over a byte class) is matched
    by exactly such a search; both patterns and every byte they
    distinguish are ASCII, so matching bytes and matching runes agree. *)

Module Regexp.

Inductive atom : Type :=
| Lit (c : ascii)                    (* a literal byte *)
| CapPlus (cls : ascii -> bool).     (* a capture group ([cls]+), greedy *)

(** All ways to split [s] into a non-empty prefix of [cls] bytes and the
    rest, longest prefix first (the order a greedy [+] tries them). *)
Fixpoint plusSplits (cls : ascii -> bool) (s : string) : list (string * string) :=
  match s with
  | EmptyString => []
  | String c s' =>
      if cls c
      then map (fun '(p, r) => (String c p, r)) (plusSplits cls s')
             ++ [(String c EmptyString, s')]
      else []
  end.

Fixpoint firstSome {A B} (f : A -> option B) (l : list A) : option B :=
  match l with
  | [] => None
  | x :: l' => match f x with Some y => Some y | None => firstSome f l' end
  end.

(** Match the atoms at the start of [s]; the captures, in order. *)
Fixpoint matchHere (re : list atom) (s : string) : option (list string) :=
  match re with
  | [] => Some []
  | Lit c :: re' =>
      match s with
      | String c' s' => if Ascii.eqb c' c then matchHere re' s' else None
      | EmptyString => None
      end
  | CapPlus cls :: re' =>
      firstSome (fun '(p, r) =>
                   match matchHere re' r with
                   | Some caps => Some (p :: caps)
                   | None => None
                   end)
                (plusSplits cls s)
  end.

(** [FindStringSubmatch] without element 0 (the whole match): the
    captures of the leftmost match, [None] when Go returns [nil]. *)
Fixpoint FindStringSubmatch (re : list atom) (s : string) : option (list string) :=
  match matchHere re s with
  | Some caps => Some caps
  | None =>
      match s with
      | EmptyString => None
      | String _ s' => FindStringSubmatch re s'
      end
  end.

Definition lits (s : string) : list atom := map Lit (list_ascii_of_string s).

Definition notColon (c : ascii) : bool := negb (Ascii.eqb c ":").

(** [([^:]+):(\d+):(\d+)] *)
Definition fileLocPattern : list atom :=
  [CapPlus notColon; Lit ":"; CapPlus GoStrings.isDigit; Lit ":";
   CapPlus GoStrings.isDigit].

(** [line (\d+)] *)
Definition linePattern : list atom :=
  lits "line " ++ [CapPlus GoStrings.isDigit].

End Regexp.

(** ** [internal/database]: the schema model *)

(** Modelled from the spec: the declarations of [database.Dialect],
    [SourceLocation], [Column], [Table] and [Schema] (package
    [internal/database]) are not among the sources; the fields are the
    ones section 3 of the specification lists and the code reads and
    writes. *)
Inductive Dialect : Type := DialectPostgres | DialectOther (name : string).

Record SourceLocation : Type := {
  Loc_File : string;
  Loc_Line : Z;
  Loc_Column : Z
}.

Record Column : Type := {
  Column_Name : string;
  Column_Type : string;
  Column_Nullable : bool;
  Column_IsPrimaryKey : bool;
  Column_Default : option string        (* *string *)
}.

Record Table : Type := {
  Table_Name : string;
  Table_Schema : string;
  Table_Columns : list Column;
  Table_RLSEnabled : bool;
  Table_SourceLocation : option SourceLocation   (* *SourceLocation *)
}.

Record Schema : Type := {
  Tables : list Table;
  Schema_Dialect : Dialect
}.

Global Instance SourceLocation_eq_dec : EqDecision SourceLocation.
Proof. solve_decision. Defined.
Global Instance Column_eq_dec : EqDecision Column.
Proof. solve_decision. Defined.
Global Instance Table_eq_dec : EqDecision Table.
Proof. solve_decision. Defined.

(** ** [pg_query]: the syntax tree handed over by the external parser

    Only the node kinds and fields the lowering inspects are spelled out;
    every other kind of the tagged union is [Node_Other]. Message fields
    that protobuf decoding always allocates (the payload of a [oneof]
    case, the elements of a repeated field) are not optional; optional
    sub-messages ([Relation], [TypeName], [RawExpr], [Arg]) are
    [option]s. *)

Module pg_query.

Inductive ConstrType : Type :=
| CONSTR_TYPE_UNDEFINED | CONSTR_NULL | CONSTR_NOTNULL | CONSTR_DEFAULT
| CONSTR_IDENTITY | CONSTR_GENERATED | CONSTR_CHECK | CONSTR_PRIMARY
| CONSTR_UNIQUE | CONSTR_EXCLUSION | CONSTR_FOREIGN
| CONSTR_ATTR_DEFERRABLE | CONSTR_ATTR_NOT_DEFERRABLE
| CONSTR_ATTR_DEFERRED | CONSTR_ATTR_IMMEDIATE.

Inductive AlterTableType : Type :=
| AT_EnableRowSecurity
| AT_DisableRowSecurity
| AT_ForceRowSecurity
| AT_NoForceRowSecurity
| AT_Other (code : Z).

(** The [val] oneof of [A_Const]. *)
Inductive A_Const_Val : Type :=
| Val_unset
| A_Const_Ival (Ival : Z)
| A_Const_Fval (Fval : string)
| A_Const_Boolval (Boolval : bool)
| A_Const_Sval (Sval : string)
| A_Const_Bsval (Bsval : string).

Record A_Const : Type := {
  Val : A_Const_Val;
  Isnull : bool
}.

Record RangeVar : Type := {
  Schemaname : string;
  Relname : string
}.

Record TypeName_ (N : Type) : Type := {
  Names : list N;
  Typmods : list N;
  ArrayBounds : list N
}.
Arguments Names {N}. Arguments Typmods {N}. Arguments ArrayBounds {N}.

Record FuncCall_ (N : Type) : Type := {
  Funcname : list N;
  Args : list N
}.
Arguments Funcname {N}. Arguments Args {N}.

Record TypeCast_ (N : Type) : Type := {
  Arg : option N;
  TypeCast_TypeName : option (TypeName_ N)
}.
Arguments Arg {N}. Arguments TypeCast_TypeName {N}.

Record Constraint_ (N : Type) : Type := {
  Contype : ConstrType;
  RawExpr : option N
}.
Arguments Contype {N}. Arguments RawExpr {N}.

Record ColumnDef_ (N : Type) : Type := {
  Colname : string;
  TypeName : option (TypeName_ N);
  Constraints : list N
}.
Arguments Colname {N}. Arguments TypeName {N}. Arguments Constraints {N}.

Record CreateStmt_ (N : Type) : Type := {
  Relation : option RangeVar;
  TableElts : list N
}.
Arguments Relation {N}. Arguments TableElts {N}.

Record AlterTableStmt_ (N : Type) : Type := {
  AlterTable_Relation : option RangeVar;
  Cmds : list N
}.
Arguments AlterTable_Relation {N}. Arguments Cmds {N}.

Record AlterTableCmd : Type := {
  Subtype : AlterTableType
}.

(** [*pg_query.Node] (non-nil): the [Node] oneof. *)
#[local] Set Warnings "-register-all".
Inductive Node : Type :=
| Node_unset                                   (* [n.Node == nil] *)
| Node_String_ (Sval : string)
| Node_AConst (c : A_Const)
| Node_FuncCall (f : FuncCall_ Node)
| Node_TypeCast (t : TypeCast_ Node)
| Node_SqlvalueFunction (Op : Z)
| Node_ColumnDef (d : ColumnDef_ Node)
| Node_Constraint (c : Constraint_ Node)
| Node_CreateStmt (s : CreateStmt_ Node)
| Node_AlterTableStmt (s : AlterTableStmt_ Node)
| Node_AlterTableCmd (c : AlterTableCmd)
| Node_Other (kind : string).

Abbreviation TypeName_t := (TypeName_ Node).
Abbreviation FuncCall := (FuncCall_ Node).
Abbreviation TypeCast := (TypeCast_ Node).
Abbreviation Constraint := (Constraint_ Node).
Abbreviation ColumnDef := (ColumnDef_ Node).
Abbreviation CreateStmt := (CreateStmt_ Node).
Abbreviation AlterTableStmt := (AlterTableStmt_ Node).

(** [*pg_query.RawStmt]. *)
Record RawStmt : Type := {
  Stmt : option Node;
  StmtLocation : Z
}.

End pg_query.

Import pg_query.

(** ** What the code takes from its environment *)

(** [os.DirEntry]: [Name()], [IsDir()] and [Type()&os.ModeSymlink != 0]. *)
Record DirEntry : Type := {
  Entry_Name : string;
  Entry_IsDir : bool;
  Entry_IsSymlink : bool
}.

(** The external parser and the file system, as seen during one call. *)
Class World : Type := {
  (** [pg_query.Parse]: the statements of [tree.Stmts], or the error *)
  pg_query_Parse : string -> result (list RawStmt);
  (** [os.Stat]: [Some isDir] when it succeeds *)
  os_Stat : string -> option bool;
  os_ReadDir : string -> result (list DirEntry);
  os_ReadFile : string -> result string
}.

(** The order in which [for k, v := range m] visits a map: some
    enumeration of its entries, not fixed by the language. *)
Class MapOrder (V : Type) : Type := {
  rangeOrder : gmap string V -> list (string * V);
  rangeOrder_perm : forall m, rangeOrder m ≡ₚ map_to_list m
}.

(** ** [parser.go] *)

Record parseContext : Type := {
  ctx_sql : string;
  ctx_filename : string
}.

Definition newline : ascii := "010"%char.

(** The loop of [byteOffsetToLineColumn]: [n] bytes of [s] remain to be
    scanned. *)
Fixpoint scanLines (s : string) (n : nat) (line column : Z) : Z * Z :=
  match n, s with
  | S n', String c s' =>
      if Ascii.eqb c newline
      then scanLines s' n' (line + 1) 1
      else scanLines s' n' line (column + 1)
  | _, _ => (line, column)
  end.

Definition byteOffsetToLineColumn (sql : string) (offset : Z) : Z * Z :=
  if ((offset <? 0) || (Z.of_nat (String.length sql) <? offset))%bool
  then (1, 1)
  else scanLines sql (Z.to_nat offset) 1 1.

Definition typeMap : gmap string string :=
  list_to_map
    [ ("int2", "smallint"); ("int4", "integer"); ("int8", "bigint");
      ("serial", "serial"); ("serial2", "smallserial");
      ("serial4", "serial"); ("serial8", "bigserial");
      ("bool", "boolean");
      ("varchar", "varchar"); ("bpchar", "char");
      ("float4", "real"); ("float8", "double precision");
      ("timestamp", "timestamp without time zone");
      ("timestamptz", "timestamp with time zone");
      ("time", "time without time zone");
      ("timetz", "time with time zone");
      ("text", "text");
      ("numeric", "numeric"); ("decimal", "decimal") ].

Definition normalizePostgreSQLType `{GoLib} (pgType : string) : string :=
  match typeMap !! GoStrings.ToLower pgType with
  | Some normalized => normalized
  | None => pgType
  end.

Definition formatTypeName `{GoLib} (typeName : TypeName_t) : string :=
  match Names typeName with
  | [] => ""
  | _ :: _ =>
      let parts :=
        fold_left (fun parts name =>
                     match name with
                     | Node_String_ sval => parts ++ [sval]
                     | _ => parts
                     end) (Names typeName) [] in
      let rawBase := GoStrings.Join parts "." in
      let typeStr :=
        match parts with
        | p0 :: _ :: _ =>
            if String.eqb p0 "pg_catalog" then List.last parts "" else rawBase
        | _ => rawBase
        end in
      let typeStr := normalizePostgreSQLType typeStr in
      let typeStr :=
        match Typmods typeName with
        | [] => typeStr
        | _ :: _ =>
            let mods :=
              fold_left (fun mods mod_ =>
                           match mod_ with
                           | Node_AConst {| Val := A_Const_Ival ival |} =>
                               mods ++ [GoStrings.FormatInt ival]
                           | _ => mods
                           end) (Typmods typeName) [] in
            match mods with
            | [] => typeStr
            | _ :: _ => typeStr +:+ "(" +:+ GoStrings.Join mods "," +:+ ")"
            end
        end in
      match ArrayBounds typeName with
      | [] => typeStr
      | _ :: _ => typeStr +:+ "[]"
      end
  end.

Definition formatAConst (c : A_Const) : option string :=
  match Val c with
  | A_Const_Ival ival => Some (GoStrings.FormatInt ival)
  | A_Const_Fval fval => Some fval
  | A_Const_Sval sval => Some ("'" +:+ sval +:+ "'")
  | A_Const_Bsval bsval => Some bsval
  | A_Const_Boolval b => Some (GoStrings.FormatBool b)
  | Val_unset => if Isnull c then Some "NULL" else None
  end.

Definition formatSqlvalueFunction (op : Z) : option string :=
  match op with
  | 1 => Some "CURRENT_DATE"
  | 2 => Some "CURRENT_TIME"
  | 3 => Some "CURRENT_TIME"
  | 4 => Some "CURRENT_TIMESTAMP"
  | 5 => Some "CURRENT_TIMESTAMP"
  | 6 => Some "LOCALTIME"
  | 7 => Some "LOCALTIME"
  | 8 => Some "LOCALTIMESTAMP"
  | 9 => Some "LOCALTIMESTAMP"
  | 10 => Some "CURRENT_ROLE"
  | 11 => Some "CURRENT_USER"
  | 12 => Some "USER"
  | 13 => Some "SESSION_USER"
  | 14 => Some "CURRENT_CATALOG"
  | 15 => Some "CURRENT_SCHEMA"
  | _ => None
  end.

Definition UNDEFINED_EXPRESSION : string := "UNDEFINED_EXPRESSION".

(** [formatExpr] on a non-nil node. A [case] that ends without a
    [return] falls out of the [switch] to the placeholder. *)
Fixpoint formatExprNode (node : Node) : string :=
  match node with
  | Node_AConst c =>
      match formatAConst c with
      | Some s => s
      | None => UNDEFINED_EXPRESSION
      end
  | Node_FuncCall fc =>
      match Funcname fc with
      | Node_String_ funcName :: _ =>
          let args := map formatExprNode (Args fc) in
          match args with
          | _ :: _ => funcName +:+ "(" +:+ GoStrings.Join args ", " +:+ ")"
          | [] => funcName +:+ "()"
          end
      | _ => UNDEFINED_EXPRESSION
      end
  | Node_TypeCast tc =>
      match Arg tc with
      | Some arg => formatExprNode arg
      | None => UNDEFINED_EXPRESSION
      end
  | Node_SqlvalueFunction op =>
      match formatSqlvalueFunction op with
      | Some s => s
      | None => UNDEFINED_EXPRESSION
      end
  | _ => UNDEFINED_EXPRESSION
  end.

(** [formatExpr(node *pg_query.Node)]: the empty string for [nil]. *)
Definition formatExpr (node : option Node) : string :=
  match node with
  | None => ""
  | Some n => formatExprNode n
  end.

Definition Column_setNullable (b : bool) (col : Column) : Column :=
  {| Column_Name := Column_Name col; Column_Type := Column_Type col;
     Column_Nullable := b; Column_IsPrimaryKey := Column_IsPrimaryKey col;
     Column_Default := Column_Default col |}.

Definition Column_setIsPrimaryKey (b : bool) (col : Column) : Column :=
  {| Column_Name := Column_Name col; Column_Type := Column_Type col;
     Column_Nullable := Column_Nullable col; Column_IsPrimaryKey := b;
     Column_Default := Column_Default col |}.

Definition Column_setDefault (d : option string) (col : Column) : Column :=
  {| Column_Name := Column_Name col; Column_Type := Column_Type col;
     Column_Nullable := Column_Nullable col;
     Column_IsPrimaryKey := Column_IsPrimaryKey col;
     Column_Default := d |}.

Definition Column_setType (t : string) (col : Column) : Column :=
  {| Column_Name := Column_Name col; Column_Type := t;
     Column_Nullable := Column_Nullable col;
     Column_IsPrimaryKey := Column_IsPrimaryKey col;
     Column_Default := Column_Default col |}.

Definition Table_setRLSEnabled (b : bool) (t : Table) : Table :=
  {| Table_Name := Table_Name t; Table_Schema := Table_Schema t;
     Table_Columns := Table_Columns t; Table_RLSEnabled := b;
     Table_SourceLocation := Table_SourceLocation t |}.

(** [parseColumnConstraint] mutates [*col]; here it returns the column. *)
Definition parseColumnConstraint (col : Column) (constraint : Constraint) : Column :=
  match Contype constraint with
  | CONSTR_NOTNULL => Column_setNullable false col
  | CONSTR_NULL => Column_setNullable true col
  | CONSTR_DEFAULT =>
      match RawExpr constraint with
      | Some _ => Column_setDefault (Some (formatExpr (RawExpr constraint))) col
      | None => col
      end
  | CONSTR_PRIMARY => Column_setNullable false (Column_setIsPrimaryKey true col)
  | _ => col
  end.

Definition parseColumnDef `{GoLib} (colDef : ColumnDef) : result Column :=
  if String.eqb (Colname colDef) "" then Err "column missing name"
  else
    let col := {| Column_Name := Colname colDef; Column_Type := "";
                  Column_Nullable := true; Column_IsPrimaryKey := false;
                  Column_Default := None |} in
    let col := match TypeName colDef with
               | Some typeName => Column_setType (formatTypeName typeName) col
               | None => col
               end in
    Ok (fold_left (fun col constraint =>
                     match constraint with
                     | Node_Constraint cons_ => parseColumnConstraint col cons_
                     | _ => col
                     end) (Constraints colDef) col).

(** The loop over [stmt.TableElts]; [cols] is [table.Columns] so far. *)
Fixpoint parseTableElts `{GoLib} (elts : list Node) (cols : list Column) : result (list Column) :=
  match elts with
  | [] => Ok cols
  | Node_ColumnDef colDef :: elts' =>
      match parseColumnDef colDef with
      | Err msg => Err msg
      | Ok col => parseTableElts elts' (cols ++ [col])
      end
  | _ :: elts' => parseTableElts elts' cols
  end.

Definition parseCreateTable `{GoLib} (stmt : CreateStmt) (ctx : parseContext)
    (stmtLocation : Z) : result Table :=
  match Relation stmt with
  | None => Err "CREATE TABLE missing relation"
  | Some relation =>
      let '(line, column) := byteOffsetToLineColumn (ctx_sql ctx) stmtLocation in
      match parseTableElts (TableElts stmt) [] with
      | Err msg => Err msg
      | Ok cols =>
          Ok {| Table_Name := Relname relation;
                Table_Schema := Schemaname relation;
                Table_Columns := cols;
                Table_RLSEnabled := false;
                Table_SourceLocation :=
                  Some {| Loc_File := ctx_filename ctx;
                          Loc_Line := line; Loc_Column := column |} |}
      end
  end.

(** An empty schema name stands for ["public"] when names are compared. *)
Definition effectiveSchema (s : string) : string :=
  if String.eqb s "" then "public" else s.

(** The search loop of [parseAlterTable]: the first index, counting from
    [i], of a table with the target name; [None] is [tableIndex == -1]. *)
Fixpoint findTable (tables : list Table) (i : nat) (tableName tableSchema : string)
    : option nat :=
  match tables with
  | [] => None
  | table :: tables' =>
      let tblSchema := effectiveSchema (Table_Schema table) in
      if (String.eqb (Table_Name table) tableName
          && String.eqb tblSchema tableSchema)%bool
      then Some i
      else findTable tables' (S i) tableName tableSchema
  end.

(** One round of the loop over [stmt.Cmds]. *)
Definition applyAlterCmd (tableIndex : nat) (tables : list Table) (cmd : Node)
    : list Table :=
  match cmd with
  | Node_AlterTableCmd alterCmd =>
      match Subtype alterCmd with
      | AT_EnableRowSecurity => alter (Table_setRLSEnabled true) tableIndex tables
      | AT_DisableRowSecurity => alter (Table_setRLSEnabled false) tableIndex tables
      | _ => tables
      end
  | _ => tables
  end.

(** [parseAlterTable] mutates [*schema]; here it returns the schema. *)
Definition parseAlterTable (schema : Schema) (stmt : AlterTableStmt) : result Schema :=
  match AlterTable_Relation stmt with
  | None => Err "ALTER TABLE missing relation"
  | Some relation =>
      let tableName := Relname relation in
      let tableSchema := effectiveSchema (Schemaname relation) in
      match findTable (Tables schema) 0 tableName tableSchema with
      | None => Ok schema
      | Some tableIndex =>
          Ok {| Tables := fold_left (applyAlterCmd tableIndex) (Cmds stmt)
                                    (Tables schema);
                Schema_Dialect := Schema_Dialect schema |}
      end
  end.

(** The walk over [tree.Stmts]. *)
Fixpoint lowerStmts `{GoLib} (stmts : list RawStmt) (ctx : parseContext) (schema : Schema)
    : result Schema :=
  match stmts with
  | [] => Ok schema
  | stmt :: stmts' =>
      match Stmt stmt with
      | Some (Node_CreateStmt createStmt) =>
          match parseCreateTable createStmt ctx (StmtLocation stmt) with
          | Err msg => Err ("failed to parse CREATE TABLE: " +:+ msg)
          | Ok table =>
              lowerStmts stmts' ctx
                {| Tables := Tables schema ++ [table];
                   Schema_Dialect := Schema_Dialect schema |}
          end
      | Some (Node_AlterTableStmt alterStmt) =>
          match parseAlterTable schema alterStmt with
          | Err msg => Err ("failed to parse ALTER TABLE: " +:+ msg)
          | Ok schema' => lowerStmts stmts' ctx schema'
          end
      | _ => lowerStmts stmts' ctx schema
      end
  end.

Definition parsePostgresSQLSchemaWithFilename `{GoLib} `{World} (sql filename : string)
    : result Schema :=
  match pg_query_Parse sql with
  | Err msg => Err ("failed to parse SQL: " +:+ msg)
  | Ok stmts =>
      lowerStmts stmts {| ctx_sql := sql; ctx_filename := filename |}
                 {| Tables := []; Schema_Dialect := DialectPostgres |}
  end.

Definition dialectName (d : Dialect) : string :=
  match d with
  | DialectPostgres => "postgres"
  | DialectOther name => name
  end.

Definition ParseSQLSchemaWithDialectAndFilename `{GoLib} `{World}
    (sql : string) (dialect : Dialect) (filename : string) : result Schema :=
  match dialect with
  | DialectPostgres => parsePostgresSQLSchemaWithFilename sql filename
  | _ => Err ("unsupported dialect " +:+ dialectName dialect)
  end.

Definition ParseSQLSchemaWithDialect `{GoLib} `{World} (sql : string) (dialect : Dialect)
    : result Schema :=
  ParseSQLSchemaWithDialectAndFilename sql dialect "".

(** ** [checker.go]: the report types *)

Record Diagnostic : Type := {
  Diag_Code : string;
  Diag_Message : string;
  Diag_Severity : string;
  Diag_File : string;
  Diag_Line : Z;
  Diag_Column : Z
}.

Record Summary : Type := {
  Errors : Z;
  Warnings : Z;
  Valid : bool
}.

Record CheckOutput : Type := {
  Diagnostics : list Diagnostic;
  Output_Summary : Summary
}.

Definition NewCheckOutput : CheckOutput :=
  {| Diagnostics := [];
     Output_Summary := {| Errors := 0; Warnings := 0; Valid := true |} |}.

(** [json.MarshalIndent(output, "", "  ")]. *)
Class Json : Type := {
  json_MarshalIndent : CheckOutput -> result string
}.

(** ** [loader.go]: the duplicate validators *)

Record tableInfo : Type := {
  firstIndex : nat;
  indices : list nat
}.

(** [fmt.Sprintf("%s.%s", tableSchema, table.Name)] after the default to
    ["public"]. *)
Definition tableKey (table : Table) : string :=
  effectiveSchema (Table_Schema table) +:+ "." +:+ Table_Name table.

(** The first loop of both validators (the two copies are the same
    text): [tables] are the tables from index [i] on. [info] is a
    pointer into the map, so appending to [info.indices] updates the
    entry. *)
Fixpoint collectSeen (tables : list Table) (i : nat) (seen : gmap string tableInfo)
    : gmap string tableInfo :=
  match tables with
  | [] => seen
  | table :: tables' =>
      let key := tableKey table in
      match seen !! key with
      | Some info =>
          collectSeen tables' (S i)
            (<[key := {| firstIndex := firstIndex info;
                         indices := indices info ++ [i] |}]> seen)
      | None =>
          collectSeen tables' (S i)
            (<[key := {| firstIndex := i; indices := [i] |}]> seen)
      end
  end.

Definition firstOccurrenceMessage `{GoLib} (key : string) : string :=
  "Table " +:+ strconv_Quote key +:+ " is defined multiple times (first occurrence)".

Definition duplicateMessage `{GoLib} (key : string) : string :=
  "Table " +:+ strconv_Quote key +:+ " is already defined (duplicate definition)".

(** The body of the loop over [info.indices]: the diagnostic of the
    occurrence at position [i] of the list, for the table found at
    [schema.Tables[idx]]. *)
Definition occurrenceDiagnostic `{GoLib} (key : string) (i : nat) (table : Table)
    : Diagnostic :=
  let message :=
    if Nat.eqb i 0 then firstOccurrenceMessage key else duplicateMessage key in
  match Table_SourceLocation table with
  | Some loc =>
      {| Diag_Code := ""; Diag_Message := message; Diag_Severity := "error";
         Diag_File := if String.eqb (Loc_File loc) "" then "" else Loc_File loc;
         Diag_Line := Loc_Line loc; Diag_Column := Loc_Column loc |}
  | None =>
      {| Diag_Code := ""; Diag_Message := message; Diag_Severity := "error";
         Diag_File := ""; Diag_Line := 1; Diag_Column := 1 |}
  end.

(** The loop over [info.indices], from position [i] on. An index outside
    [schema.Tables] would make Go panic; the indices recorded by
    [collectSeen] are all inside. *)
Fixpoint occurrenceDiagnostics `{GoLib} (tables : list Table) (key : string)
    (i : nat) (idxs : list nat) : list Diagnostic :=
  match idxs with
  | [] => []
  | idx :: idxs' =>
      match tables !! idx with
      | Some table =>
          occurrenceDiagnostic key i table
            :: occurrenceDiagnostics tables key (S i) idxs'
      | None => occurrenceDiagnostics tables key (S i) idxs'
      end
  end.

Definition ValidateDuplicateTablesAsDiagnostics `{GoLib} `{MapOrder tableInfo}
    (schema : Schema) : list Diagnostic :=
  let seen := collectSeen (Tables schema) 0 ∅ in
  fold_left (fun diagnostics '(key, info) =>
               if (1 <? length (indices info))%nat
               then diagnostics
                      ++ occurrenceDiagnostics (Tables schema) key 0 (indices info)
               else diagnostics)
            (rangeOrder seen) [].

(** The location text of one occurrence in the hard-fail message, if it
    has one. *)
Definition occurrenceLocation (table : Table) : list string :=
  match Table_SourceLocation table with
  | Some loc =>
      if negb (String.eqb (Loc_File loc) "")
      then [Loc_File loc +:+ ":" +:+ GoStrings.FormatInt (Loc_Line loc)
              +:+ ":" +:+ GoStrings.FormatInt (Loc_Column loc)]
      else ["line " +:+ GoStrings.FormatInt (Loc_Line loc)]
  | None => []
  end.

Fixpoint occurrenceLocations (tables : list Table) (idxs : list nat) : list string :=
  match idxs with
  | [] => []
  | idx :: idxs' =>
      match tables !! idx with
      | Some table => occurrenceLocation table ++ occurrenceLocations tables idxs'
      | None => occurrenceLocations tables idxs'
      end
  end.

(** The message for one key; [idxs] is [info.indices]. *)
Definition duplicateErrorMessage `{GoLib} (tables : list Table) (key : string)
    (idxs : list nat) : string :=
  let locations := occurrenceLocations tables idxs in
  match locations with
  | _ :: _ =>
      "table " +:+ strconv_Quote key +:+ " is defined multiple times at: "
        +:+ GoStrings.Join locations ", "
  | [] => "table " +:+ strconv_Quote key +:+ " is defined multiple times"
  end.

(** [validateNoDuplicateTables]: [None] is the [nil] error. *)
Definition validateNoDuplicateTables `{GoLib} `{MapOrder tableInfo}
    (schema : Schema) : option string :=
  let seen := collectSeen (Tables schema) 0 ∅ in
  let errorMessages :=
    fold_left (fun errorMessages '(key, info) =>
                 if (1 <? length (indices info))%nat
                 then errorMessages
                        ++ [duplicateErrorMessage (Tables schema) key (indices info)]
                 else errorMessages)
              (rangeOrder seen) [] in
  match errorMessages with
  | _ :: _ => Some (GoStrings.Join errorMessages "; ")
  | [] => None
  end.

(** ** [loader.go]: files and directories *)

Definition schemaSuffix : string := ".lp.sql".

(** The loop over the directory entries: the paths collected in
    [sqlFiles]. *)
Definition collectSQLFiles `{GoLib} (dir : string) (entries : list DirEntry)
    : list string :=
  fold_left (fun sqlFiles entry =>
               if Entry_IsDir entry then sqlFiles
               else if Entry_IsSymlink entry then sqlFiles
               else
                 let name := Entry_Name entry in
                 let lowerName := GoStrings.ToLower name in
                 if GoStrings.HasSuffix lowerName schemaSuffix
                 then sqlFiles ++ [filepath_Join dir name]
                 else sqlFiles)
            entries [].

(** [sort.Strings]: the arrangement of the input in increasing byte-wise
    order (there is only one), computed by a merge sort. [String.le] is
    the lexicographic order on the bytes, Go's [<=] on strings. *)
Definition sort_Strings (l : list string) : list string :=
  merge_sort String.le l.

Definition loadSQLSchemaFromBytesWithFilename
    `{GoLib} `{World} `{MapOrder tableInfo} (data filename : string)
    : result Schema :=
  match ParseSQLSchemaWithDialectAndFilename data DialectPostgres filename with
  | Err msg => Err ("failed to parse SQL DDL: " +:+ msg)
  | Ok schema =>
      match validateNoDuplicateTables schema with
      | Some err => Err err
      | None => Ok schema
      end
  end.

Definition loadSQLSchema `{GoLib} `{World} `{MapOrder tableInfo} (path : string)
    : result Schema :=
  match os_ReadFile path with
  | Err msg => Err ("failed to read SQL file: " +:+ msg)
  | Ok data => loadSQLSchemaFromBytesWithFilename data path
  end.

(** The loop over the sorted files; [allTables] is the slice so far. *)
Fixpoint loadFiles `{GoLib} `{World} `{MapOrder tableInfo}
    (files : list string) (allTables : list Table) : result (list Table) :=
  match files with
  | [] => Ok allTables
  | file :: files' =>
      match os_ReadFile file with
      | Err readErr =>
          Err ("failed to read SQL file " +:+ file +:+ ": " +:+ readErr)
      | Ok data =>
          match loadSQLSchemaFromBytesWithFilename data file with
          | Err parseErr =>
              Err ("failed to parse SQL file " +:+ file +:+ ": " +:+ parseErr)
          | Ok schema => loadFiles files' (allTables ++ Tables schema)
          end
      end
  end.

Definition loadSchemaFromDir `{GoLib} `{World} `{MapOrder tableInfo} (dir : string)
    : result Schema :=
  match os_ReadDir dir with
  | Err msg => Err ("failed to read schema directory " +:+ dir +:+ ": " +:+ msg)
  | Ok entries =>
      let sqlFiles := collectSQLFiles dir entries in
      match sqlFiles with
      | [] => Err ("no .lp.sql files found in directory " +:+ dir)
      | _ :: _ =>
          let sqlFiles := sort_Strings sqlFiles in
          match loadFiles sqlFiles [] with
          | Err msg => Err msg
          | Ok allTables =>
              let combinedSchema :=
                {| Tables := allTables; Schema_Dialect := DialectPostgres |} in
              match validateNoDuplicateTables combinedSchema with
              | Some err => Err err
              | None => Ok combinedSchema
              end
          end
      end
  end.

Definition LoadSchema `{GoLib} `{World} `{MapOrder tableInfo} (path : string)
    : result Schema :=
  match os_Stat path with
  | Some true => loadSchemaFromDir path
  | _ =>
      match os_Stat path with
      | Some _ =>
          if GoStrings.HasSuffix (GoStrings.ToLower path) schemaSuffix
          then loadSQLSchema path
          else Err "did not find .lp.sql file(s)"
      | None => Err "did not find .lp.sql file(s)"
      end
  end.

(** ** [checker.go]: the check pipeline *)

Definition loadSQLSchemaWithoutValidation `{GoLib} `{World} (path : string) : result Schema :=
  match os_ReadFile path with
  | Err msg => Err ("failed to read SQL file: " +:+ msg)
  | Ok data =>
      match ParseSQLSchemaWithDialectAndFilename data DialectPostgres path with
      | Err msg => Err ("failed to parse SQL DDL: " +:+ msg)
      | Ok schema => Ok schema
      end
  end.

Fixpoint loadFilesWithoutValidation `{GoLib} `{World}
    (files : list string) (allTables : list Table) : result (list Table) :=
  match files with
  | [] => Ok allTables
  | file :: files' =>
      match os_ReadFile file with
      | Err readErr =>
          Err ("failed to read SQL file " +:+ file +:+ ": " +:+ readErr)
      | Ok data =>
          match ParseSQLSchemaWithDialectAndFilename data DialectPostgres file with
          | Err parseErr =>
              Err ("failed to parse SQL file " +:+ file +:+ ": " +:+ parseErr)
          | Ok schema =>
              loadFilesWithoutValidation files' (allTables ++ Tables schema)
          end
      end
  end.

Definition loadSchemaFromDirWithoutValidation `{GoLib} `{World} (dir : string)
    : result Schema :=
  match os_ReadDir dir with
  | Err msg => Err ("failed to read schema directory " +:+ dir +:+ ": " +:+ msg)
  | Ok entries =>
      let sqlFiles := collectSQLFiles dir entries in
      match sqlFiles with
      | [] => Err ("no .lp.sql files found in directory " +:+ dir)
      | _ :: _ =>
          let sqlFiles := sort_Strings sqlFiles in
          match loadFilesWithoutValidation sqlFiles [] with
          | Err msg => Err msg
          | Ok allTables =>
              Ok {| Tables := allTables; Schema_Dialect := DialectPostgres |}
          end
      end
  end.

Definition loadSchemaWithoutValidation `{GoLib} `{World} (path : string)
    : result Schema :=
  match os_Stat path with
  | Some true => loadSchemaFromDirWithoutValidation path
  | _ =>
      match os_Stat path with
      | Some _ =>
          if GoStrings.HasSuffix (GoStrings.ToLower path) schemaSuffix
          then loadSQLSchemaWithoutValidation path
          else Err "did not find .lp.sql file(s)"
      | None => Err "did not find .lp.sql file(s)"
      end
  end.

Definition errorDiagnostic (message file : string) (line column : Z) : Diagnostic :=
  {| Diag_Code := ""; Diag_Message := message; Diag_Severity := "error";
     Diag_File := file; Diag_Line := line; Diag_Column := column |}.

Definition parseErrorToDiagnostic `{GoLib} (errMsg defaultPath : string) : Diagnostic :=
  match Regexp.FindStringSubmatch Regexp.fileLocPattern errMsg with
  | Some [file; lineText; columnText] =>
      let line := GoStrings.Atoi lineText in
      let column := GoStrings.Atoi columnText in
      let messageParts := GoStrings.SplitN errMsg ":" 4 in
      let message :=
        match messageParts with
        | [_; _; _; rest] => strings_TrimSpace rest
        | _ => errMsg
        end in
      errorDiagnostic message file line column
  | _ =>
      match Regexp.FindStringSubmatch Regexp.linePattern errMsg with
      | Some [lineText] =>
          errorDiagnostic errMsg defaultPath (GoStrings.Atoi lineText) 1
      | _ => errorDiagnostic errMsg defaultPath 1 1
      end
  end.

(** [output.Diagnostics = append(output.Diagnostics, d)],
    [output.Summary.Errors++], [output.Summary.Valid = false]. *)
Definition appendError (output : CheckOutput) (d : Diagnostic) : CheckOutput :=
  {| Diagnostics := Diagnostics output ++ [d];
     Output_Summary :=
       {| Errors := Errors (Output_Summary output) + 1;
          Warnings := Warnings (Output_Summary output);
          Valid := false |} |}.

(** The value of [output] when [CheckSchema] marshals it. *)
Definition checkOutput `{GoLib} `{World} `{MapOrder tableInfo} (path : string)
    : CheckOutput :=
  let output := NewCheckOutput in
  match loadSchemaWithoutValidation path with
  | Err err => appendError output (parseErrorToDiagnostic err path)
  | Ok schema =>
      fold_left appendError (ValidateDuplicateTablesAsDiagnostics schema) output
  end.

Definition CheckSchema `{GoLib} `{World} `{MapOrder tableInfo} `{Json}
    (path : string) : result string :=
  match json_MarshalIndent (checkOutput path) with
  | Err marshalErr => Err ("failed to marshal check output: " +:+ marshalErr)
  | Ok jsonBytes => Ok jsonBytes
  end.

(** One round of the loop of [loadSchemaFromDir] succeeds on [file] with
    the schema [s]. *)
Definition fileLoads `{GoLib} `{World} `{MapOrder tableInfo}
    (file : string) (s : Schema) : Prop :=
  exists data, os_ReadFile file = Ok data /\
               loadSQLSchemaFromBytesWithFilename data file = Ok s.

(** A directory entry the scan keeps: a regular file (neither directory
    nor symbolic link) whose name ends, in any letter case, in the
    schema-file suffix. *)
Definition isSchemaFile `{GoLib} (entry : DirEntry) : bool :=
  (negb (Entry_IsDir entry) && negb (Entry_IsSymlink entry)
   && GoStrings.HasSuffix (GoStrings.ToLower (Entry_Name entry)) schemaSuffix)%bool.

(** ** Concrete environments, used to run the definitions *)

Definition dquote : string := String "034"%char EmptyString.

(** The type name INT8 written with the capital I with dot above
    (U+0130, the bytes [0xC4 0xB0] in UTF-8) in place of the I. *)
Definition dottedINT8 : string :=
  String (ascii_of_nat 196) (String (ascii_of_nat 176) "NT8").

(** The lower-case mapping on a few runes above ASCII: the capital
    letters of Latin-1, the capital I with dot above (to [i]) and the
    Kelvin sign (to [k]); a fragment of the Unicode tables. *)
Definition latinLowerCase (r : Z) : Z :=
  if (GoStrings.between 192 r 222 && negb (r =? 215))%bool then r + 32
  else if r =? 304 then 105
  else if r =? 8490 then 107
  else r.

(** [strconv.Quote] on printable ASCII text without quotes or
    backslashes, [filepath.Join] on clean path elements. *)
Definition plainLib : GoLib :=
  {| strconv_Quote := fun s => dquote +:+ s +:+ dquote;
     filepath_Join := fun dir name => dir +:+ "/" +:+ name;
     strings_TrimSpace := fun s => s;
     unicode_To_LowerCase := latinLowerCase |}.

Definition listOrder : MapOrder tableInfo :=
  {| rangeOrder := map_to_list;
     rangeOrder_perm := fun m => Permutation_refl (map_to_list m) |}.


(** The tree the PostgreSQL grammar builds for
    [CREATE TABLE users (id BIGINT PRIMARY KEY, email TEXT NOT NULL,
     created_at TIMESTAMP WITH TIME ZONE DEFAULT NOW());]
    The keywords [BIGINT] and [TIMESTAMP WITH TIME ZONE] become the
    catalog-qualified names [pg_catalog.int8] and
    [pg_catalog.timestamptz], [TEXT] is the plain name [text], and the
    scanner folds the unquoted identifiers [users], [id], [email],
    [created_at] and [NOW] to lower case. *)
Definition users_sql : string :=
  "CREATE TABLE users (id BIGINT PRIMARY KEY, email TEXT NOT NULL, created_at TIMESTAMP WITH TIME ZONE DEFAULT NOW());".

Definition mkType (names : list string) : option TypeName_t :=
  Some {| Names := map Node_String_ names; Typmods := []; ArrayBounds := [] |}.

Definition mkConstraint (t : ConstrType) (e : option Node) : Node :=
  Node_Constraint {| Contype := t; RawExpr := e |}.

(** A call [name()] as the parser delivers it. *)
Definition callNoArgs (name : string) : Node :=
  Node_FuncCall {| Funcname := [Node_String_ name]; Args := [] |}.

Definition users_columns (defaultFn : string) : list Node :=
  [ Node_ColumnDef
      {| Colname := "id"; TypeName := mkType ["pg_catalog"; "int8"];
         Constraints := [mkConstraint CONSTR_PRIMARY None] |};
    Node_ColumnDef
      {| Colname := "email"; TypeName := mkType ["text"];
         Constraints := [mkConstraint CONSTR_NOTNULL None] |};
    Node_ColumnDef
      {| Colname := "created_at";
         TypeName := mkType ["pg_catalog"; "timestamptz"];
         Constraints :=
           [mkConstraint CONSTR_DEFAULT (Some (callNoArgs defaultFn))] |} ].

Definition users_tree : list RawStmt :=
  [ {| Stmt := Some (Node_CreateStmt
                       {| Relation := Some {| Schemaname := ""; Relname := "users" |};
                          TableElts := users_columns "now" |});
       StmtLocation := 0 |} ].

(** A parser that knows this one statement. *)
Definition usersWorld : World :=
  {| pg_query_Parse := fun sql =>
       if String.eqb sql users_sql then Ok users_tree
       else Err "syntax error";
     os_Stat := fun _ => None;
     os_ReadDir := fun _ => Err "no such file or directory";
     os_ReadFile := fun _ => Err "no such file or directory" |}.

(** ** Reference readings of the specification

    Definitions that follow the words of the specification; the theorems
    below compare them with the functions translated from the code. *)

Module Spec.

(** "counting newlines up to the offset" *)
Fixpoint countNewlines (s : string) : nat :=
  match s with
  | EmptyString => O
  | String c s' =>
      if Ascii.eqb c newline then S (countNewlines s') else countNewlines s'
  end.

Fixpoint hasNewline (s : string) : bool :=
  match s with
  | EmptyString => false
  | String c s' => (Ascii.eqb c newline || hasNewline s')%bool
  end.

(** The text after the last newline of [s] (all of [s] without one). *)
Fixpoint lastLine (s : string) : string :=
  match s with
  | EmptyString => EmptyString
  | String c s' =>
      if hasNewline s' then lastLine s'
      else if Ascii.eqb c newline then s' else String c s'
  end.

(** The 1-based position of byte [offset] of [sql]. *)
Definition position (sql : string) (offset : nat) : Z * Z :=
  let before := String.substring 0 offset sql in
  (1 + Z.of_nat (countNewlines before),
   1 + Z.of_nat (String.length (lastLine before))).

(** "join the type's name parts with [.]; if the leading part is the
    parser's internal catalog qualifier, drop it and keep only the
    trailing part" *)
Definition nameParts (typeName : TypeName_t) : list string :=
  omap (fun n => match n with Node_String_ s => Some s | _ => None end)
       (Names typeName).

Definition baseName (parts : list string) : string :=
  match parts with
  | "pg_catalog" :: _ :: _ => List.last parts ""
  | _ => GoStrings.Join parts "."
  end.

(** "a parenthesized, comma-joined list of integer type modifiers if
    present" *)
Definition integerModifiers (typeName : TypeName_t) : list Z :=
  omap (fun n => match n with
                 | Node_AConst {| Val := A_Const_Ival i |} => Some i
                 | _ => None
                 end)
       (Typmods typeName).

Definition modifierSuffix (mods : list Z) : string :=
  match mods with
  | [] => ""
  | _ :: _ => "(" +:+ GoStrings.Join (map GoStrings.FormatInt mods) "," +:+ ")"
  end.

(** "append [[]] if the type carries array-bound metadata" *)
Definition arraySuffix (typeName : TypeName_t) : string :=
  match ArrayBounds typeName with [] => "" | _ :: _ => "[]" end.

Definition renderType `{GoLib} (typeName : TypeName_t) : string :=
  normalizePostgreSQLType (baseName (nameParts typeName))
    +:+ modifierSuffix (integerModifiers typeName)
    +:+ arraySuffix typeName.

(** Every byte of [s] is in the class [cls]. *)
Fixpoint allIn (cls : ascii -> bool) (s : string) : bool :=
  match s with
  | EmptyString => true
  | String c s' => (cls c && allIn cls s')%bool
  end.

(** [Matches re caps m]: the text [m] is matched by the pattern [re],
    the groups capturing [caps]. *)
Inductive Matches : list Regexp.atom -> list string -> string -> Prop :=
| Matches_nil : Matches [] [] EmptyString
| Matches_lit c re caps m :
    Matches re caps m -> Matches (Regexp.Lit c :: re) caps (String c m)
| Matches_plus cls re p caps m :
    p <> EmptyString -> allIn cls p = true -> Matches re caps m ->
    Matches (Regexp.CapPlus cls :: re) (p :: caps) (p +:+ m).

(** "a [path:line:col] substring": some text without colon, a colon,
    digits, a colon, digits. *)
Definition isFileLoc (file line column m : string) : Prop :=
  file <> EmptyString /\ allIn Regexp.notColon file = true /\
  line <> EmptyString /\ allIn GoStrings.isDigit line = true /\
  column <> EmptyString /\ allIn GoStrings.isDigit column = true /\
  m = file +:+ ":" +:+ line +:+ ":" +:+ column.

(** "a [line N] substring" *)
Definition isLineRef (line m : string) : Prop :=
  line <> EmptyString /\ allIn GoStrings.isDigit line = true /\
  m = "line " +:+ line.

Definition hasFileLoc (text : string) : Prop :=
  exists before m after file line column,
    text = before +:+ m +:+ after /\ isFileLoc file line column m.

Definition hasLineRef (text : string) : Prop :=
  exists before m after line,
    text = before +:+ m +:+ after /\ isLineRef line m.

(** The node kinds the expression formatter has a case for. *)
Definition recognizedKind (n : Node) : bool :=
  match n with
  | Node_AConst _ | Node_FuncCall _ | Node_TypeCast _
  | Node_SqlvalueFunction _ => true
  | _ => false
  end.

(** A table is the target of [ALTER TABLE schema.name] when its name and
    its effective schema are the target's. *)
Definition isTarget (relation : RangeVar) (t : Table) : Prop :=
  Table_Name t = Relname relation /\
  effectiveSchema (Table_Schema t) = effectiveSchema (Schemaname relation).

(** The flag after the commands of one [ALTER TABLE]: "ENABLE ROW
    SECURITY sets the flag true, DISABLE ROW SECURITY sets it false; all
    other sub-command kinds are ignored". *)
Definition finalFlag (cmds : list Node) (flag : bool) : bool :=
  fold_left (fun flag cmd =>
               match cmd with
               | Node_AlterTableCmd {| Subtype := AT_EnableRowSecurity |} => true
               | Node_AlterTableCmd {| Subtype := AT_DisableRowSecurity |} => false
               | _ => flag
               end) cmds flag.

(** What the specification says the statement [users_sql] lowers to:
    one table [users] with empty stored schema and three columns in
    source order; [id] primary key and not nullable, [email] not
    nullable without default, [created_at] nullable with the default
    text [defaultText]. *)
Definition usersLowered (lowered : result Schema) (defaultText : string) : Prop :=
  exists t c1 c2 c3,
    (lowered = Ok {| Tables := [t]; Schema_Dialect := DialectPostgres |}) /\
    (Table_Name t = "users") /\ (Table_Schema t = "") /\
    (Table_Columns t = [c1; c2; c3]) /\
    (Column_Name c1 = "id") /\ (Column_Name c2 = "email") /\
    (Column_Name c3 = "created_at") /\
    (Column_IsPrimaryKey c1 = true) /\ (Column_Nullable c1 = false) /\
    (Column_Nullable c2 = false) /\ (Column_Default c2 = None) /\
    (Column_Nullable c3 = true) /\
    (Column_Default c3 = Some defaultText).

(** The indices, counted from [i], of the tables with key [key]. *)
Fixpoint occurrences (key : string) (tables : list Table) (i : nat) : list nat :=
  match tables with
  | [] => []
  | t :: tables' =>
      if String.eqb (tableKey t) key
      then i :: occurrences key tables' (S i)
      else occurrences key tables' (S i)
  end.

End Spec.

(** The groups both validators report: the entries of [seen], in the
    order [range] visits them, that pass the guard
    [len(info.indices) > 1]; for each its key and occurrence indices. *)
Definition duplicateGroups `{MapOrder tableInfo} (schema : Schema)
    : list (string * list nat) :=
  map (fun '(key, info) => (key, indices info))
      (filter (fun '(key, info) => (1 < length (indices info))%nat)
              (rangeOrder (collectSeen (Tables schema) 0 ∅))).

(** The tables the [CREATE TABLE] statements of [stmts] lower to, in
    statement order (the statements that fail to lower are left out). *)
Fixpoint createdTables `{GoLib} (stmts : list RawStmt) (ctx : parseContext) : list Table :=
  match stmts with
  | [] => []
  | stmt :: stmts' =>
      match Stmt stmt with
      | Some (Node_CreateStmt createStmt) =>
          match parseCreateTable createStmt ctx (StmtLocation stmt) with
          | Ok table => table :: createdTables stmts' ctx
          | Err _ => createdTables stmts' ctx
          end
      | _ => createdTables stmts' ctx
      end
  end.

(** ** Sample inputs *)

Definition twoLines : string := "ab" +:+ String newline "cd".

(** [NUMERIC(10,2)[]] as the parser delivers it. *)
Definition numericArrayType : TypeName_t :=
  {| Names := [Node_String_ "pg_catalog"; Node_String_ "numeric"];
     Typmods := [Node_AConst {| Val := A_Const_Ival 10; Isnull := false |};
                 Node_AConst {| Val := A_Const_Ival 2; Isnull := false |}];
     ArrayBounds := [Node_Other "Integer"] |}.

Definition sampleTable (schemaName name file : string) (line : Z) : Table :=
  {| Table_Name := name; Table_Schema := schemaName; Table_Columns := [];
     Table_RLSEnabled := false;
     Table_SourceLocation :=
       Some {| Loc_File := file; Loc_Line := line; Loc_Column := 1 |} |}.

(** Two definitions of [public.users], implicit and explicit, and
    [auth.users]. *)
Definition sampleSchema : Schema :=
  {| Tables := [ sampleTable "" "users" "a.lp.sql" 1;
                 sampleTable "auth" "users" "a.lp.sql" 3;
                 sampleTable "public" "users" "b.lp.sql" 1 ];
     Schema_Dialect := DialectPostgres |}.

Definition alterCmd (t : AlterTableType) : Node :=
  Node_AlterTableCmd {| Subtype := t |}.

(** [ALTER TABLE public.users DISABLE ROW LEVEL SECURITY, ENABLE ROW
    LEVEL SECURITY]. *)
Definition sampleAlter : AlterTableStmt :=
  {| AlterTable_Relation := Some {| Schemaname := "public"; Relname := "users" |};
     Cmds := [alterCmd AT_DisableRowSecurity; alterCmd AT_EnableRowSecurity] |}.

(** [CREATE TABLE name (id BIGINT)] at byte [loc] of its file. *)
Definition simpleCreate (name : string) (loc : Z) : RawStmt :=
  {| Stmt := Some (Node_CreateStmt
                     {| Relation := Some {| Schemaname := ""; Relname := name |};
                        TableElts :=
                          [Node_ColumnDef
                             {| Colname := "id";
                                TypeName := mkType ["pg_catalog"; "int8"];
                                Constraints := [] |}] |});
     StmtLocation := loc |}.

Definition regularFile (name : string) : DirEntry :=
  {| Entry_Name := name; Entry_IsDir := false; Entry_IsSymlink := false |}.

(** A small file system:
    - [schema/] holds [users.lp.sql], [posts.LP.SQL] (two statements),
      [notes.txt] and a subdirectory [old];
    - [dup/] holds [a.lp.sql] and [b.lp.sql], both defining [users];
    - [docs/] holds only [notes.txt];
    - [broken.lp.sql] is rejected by the parser; [odd.lp.sql] cannot be
      read; [schema.sql] has the wrong suffix. *)
Definition demoWorld : World :=
  {| pg_query_Parse := fun sql =>
       if String.eqb sql "CREATE TABLE users (id BIGINT);"
       then Ok [simpleCreate "users" 0]
       else if String.eqb sql "CREATE TABLE posts (id BIGINT); CREATE TABLE tags (id BIGINT);"
       then Ok [simpleCreate "posts" 0; simpleCreate "tags" 31]
       else Err "syntax error at or near line 1";
     os_Stat := fun path =>
       if (String.eqb path "schema" || String.eqb path "dup"
           || String.eqb path "docs")%bool then Some true
       else if (String.eqb path "broken.lp.sql" || String.eqb path "odd.lp.sql"
                || String.eqb path "schema.sql")%bool
       then Some false
       else None;
     os_ReadDir := fun dir =>
       if String.eqb dir "schema"
       then Ok [regularFile "users.lp.sql"; regularFile "posts.LP.SQL";
                regularFile "notes.txt";
                {| Entry_Name := "old"; Entry_IsDir := true; Entry_IsSymlink := false |}]
       else if String.eqb dir "dup"
       then Ok [regularFile "a.lp.sql"; regularFile "b.lp.sql"]
       else if String.eqb dir "docs"
       then Ok [regularFile "notes.txt"]
       else Err "no such file or directory";
     os_ReadFile := fun path =>
       if (String.eqb path "schema/users.lp.sql" || String.eqb path "dup/a.lp.sql"
           || String.eqb path "dup/b.lp.sql")%bool
       then Ok "CREATE TABLE users (id BIGINT);"
       else if String.eqb path "schema/posts.LP.SQL"
       then Ok "CREATE TABLE posts (id BIGINT); CREATE TABLE tags (id BIGINT);"
       else if String.eqb path "broken.lp.sql"
       then Ok "CREATE TABLE users id BIGINT);"
       else if String.eqb path "odd.lp.sql"
       then Err "read odd.lp.sql:3:7: input/output error"
       else Err "no such file or directory" |}.

(** A marshaller that only reports the number of diagnostics. *)
Definition countJson : Json :=
  {| json_MarshalIndent := fun output =>
       Ok (GoStrings.FormatInt (Z.of_nat (length (Diagnostics output)))) |}.

(** ** [checker.go]: the methods of [CheckOutput] *)

(** [func (c *CheckOutput) AddError(message, file, line, column)]. *)
Definition AddError (c : CheckOutput) (message file : string) (line column : Z)
    : CheckOutput :=
  {| Diagnostics :=
       Diagnostics c ++
       [{| Diag_Code := ""; Diag_Message := message; Diag_Severity := "error";
           Diag_File := file; Diag_Line := line; Diag_Column := column |}];
     Output_Summary :=
       {| Errors := Errors (Output_Summary c) + 1;
          Warnings := Warnings (Output_Summary c);
          Valid := false |} |}.

(** [func (c *CheckOutput) AddWarning(message, file, line, column)]. *)
Definition AddWarning (c : CheckOutput) (message file : string) (line column : Z)
    : CheckOutput :=
  {| Diagnostics :=
       Diagnostics c ++
       [{| Diag_Code := ""; Diag_Message := message; Diag_Severity := "warning";
           Diag_File := file; Diag_Line := line; Diag_Column := column |}];
     Output_Summary :=
       {| Errors := Errors (Output_Summary c);
          Warnings := Warnings (Output_Summary c) + 1;
          Valid := Valid (Output_Summary c) |} |}.

(** ** The [check] command ([runCheck])

    The flags [--print-schema] and [--output] are the package variables
    [checkPrintSchema] and [checkOutput]. The run ends either by
    returning ([Exit = None]) or through [os.Exit] (also inside
    [log.Fatalf]); what it wrote to the two streams is recorded. *)

Record Flags : Type := {
  checkPrintSchema : bool;
  checkOutputFormat : string        (* the variable [checkOutput] *)
}.

Record Outcome : Type := {
  Exit : option Z;
  Stdout : string;
  Stderr : string
}.

(** What the command takes from outside the repository: the JSON text of
    a schema ([json.MarshalIndent(loadedSchema, "", "  ")]) and the
    header (date and time) the standard logger writes before a
    message. *)
Class Cli : Type := {
  json_MarshalIndent_schema : Schema -> result string;
  log_header : string
}.

Definition lineEnd : string := String newline EmptyString.

(** [log.Fatalf]: the header and the message on the error stream, with a
    line end unless the message already ends in one, then [os.Exit(1)]. *)
Definition log_Fatalf `{Cli} (message : string) : Outcome :=
  {| Exit := Some 1; Stdout := "";
     Stderr := log_header +:+ message
               +:+ (if GoStrings.HasSuffix message lineEnd then "" else lineEnd) |}.

(** The text of the error [LoadSchema] and [loadSchemaWithoutValidation]
    return for a path that selects no input. *)
Definition notFoundText : string := "did not find .lp.sql file(s)".

Definition usageText : string :=
  "Missing a schema file." +:+ lineEnd +:+ lineEnd
  +:+ "Usage: lockplane check [schema dir or .lp.sql file]" +:+ lineEnd
  +:+ "Help: lockplane check --help" +:+ lineEnd.

Definition conflictText : string :=
  "Error: --print-schema and --output json cannot be used together" +:+ lineEnd
  +:+ "  --print-schema: prints the parsed schema structure" +:+ lineEnd
  +:+ "  --output json: prints validation diagnostics" +:+ lineEnd.

Definition validText : string := "✓ Schema is valid".

Definition runCheck `{GoLib} `{World} `{MapOrder tableInfo} `{Json} `{Cli}
    (flags : Flags) (args : list string) : Outcome :=
  match args with
  | [schemaPath] =>
      if (checkPrintSchema flags
          && String.eqb (checkOutputFormat flags) "json")%bool
      then {| Exit := Some 1; Stdout := ""; Stderr := conflictText |}
      else if checkPrintSchema flags then
        match LoadSchema schemaPath with
        | Err err => log_Fatalf ("Failed to load schema: " +:+ err)
        | Ok loadedSchema =>
            match json_MarshalIndent_schema loadedSchema with
            | Err err => log_Fatalf ("Failed to marshal schema to JSON: " +:+ err)
            | Ok schemaJson =>
                {| Exit := None; Stdout := schemaJson +:+ lineEnd; Stderr := "" |}
            end
        end
      else if String.eqb (checkOutputFormat flags) "json" then
        match CheckSchema schemaPath with
        | Err err => log_Fatalf ("Failed to check schema: " +:+ err)
        | Ok reportJson => {| Exit := None; Stdout := reportJson; Stderr := "" |}
        end
      else
        match LoadSchema schemaPath with
        | Err err =>
            {| Exit := Some 1; Stdout := "";
               Stderr := "Error: " +:+ err +:+ lineEnd |}
        | Ok _ => {| Exit := None; Stdout := validText +:+ lineEnd; Stderr := "" |}
        end
  | _ => {| Exit := Some 1; Stdout := usageText; Stderr := "" |}
  end.

(** ** Further reference notions *)

Module Spec2.

(** A call of one of the two methods, with its arguments. *)
Inductive report : Type :=
| ReportError (message file : string) (line column : Z)
| ReportWarning (message file : string) (line column : Z).

Definition addReport (c : CheckOutput) (r : report) : CheckOutput :=
  match r with
  | ReportError message file line column => AddError c message file line column
  | ReportWarning message file line column => AddWarning c message file line column
  end.

(** The number of diagnostics of [ds] with severity [severity]. *)
Definition countSeverity (severity : string) (ds : list Diagnostic) : nat :=
  length (List.filter (fun d => String.eqb (Diag_Severity d) severity) ds).

(** The counters of a report agree with its diagnostics. *)
Definition wellCounted (c : CheckOutput) : Prop :=
  Errors (Output_Summary c) = Z.of_nat (countSeverity "error" (Diagnostics c)) /\
  Warnings (Output_Summary c) = Z.of_nat (countSeverity "warning" (Diagnostics c)) /\
  (Valid (Output_Summary c) = true <-> Errors (Output_Summary c) = 0) /\
  length (Diagnostics c)
    = (countSeverity "error" (Diagnostics c)
       + countSeverity "warning" (Diagnostics c))%nat.

(** What a column constraint says about nullability, if anything. *)
Definition nullabilityOf (constraint : Node) : option bool :=
  match constraint with
  | Node_Constraint {| Contype := CONSTR_NOTNULL |} => Some false
  | Node_Constraint {| Contype := CONSTR_NULL |} => Some true
  | Node_Constraint {| Contype := CONSTR_PRIMARY |} => Some false
  | _ => None
  end.

(** The default text a column constraint gives, if any. *)
Definition defaultOf (constraint : Node) : option string :=
  match constraint with
  | Node_Constraint {| Contype := CONSTR_DEFAULT; RawExpr := Some e |} =>
      Some (formatExpr (Some e))
  | _ => None
  end.

Definition isPrimary (constraint : Node) : bool :=
  match constraint with
  | Node_Constraint {| Contype := CONSTR_PRIMARY |} => true
  | _ => false
  end.

(** The column definitions among the elements of a [CREATE TABLE]. *)
Definition columnDefs (elts : list Node) : list ColumnDef :=
  omap (fun elt => match elt with Node_ColumnDef d => Some d | _ => None end) elts.

Definition named (colDef : ColumnDef) : Prop := Colname colDef <> "".

Global Instance named_dec colDef : Decision (named colDef).
Proof. unfold named. apply _. Defined.

(** The column a named definition lowers to. *)
Definition loweredColumn `{GoLib} (colDef : ColumnDef) : Column :=
  {| Column_Name := Colname colDef;
     Column_Type := match TypeName colDef with
                    | Some typeName => formatTypeName typeName
                    | None => ""
                    end;
     Column_Nullable := default true (last (omap nullabilityOf (Constraints colDef)));
     Column_IsPrimaryKey := existsb isPrimary (Constraints colDef);
     Column_Default := last (omap defaultOf (Constraints colDef)) |}.

(** A statement the lowering accepts. *)
Definition stmtAccepted (stmt : RawStmt) : Prop :=
  match Stmt stmt with
  | Some (Node_CreateStmt createStmt) =>
      Relation createStmt <> None /\
      Forall named (columnDefs (TableElts createStmt))
  | Some (Node_AlterTableStmt alterStmt) => AlterTable_Relation alterStmt <> None
  | _ => True
  end.

Global Instance stmtAccepted_dec stmt : Decision (stmtAccepted stmt).
Proof.
  unfold stmtAccepted. destruct (Stmt stmt) as [[]|]; apply _.
Defined.

(** The three messages statement lowering can fail with. *)
Definition loweringErrors : list string :=
  [ "failed to parse CREATE TABLE: CREATE TABLE missing relation";
    "failed to parse CREATE TABLE: column missing name";
    "failed to parse ALTER TABLE: ALTER TABLE missing relation" ].

Definition isCreate (stmt : RawStmt) : bool :=
  match Stmt stmt with
  | Some (Node_CreateStmt _) => true
  | _ => false
  end.

(** An [ALTER TABLE] statement that names its relation. *)
Definition isAlter (stmt : RawStmt) : Prop :=
  exists alterStmt relation,
    Stmt stmt = Some (Node_AlterTableStmt alterStmt) /\
    AlterTable_Relation alterStmt = Some relation.

(** The expression without its type casts (a cast without argument is
    kept). *)
Fixpoint stripCasts (n : Node) : Node :=
  match n with
  | Node_TypeCast {| Arg := Some arg |} => stripCasts arg
  | Node_FuncCall fc =>
      Node_FuncCall {| Funcname := Funcname fc;
                       Args := map stripCasts (Args fc) |}
  | _ => n
  end.

(** [part] occurs in [text]. *)
Definition contains (text part : string) : Prop :=
  exists before after, text = before +:+ part +:+ after.

(** No byte of [s] is a dot. *)
Definition dotFree (s : string) : Prop :=
  Spec.allIn (fun c => negb (Ascii.eqb c ".")) s = true.

(** The schema-qualified name of a table: effective schema and name. *)
Definition qualifiedName (t : Table) : string * string :=
  (effectiveSchema (Table_Schema t), Table_Name t).

(** The file a table was defined in (empty without location). *)
Definition tableFile (t : Table) : string :=
  match Table_SourceLocation t with
  | Some loc => Loc_File loc
  | None => ""
  end.

(** A table located in [file] at a line and column that are at least 1. *)
Definition locatedIn (file : string) (t : Table) : Prop :=
  exists loc, Table_SourceLocation t = Some loc /\ Loc_File loc = file /\
              1 <= Loc_Line loc /\ 1 <= Loc_Column loc.

(** Positions in reading order: earlier line, or same line and earlier
    column. *)
Definition positionBefore (p q : Z * Z) : Prop :=
  fst p < fst q \/ (fst p = fst q /\ snd p < snd q).

End Spec2.

(** ** Further sample inputs *)

(** [id INT PRIMARY KEY DEFAULT 1 NULL DEFAULT 2]. *)
Definition nullablePrimaryKey : ColumnDef :=
  {| Colname := "id"; TypeName := mkType ["pg_catalog"; "int4"];
     Constraints :=
       [ mkConstraint CONSTR_PRIMARY None;
         mkConstraint CONSTR_DEFAULT
           (Some (Node_AConst {| Val := A_Const_Ival 1; Isnull := false |}));
         mkConstraint CONSTR_NULL None;
         mkConstraint CONSTR_DEFAULT
           (Some (Node_AConst {| Val := A_Const_Ival 2; Isnull := false |})) ] |}.

(** [CREATE TABLE blog.posts (id BIGINT, title TEXT NOT NULL, PRIMARY KEY
    (id))]: two column definitions and a table constraint. *)
Definition postsCreate : CreateStmt :=
  {| Relation := Some {| Schemaname := "blog"; Relname := "posts" |};
     TableElts :=
       [ Node_ColumnDef {| Colname := "id"; TypeName := mkType ["pg_catalog"; "int8"];
                           Constraints := [] |};
         Node_ColumnDef {| Colname := "title"; TypeName := mkType ["text"];
                           Constraints := [mkConstraint CONSTR_NOTNULL None] |};
         mkConstraint CONSTR_PRIMARY None ] |}.

Definition enableRLS (schemaName name : string) : RawStmt :=
  {| Stmt := Some (Node_AlterTableStmt
                     {| AlterTable_Relation :=
                          Some {| Schemaname := schemaName; Relname := name |};
                        Cmds := [alterCmd AT_EnableRowSecurity] |});
     StmtLocation := 0 |}.

(** A parser for three inputs: an [ALTER TABLE] before the [CREATE
    TABLE] of its target, the same two statements in the other order
    around a statement of another kind, and a [CREATE TABLE] without
    relation. *)
Definition orderWorld : World :=
  {| pg_query_Parse := fun sql =>
       if String.eqb sql "alter-then-create"
       then Ok [enableRLS "" "users"; simpleCreate "users" 40]
       else if String.eqb sql "create-then-alter"
       then Ok [simpleCreate "users" 0;
                {| Stmt := Some (Node_Other "IndexStmt"); StmtLocation := 32 |};
                {| Stmt := None; StmtLocation := 60 |};
                enableRLS "public" "users"]
       else if String.eqb sql "no-relation"
       then Ok [simpleCreate "users" 0;
                {| Stmt := Some (Node_CreateStmt {| Relation := None; TableElts := [] |});
                   StmtLocation := 32 |}]
       else Err "syntax error";
     os_Stat := fun _ => None;
     os_ReadDir := fun _ => Err "no such file or directory";
     os_ReadFile := fun _ => Err "no such file or directory" |}.

(** A directory [solo/] with one schema file and one other file. *)
Definition soloWorld : World :=
  {| pg_query_Parse := fun sql =>
       if String.eqb sql "CREATE TABLE users (id BIGINT);"
       then Ok [simpleCreate "users" 0]
       else Err "syntax error";
     os_Stat := fun path =>
       if String.eqb path "solo" then Some true
       else if String.eqb path "solo/users.lp.sql" then Some false
       else None;
     os_ReadDir := fun dir =>
       if String.eqb dir "solo"
       then Ok [regularFile "notes.txt"; regularFile "users.lp.sql"]
       else Err "not a directory";
     os_ReadFile := fun path =>
       if String.eqb path "solo/users.lp.sql"
       then Ok "CREATE TABLE users (id BIGINT);"
       else Err "no such file or directory" |}.

(** [strings.TrimSpace] on ASCII text. *)
Definition isSpace (c : ascii) : bool :=
  let n := nat_of_ascii c in
  ((n =? 32)%nat || ((9 <=? n)%nat && (n <=? 13)%nat))%bool.

Fixpoint trimLeft (s : string) : string :=
  match s with
  | String c s' => if isSpace c then trimLeft s' else s
  | EmptyString => EmptyString
  end.

Definition asciiTrimSpace (s : string) : string :=
  String.rev (trimLeft (String.rev (trimLeft s))).

Definition trimLib : GoLib :=
  {| strconv_Quote := fun s => dquote +:+ s +:+ dquote;
     filepath_Join := fun dir name => dir +:+ "/" +:+ name;
     strings_TrimSpace := asciiTrimSpace;
     unicode_To_LowerCase := latinLowerCase |}.

(** A schema printer that only gives the number of tables, and an empty
    log header. *)
Definition countCli : Cli :=
  {| json_MarshalIndent_schema := fun schema =>
       Ok (GoStrings.FormatInt (Z.of_nat (length (Tables schema))));
     log_header := "" |}.

(** * Properties *)

(** ** Position resolver ([byteOffsetToLineColumn]) *)

(** The loop started at [(line, column)] adds the newlines of the scanned
    bytes to [line]; [column] restarts at 1 after the last of them. *)
Lemma scanLines_spec s : forall n line column,
  (n <= String.length s)%nat ->
  scanLines s n line column =
    let before := String.substring 0 n s in
    (line + Z.of_nat (Spec.countNewlines before),
     if Spec.hasNewline before
     then 1 + Z.of_nat (String.length (Spec.lastLine before))
     else column + Z.of_nat (String.length before)).
Proof.
  induction s as [|c s IH]; intros n line column Hn.
  - destruct n; simpl; f_equal; lia.
  - destruct n as [|n].
    + simpl. f_equal; lia.
    + simpl in Hn. cbn [scanLines String.substring].
      cbn [Spec.countNewlines Spec.hasNewline Spec.lastLine String.length].
      destruct (Ascii.eqb c newline) eqn:Hc; cbn [orb]; rewrite IH by lia;
        destruct (Spec.hasNewline (String.substring 0 n s)) eqn:Hnl; cbn zeta;
        cbn [String.length]; rewrite ?Hnl; f_equal; lia.
Qed.

Lemma lastLine_no_newline s : Spec.hasNewline s = false -> Spec.lastLine s = s.
Proof.
  induction s as [|c s IH]; [reflexivity|]. cbn.
  intros [Hc Hs]%orb_false_iff. rewrite Hs, Hc. reflexivity.
Qed.

(** C9. The position resolver is total. For an offset within the text
    (0 up to and including its length) it returns the 1-based line and
    column found by counting the newlines before the offset: line is one
    more than their number, column one more than the number of bytes
    after the last of them. For a negative offset or one beyond the text
    it returns (1, 1). Both results are at least 1 in every case. *)
Theorem byteOffsetToLineColumn_total (sql : string) (offset : Z) :
  (0 <= offset <= Z.of_nat (String.length sql) ->
     byteOffsetToLineColumn sql offset = Spec.position sql (Z.to_nat offset)) /\
  (offset < 0 \/ Z.of_nat (String.length sql) < offset ->
     byteOffsetToLineColumn sql offset = (1, 1)) /\
  1 <= fst (byteOffsetToLineColumn sql offset) /\
  1 <= snd (byteOffsetToLineColumn sql offset).
Proof.
  assert (Hin : 0 <= offset <= Z.of_nat (String.length sql) ->
     byteOffsetToLineColumn sql offset = Spec.position sql (Z.to_nat offset)).
  { intros H. unfold byteOffsetToLineColumn, Spec.position.
    replace (offset <? 0) with false by lia.
    replace (Z.of_nat (String.length sql) <? offset) with false by lia.
    cbn [orb]. rewrite scanLines_spec by lia. cbn zeta.
    destruct (Spec.hasNewline _) eqn:Hnl; [reflexivity|].
    rewrite (lastLine_no_newline _ Hnl). reflexivity. }
  assert (Hout : offset < 0 \/ Z.of_nat (String.length sql) < offset ->
     byteOffsetToLineColumn sql offset = (1, 1)).
  { intros H. unfold byteOffsetToLineColumn.
    destruct H; [replace (offset <? 0) with true by lia; reflexivity|].
    replace (Z.of_nat (String.length sql) <? offset) with true by lia.
    rewrite orb_true_r. reflexivity. }
  split; [exact Hin|]. split; [exact Hout|].
  destruct (Z_lt_dec offset 0) as [?|?]; [rewrite Hout by lia; simpl; lia|].
  destruct (Z_lt_dec (Z.of_nat (String.length sql)) offset);
    [rewrite Hout by lia; simpl; lia|].
  rewrite Hin by lia. unfold Spec.position. simpl. lia.
Qed.

(** The third byte of the second line, and two offsets outside the text. *)
Lemma byteOffsetToLineColumn_total_witness :
  byteOffsetToLineColumn twoLines 5 = (2, 3) /\
  byteOffsetToLineColumn twoLines 6 = (1, 1) /\
  byteOffsetToLineColumn twoLines (-1) = (1, 1).
Proof.
  split; [|split].
  - rewrite (proj1 (byteOffsetToLineColumn_total twoLines 5)).
    + reflexivity.
    + simpl. lia.
  - apply (proj1 (proj2 (byteOffsetToLineColumn_total twoLines 6))).
    right. simpl. lia.
  - apply (proj1 (proj2 (byteOffsetToLineColumn_total twoLines (-1)))).
    left. lia.
Defined.

(** ** Expression formatter ([formatExpr]) *)

(** C7. The expression formatter is a total function of the node. Every
    node whose kind it has no case for, the empty node included, is
    rendered as the literal UNDEFINED_EXPRESSION; so is a node of a known
    kind with nothing to render (a constant without value, a call without
    a name, a cast without argument, an operation code outside 1..15). A
    type cast with an argument renders as that argument, whatever the
    target type. The value functions with a precision (codes 3, 5, 7, 9)
    render as the ones without (codes 2, 4, 6, 8). *)
Theorem formatExpr_placeholder_cast_precision :
  (forall n, Spec.recognizedKind n = false ->
     formatExpr (Some n) = "UNDEFINED_EXPRESSION") /\
  (formatExpr (Some (Node_AConst {| Val := Val_unset; Isnull := false |}))
     = "UNDEFINED_EXPRESSION" /\
   (forall args, formatExpr (Some (Node_FuncCall {| Funcname := []; Args := args |}))
     = "UNDEFINED_EXPRESSION") /\
   (forall ty, formatExpr (Some (Node_TypeCast {| Arg := None; TypeCast_TypeName := ty |}))
     = "UNDEFINED_EXPRESSION") /\
   (forall op, (op < 1 \/ 15 < op) ->
     formatExpr (Some (Node_SqlvalueFunction op)) = "UNDEFINED_EXPRESSION")) /\
  (forall arg ty,
     formatExpr (Some (Node_TypeCast {| Arg := Some arg; TypeCast_TypeName := ty |}))
       = formatExpr (Some arg)) /\
  (formatExpr (Some (Node_SqlvalueFunction 3)) = formatExpr (Some (Node_SqlvalueFunction 2)) /\
   formatExpr (Some (Node_SqlvalueFunction 5)) = formatExpr (Some (Node_SqlvalueFunction 4)) /\
   formatExpr (Some (Node_SqlvalueFunction 7)) = formatExpr (Some (Node_SqlvalueFunction 6)) /\
   formatExpr (Some (Node_SqlvalueFunction 9)) = formatExpr (Some (Node_SqlvalueFunction 8))).
Proof.
  split; [|split; [|split]].
  - intros n Hn. destruct n; try discriminate Hn; reflexivity.
  - repeat split; try reflexivity.
    intros op Hop. cbn. unfold formatSqlvalueFunction.
    destruct op as [|p|p]; try reflexivity.
    do 4 (destruct p as [p|p|]; try reflexivity; try lia).
  - reflexivity.
  - repeat split.
Qed.

Lemma formatExpr_placeholder_cast_precision_witness :
  formatExpr (Some (Node_Other "SelectStmt")) = "UNDEFINED_EXPRESSION" /\
  formatExpr (Some Node_unset) = "UNDEFINED_EXPRESSION" /\
  formatExpr (Some (Node_SqlvalueFunction 16)) = "UNDEFINED_EXPRESSION".
Proof.
  split; [|split].
  - apply (proj1 formatExpr_placeholder_cast_precision). reflexivity.
  - apply (proj1 formatExpr_placeholder_cast_precision). reflexivity.
  - apply (proj1 (proj2 formatExpr_placeholder_cast_precision)). right. lia.
Defined.

(** A call renders as its first name segment and its formatted
    arguments. *)
Lemma formatExpr_call name rest args :
  formatExpr (Some (Node_FuncCall {| Funcname := Node_String_ name :: rest;
                                     Args := args |})) =
  match args with
  | [] => name +:+ "()"
  | _ :: _ =>
      name +:+ "(" +:+ GoStrings.Join (map (fun a => formatExpr (Some a)) args) ", "
        +:+ ")"
  end.
Proof. destruct args; reflexivity. Qed.

(** ** Type rendering ([formatTypeName], [normalizePostgreSQLType]) *)

Lemma fold_left_append_omap {A B} (f : A -> option B) (g : list B -> A -> list B) :
  (forall acc x, g acc x = match f x with Some y => acc ++ [y] | None => acc end) ->
  forall l acc, fold_left g l acc = acc ++ omap f l.
Proof.
  intros Hg. induction l as [|x l IH]; intros acc; cbn.
  - by rewrite app_nil_r.
  - rewrite IH, Hg. destruct (f x); cbn; [|done]. by rewrite <- app_assoc.
Qed.

Lemma formatTypeName_parts (typeName : TypeName_t) :
  fold_left (fun parts name =>
               match name with
               | Node_String_ sval => parts ++ [sval]
               | _ => parts
               end) (Names typeName) [] = Spec.nameParts typeName.
Proof.
  unfold Spec.nameParts.
  rewrite (fold_left_append_omap
             (fun n => match n with Node_String_ s => Some s | _ => None end));
    [done|].
  intros acc x. by destruct x.
Qed.

Lemma formatTypeName_mods (typeName : TypeName_t) :
  fold_left (fun mods mod_ =>
               match mod_ with
               | Node_AConst {| Val := A_Const_Ival ival |} =>
                   mods ++ [GoStrings.FormatInt ival]
               | _ => mods
               end) (Typmods typeName) []
  = map GoStrings.FormatInt (Spec.integerModifiers typeName).
Proof.
  unfold Spec.integerModifiers.
  rewrite (fold_left_append_omap
             (fun n => match n with
                       | Node_AConst {| Val := A_Const_Ival i |} =>
                           Some (GoStrings.FormatInt i)
                       | _ => None
                       end)).
  - cbn. induction (Typmods typeName) as [|x l IH]; [done|].
    cbn. destruct x as [| |[[] ?]| | | | | | | | |]; cbn; by rewrite ?IH.
  - intros acc x. by destruct x as [| |[[] ?]| | | | | | | | |].
Qed.

Lemma append_cons c (s t : string) : String c s +:+ t = String c (s +:+ t).
Proof. reflexivity. Qed.

Lemma append_empty_r (s : string) : s +:+ "" = s.
Proof. induction s as [|c s IH]; [done|]. by rewrite append_cons, IH. Qed.

Lemma append_assoc (a b c : string) : (a +:+ b) +:+ c = a +:+ (b +:+ c).
Proof. induction a as [|x a IH]; [done|]. by rewrite !append_cons, IH. Qed.

Lemma ToLower_dottedINT8 {lib : GoLib} :
  unicode_To_LowerCase 304 = 105 -> GoStrings.ToLower dottedINT8 = "int8".
Proof.
  intros Hdot. cbv -[unicode_To_LowerCase]. rewrite Hdot. reflexivity.
Qed.

(** C5. Type rendering. For a type with at least one name node the
    rendered text is: the name parts joined with ".", or only the last
    part when the first is the catalog qualifier pg_catalog and another
    part follows; passed through the normalizer; followed by the integer
    modifiers, comma-joined in parentheses, when there are any; followed
    by "[]" when array bounds are present. The normalizer looks the
    lower-cased name up in the table: int8 gives bigint and timestamptz
    gives timestamp with time zone, in any letter case; two names that
    agree up to letter case and are in the table get the same result; a
    name that is not in the table is returned unchanged. Lower-casing
    is that of strings.ToLower, on runes and not only on the bytes A to
    Z: with Unicode's mapping of the capital I with dot above to i, the
    name INT8 written with that letter is in the table too and gives
    bigint. *)
Theorem formatTypeName_renders {lib : GoLib} (typeName : TypeName_t) :
  (Names typeName <> [] -> formatTypeName typeName = Spec.renderType typeName) /\
  (forall trailing rest,
     Spec.baseName ("pg_catalog" :: rest ++ [trailing]) = trailing) /\
  normalizePostgreSQLType "int8" = "bigint" /\
  normalizePostgreSQLType "timestamptz" = "timestamp with time zone" /\
  normalizePostgreSQLType "INT8" = "bigint" /\
  normalizePostgreSQLType "TimestampTZ" = "timestamp with time zone" /\
  (forall a b canonical,
     GoStrings.ToLower a = GoStrings.ToLower b ->
     typeMap !! GoStrings.ToLower a = Some canonical ->
     normalizePostgreSQLType a = canonical /\ normalizePostgreSQLType b = canonical) /\
  (forall name, typeMap !! GoStrings.ToLower name = None ->
     normalizePostgreSQLType name = name) /\
  (unicode_To_LowerCase 304 = 105 ->
   GoStrings.ToLower dottedINT8 = "int8" /\
   normalizePostgreSQLType dottedINT8 = "bigint").
Proof.
  split; [|split; [|repeat apply conj; try reflexivity]].
  - intros Hnames. unfold formatTypeName, Spec.renderType.
    destruct (Names typeName) as [|n0 names] eqn:HN; [done|].
    rewrite <- HN. rewrite formatTypeName_parts, formatTypeName_mods.
    assert (Hbase :
      match Spec.nameParts typeName with
      | p0 :: _ :: _ =>
          if String.eqb p0 "pg_catalog"
          then List.last (Spec.nameParts typeName) ""
          else GoStrings.Join (Spec.nameParts typeName) "."
      | _ => GoStrings.Join (Spec.nameParts typeName) "."
      end = Spec.baseName (Spec.nameParts typeName)).
    { unfold Spec.baseName.
      destruct (Spec.nameParts typeName) as [|p0 [|p1 ps]]; [done|..].
      - destruct (String.eqb_spec p0 "pg_catalog") as [->|Hne]; [done|].
        destruct p0 as [|c0 p0]; [done|]. repeat (destruct c0 as [[] [] [] [] [] [] [] []], p0 as [|c0 p0]; try done).
      - destruct (String.eqb_spec p0 "pg_catalog") as [->|Hne]; [done|].
        destruct p0 as [|c0 p0]; [done|]. repeat (destruct c0 as [[] [] [] [] [] [] [] []], p0 as [|c0 p0]; try done). }
    rewrite Hbase. unfold Spec.modifierSuffix, Spec.arraySuffix.
    assert (Hmods : forall base : string,
      match Typmods typeName with
      | [] => base
      | _ :: _ =>
          match map GoStrings.FormatInt (Spec.integerModifiers typeName) with
          | [] => base
          | _ :: _ =>
              base +:+ "(" +:+
                GoStrings.Join (map GoStrings.FormatInt (Spec.integerModifiers typeName)) ","
                +:+ ")"
          end
      end =
      base +:+ match Spec.integerModifiers typeName with
               | [] => ""
               | _ :: _ =>
                   "(" +:+ GoStrings.Join
                     (map GoStrings.FormatInt (Spec.integerModifiers typeName)) ","
                     +:+ ")"
               end).
    { intros base. unfold Spec.integerModifiers.
      destruct (Typmods typeName) as [|m ms]; [by rewrite append_empty_r|].
      destruct (omap _ (m :: ms)); cbn [map]; [by rewrite append_empty_r|done]. }
    rewrite Hmods.
    destruct (ArrayBounds typeName); [by rewrite append_empty_r|].
    by rewrite append_assoc.
  - intros trailing rest. unfold Spec.baseName.
    destruct rest as [|r rest]; [done|].
    cbn [app]. change ("pg_catalog" :: r :: rest ++ [trailing])
      with (["pg_catalog"; r] ++ (rest ++ [trailing])).
    rewrite app_assoc. apply last_last.
  - intros a b canonical Hab Ha. unfold normalizePostgreSQLType.
    by rewrite <- Hab, Ha.
  - intros name Hname. unfold normalizePostgreSQLType. by rewrite Hname.
  - intros Hdot. apply ToLower_dottedINT8 in Hdot.
    split; [done|]. unfold normalizePostgreSQLType. by rewrite Hdot.
Qed.

Lemma formatTypeName_renders_witness :
  @formatTypeName plainLib numericArrayType = "numeric(10,2)[]" /\
  @normalizePostgreSQLType plainLib "BpChar" = "char" /\
  @normalizePostgreSQLType plainLib "uuid" = "uuid" /\
  @normalizePostgreSQLType plainLib dottedINT8 = "bigint".
Proof.
  pose proof (@formatTypeName_renders plainLib numericArrayType)
    as (Hrender & _ & _ & _ & _ & _ & Hfold & Hunknown & Hdot).
  split_and!.
  - rewrite Hrender; [reflexivity | discriminate].
  - apply (Hfold "BpChar" "bpchar" "char"); reflexivity.
  - apply Hunknown. reflexivity.
  - apply Hdot. reflexivity.
Defined.

(** ** Statement lowering: [ALTER TABLE] *)

Lemma findTable_Some tables : forall i name sch k,
  findTable tables i name sch = Some k ->
  exists j t, k = (i + j)%nat /\ tables !! j = Some t /\
    Table_Name t = name /\ effectiveSchema (Table_Schema t) = sch /\
    forall j' t', (j' < j)%nat -> tables !! j' = Some t' ->
      ~ (Table_Name t' = name /\ effectiveSchema (Table_Schema t') = sch).
Proof.
  induction tables as [|t tables IH]; intros i name sch k Hk; [done|].
  cbn in Hk.
  destruct (String.eqb_spec (Table_Name t) name) as [Hn|Hn];
    [destruct (String.eqb_spec (effectiveSchema (Table_Schema t)) sch) as [Hs|Hs]|];
    cbn in Hk.
  - injection Hk as <-. exists 0%nat, t. repeat split; auto with lia.
  - apply IH in Hk as (j & t0 & -> & Hj & Hn0 & Hs0 & Hmin).
    exists (S j), t0. repeat split; auto with lia.
    intros [|j'] t' Hlt Ht'; cbn in Ht'.
    + injection Ht' as <-. tauto.
    + apply (Hmin j' t'); [lia|done].
  - apply IH in Hk as (j & t0 & -> & Hj & Hn0 & Hs0 & Hmin).
    exists (S j), t0. repeat split; auto with lia.
    intros [|j'] t' Hlt Ht'; cbn in Ht'.
    + injection Ht' as <-. tauto.
    + apply (Hmin j' t'); [lia|done].
Qed.

Lemma Table_setRLSEnabled_same t : Table_setRLSEnabled (Table_RLSEnabled t) t = t.
Proof. by destruct t. Qed.

(** The loop over the commands only rewrites the flag of the table at
    [tableIndex], to the value the last ENABLE or DISABLE gives. *)
Lemma applyAlterCmds idx cmds : forall tables,
  fold_left (applyAlterCmd idx) cmds tables =
  alter (fun t => Table_setRLSEnabled (Spec.finalFlag cmds (Table_RLSEnabled t)) t)
        idx tables.
Proof.
  unfold Spec.finalFlag.
  induction cmds as [|cmd cmds IH]; intros tables; cbn [fold_left].
  - symmetry. apply list_alter_id. intros t. apply Table_setRLSEnabled_same.
  - rewrite IH.
    assert (Hstep : exists f,
      applyAlterCmd idx tables cmd = alter f idx tables /\
      forall t, Table_Name (f t) = Table_Name t /\ f t =
        Table_setRLSEnabled
          (match cmd with
           | Node_AlterTableCmd {| Subtype := AT_EnableRowSecurity |} => true
           | Node_AlterTableCmd {| Subtype := AT_DisableRowSecurity |} => false
           | _ => Table_RLSEnabled t
           end) t).
    { unfold applyAlterCmd.
      destruct cmd as [| | | | | | | | | |[[]]|];
        first [ exists (Table_setRLSEnabled true); split; [reflexivity|];
                intros ?; split; reflexivity
              | exists (Table_setRLSEnabled false); split; [reflexivity|];
                intros ?; split; reflexivity
              | exists id; split;
                  [ by rewrite (list_alter_id id)
                  | intros ?; split; [done|]; symmetry;
                    apply Table_setRLSEnabled_same ] ]. }
    destruct Hstep as (f & -> & Hf).
    rewrite list_alter_alter_eq. apply list_alter_ext; [|done].
    intros t _. cbn. destruct (Hf t) as [_ ->]. by destruct t.
Qed.

(** C10. Frame of ALTER TABLE. A statement without target relation is
    rejected. Otherwise the statement is accepted, the dialect and the
    number of tables are kept, and every table keeps its name, schema,
    columns and source location. A table is either unchanged or it is
    the first table (lowest index) whose name and effective schema
    (empty read as public) are the target's, and then only its
    row-level-security flag differs: it is the value set by the last
    ENABLE or DISABLE ROW SECURITY command. So at most one table changes,
    also when several tables carry the target name. *)
Theorem parseAlterTable_frame (schema : Schema) (stmt : AlterTableStmt) :
  match AlterTable_Relation stmt with
  | None => parseAlterTable schema stmt = Err "ALTER TABLE missing relation"
  | Some relation =>
      exists schema',
        parseAlterTable schema stmt = Ok schema' /\
        Schema_Dialect schema' = Schema_Dialect schema /\
        length (Tables schema') = length (Tables schema) /\
        forall j t, Tables schema !! j = Some t ->
          exists t',
            Tables schema' !! j = Some t' /\
            Table_Name t' = Table_Name t /\
            Table_Schema t' = Table_Schema t /\
            Table_Columns t' = Table_Columns t /\
            Table_SourceLocation t' = Table_SourceLocation t /\
            (t' = t \/
             (Spec.isTarget relation t /\
              (forall i ti, (i < j)%nat -> Tables schema !! i = Some ti ->
                 ~ Spec.isTarget relation ti) /\
              Table_RLSEnabled t' =
                Spec.finalFlag (Cmds stmt) (Table_RLSEnabled t)))
  end.
Proof.
  unfold parseAlterTable.
  destruct (AlterTable_Relation stmt) as [relation|]; [|done].
  destruct (findTable _ _ _ _) as [idx|] eqn:Hfind.
  - eexists. split; [done|]. cbn [Tables Schema_Dialect].
    rewrite applyAlterCmds. split; [done|]. split; [by rewrite length_alter|].
    intros j t Hj.
    apply findTable_Some in Hfind as (j0 & t0 & -> & Hj0 & Hn0 & Hs0 & Hmin).
    cbn [Nat.add].
    destruct (decide (j0 = j)) as [->|Hne].
    + rewrite list_lookup_alter_eq, Hj. cbn. eexists. split; [done|].
      repeat split; try done. right. assert (t0 = t) as -> by congruence.
      split; [done|]. split; [|done].
      intros i ti Hi Hti. by apply (Hmin i ti).
    + rewrite list_lookup_alter_ne by done. exists t. repeat split; auto.
  - exists schema. repeat split; try done.
    intros j t Hj. exists t. repeat split; auto.
Qed.

(** The [ALTER TABLE] of [sampleAlter] reaches the implicit
    [public.users] at index 0 and leaves the explicit one at index 2
    alone. *)
Lemma parseAlterTable_frame_witness :
  exists schema',
    parseAlterTable sampleSchema sampleAlter = Ok schema' /\
    map Table_RLSEnabled (Tables schema') = [true; false; false].
Proof.
  pose proof (parseAlterTable_frame sampleSchema sampleAlter) as H.
  cbn [sampleAlter AlterTable_Relation] in H.
  destruct H as (schema' & Hrun & _).
  exists schema'. split; [exact Hrun|].
  vm_compute in Hrun. injection Hrun as <-. reflexivity.
Defined.

(** ** Statement lowering: the example of the specification *)

Lemma lowerStmts_users {lib : GoLib} (filename : string) (fn : string) :
  lowerStmts
    [ {| Stmt := Some (Node_CreateStmt
                         {| Relation := Some {| Schemaname := ""; Relname := "users" |};
                            TableElts := users_columns fn |});
         StmtLocation := 0 |} ]
    {| ctx_sql := users_sql; ctx_filename := filename |}
    {| Tables := []; Schema_Dialect := DialectPostgres |}
  = Ok {| Tables :=
            [ {| Table_Name := "users"; Table_Schema := "";
                 Table_Columns :=
                   [ {| Column_Name := "id"; Column_Type := "bigint";
                        Column_Nullable := false; Column_IsPrimaryKey := true;
                        Column_Default := None |};
                     {| Column_Name := "email"; Column_Type := "text";
                        Column_Nullable := false; Column_IsPrimaryKey := false;
                        Column_Default := None |};
                     {| Column_Name := "created_at";
                        Column_Type := "timestamp with time zone";
                        Column_Nullable := true; Column_IsPrimaryKey := false;
                        Column_Default := Some (fn +:+ "()") |} ];
                 Table_RLSEnabled := false;
                 Table_SourceLocation :=
                   Some {| Loc_File := filename; Loc_Line := 1; Loc_Column := 1 |} |} ];
          Schema_Dialect := DialectPostgres |}.
Proof. reflexivity. Qed.

(** C2 as the code has it. When the parser delivers the tree of the
    statement (with the unquoted function name folded to lower case, as
    it does for every unquoted identifier), lowering gives exactly one
    table users with empty stored schema and the three columns in source
    order: id primary key and not nullable, email not nullable without
    default, created_at nullable with default text now() -- the name in
    the parser's spelling followed by the parentheses. *)
Theorem users_statement_lowered {lib : GoLib} `{World} (filename : string) :
  pg_query_Parse users_sql = Ok users_tree ->
  Spec.usersLowered (parsePostgresSQLSchemaWithFilename users_sql filename) "now()".
Proof.
  intros Hparse. unfold parsePostgresSQLSchemaWithFilename. rewrite Hparse.
  unfold users_tree. rewrite lowerStmts_users.
  unfold Spec.usersLowered. do 4 eexists. repeat split.
Qed.

Lemma users_statement_lowered_witness :
  Spec.usersLowered
    (@parsePostgresSQLSchemaWithFilename plainLib usersWorld users_sql "users.lp.sql")
    "now()".
Proof. apply (@users_statement_lowered plainLib usersWorld). reflexivity. Defined.

(** C2 as stated fails: for the tree of the statement the default text
    of created_at is not the upper-case NOW(). *)
Lemma users_statement_default_not_upper :
  ~ Spec.usersLowered
      (@parsePostgresSQLSchemaWithFilename plainLib usersWorld users_sql "") "NOW()".
Proof.
  intros (t & c1 & c2 & c3 & Hrun & _ & _ & Hcols & Hrest).
  vm_compute in Hrun. injection Hrun as <-.
  cbn in Hcols. injection Hcols as <- <- <-.
  destruct Hrest as (_ & _ & _ & _ & _ & _ & _ & _ & Hdef).
  discriminate Hdef.
Qed.

(** ** Duplicate validators *)

Section Duplicates.
Context {lib : GoLib}.

(** *** The [seen] map holds, for each key, all its occurrences *)

Lemma collectSeen_lookup tables : forall i seen k,
  collectSeen tables i seen !! k =
    match Spec.occurrences k tables i with
    | [] => seen !! k
    | j :: occ =>
        Some match seen !! k with
             | Some info => {| firstIndex := firstIndex info;
                               indices := indices info ++ j :: occ |}
             | None => {| firstIndex := j; indices := j :: occ |}
             end
    end.
Proof.
  induction tables as [|t tables IH]; intros i seen k; [done|].
  cbn [collectSeen Spec.occurrences].
  destruct (String.eqb_spec (tableKey t) k) as [->|Hne].
  - destruct (seen !! k) as [info|] eqn:Hseen; cbv beta iota zeta;
      rewrite IH, lookup_insert_eq;
      destruct (Spec.occurrences k tables (S i)); cbn; try done.
    by rewrite <- app_assoc.
  - destruct (seen !! tableKey t) as [info|] eqn:Hseen; cbv beta iota zeta;
      rewrite IH; by rewrite lookup_insert_ne.
Qed.

Lemma collectSeen_empty tables k :
  collectSeen tables 0 ∅ !! k =
    match Spec.occurrences k tables 0 with
    | [] => None
    | j :: occ => Some {| firstIndex := j; indices := j :: occ |}
    end.
Proof. rewrite collectSeen_lookup, lookup_empty. done. Qed.

Lemma occurrences_elem k tables : forall i j,
  j ∈ Spec.occurrences k tables i <->
  exists t, (i <= j)%nat /\ tables !! (j - i)%nat = Some t /\ tableKey t = k.
Proof.
  induction tables as [|t tables IH]; intros i j; cbn [Spec.occurrences].
  - split; [by intros ?%elem_of_nil|]. by intros (t & _ & ? & _).
  - assert (Hrest : j ∈ Spec.occurrences k tables (S i) <->
                    exists t', (S i <= j)%nat /\
                      (t :: tables) !! (j - i)%nat = Some t' /\ tableKey t' = k).
    { rewrite IH. split; intros (t' & Hle & Hl & Hk); exists t'; split_and!; auto.
      - replace (j - i)%nat with (S (j - S i)) by lia. done.
      - replace (j - i)%nat with (S (j - S i)) in Hl by lia. done. }
    destruct (String.eqb_spec (tableKey t) k) as [Hk|Hk].
    + rewrite elem_of_cons, Hrest. split.
      * intros [->|(t' & ? & ? & ?)].
        -- exists t. rewrite Nat.sub_diag. auto.
        -- exists t'. auto with lia.
      * intros (t' & Hle & Hl & Hk').
        destruct (decide (j = i)) as [->|]; [by left|right].
        exists t'. auto with lia.
    + rewrite Hrest. split.
      * intros (t' & ? & ? & ?). exists t'. auto with lia.
      * intros (t' & Hle & Hl & Hk').
        destruct (decide (j = i)) as [->|].
        -- rewrite Nat.sub_diag in Hl. cbn in Hl. congruence.
        -- exists t'. auto with lia.
Qed.

Lemma occurrences_in_range k tables j :
  j ∈ Spec.occurrences k tables 0 -> is_Some (tables !! j).
Proof.
  intros (t & _ & Ht & _)%occurrences_elem. rewrite Nat.sub_0_r in Ht. eauto.
Qed.


(** *** Both validators are renderings of [duplicateGroups] *)

Section Order.
Context {order : MapOrder tableInfo}.

Lemma duplicateGroups_elem schema k idxs :
  (k, idxs) ∈ duplicateGroups schema <->
  idxs = Spec.occurrences k (Tables schema) 0 /\ (1 < length idxs)%nat.
Proof.
  unfold duplicateGroups. rewrite list_elem_of_fmap. split.
  - intros ([k' info] & [= <- ->] & Hin).
    apply list_elem_of_filter in Hin as [Hlen Hin].
    rewrite rangeOrder_perm in Hin. apply elem_of_map_to_list in Hin.
    rewrite collectSeen_empty in Hin.
    destruct (Spec.occurrences k (Tables schema) 0); [done|].
    injection Hin as <-. done.
  - intros [-> Hlen].
    destruct (Spec.occurrences k (Tables schema) 0) as [|j occ] eqn:Hocc;
      [cbn in Hlen; lia|].
    exists (k, {| firstIndex := j; indices := j :: occ |}). split; [done|].
    apply list_elem_of_filter. split; [done|].
    rewrite rangeOrder_perm. apply elem_of_map_to_list.
    by rewrite collectSeen_empty, Hocc.
Qed.

Lemma fold_guarded {A B} (P : A -> Prop) `{!forall x, Decision (P x)}
    (c : A -> bool) (g : A -> list B) (step : list B -> A -> list B) :
  (forall x, c x = true <-> P x) ->
  (forall acc x, step acc x = if c x then acc ++ g x else acc) ->
  forall l acc, fold_left step l acc = acc ++ flat_map g (filter P l).
Proof.
  intros Hc Hstep. induction l as [|x l IH]; intros acc; cbn [fold_left].
  - by rewrite app_nil_r.
  - rewrite IH, Hstep. rewrite filter_cons.
    destruct (c x) eqn:Hcx.
    + rewrite decide_True by by apply Hc. cbn. by rewrite <- app_assoc.
    + rewrite decide_False; [done|]. rewrite <- Hc. congruence.
Qed.

Lemma flat_map_fmap {A B C} (f : A -> B) (g : B -> list C) l :
  flat_map g (f <$> l) = flat_map (fun x => g (f x)) l.
Proof. induction l as [|x l IH]; cbn; [done|]. by rewrite IH. Qed.

Lemma diagnostics_of_groups schema :
  ValidateDuplicateTablesAsDiagnostics schema =
  flat_map (fun '(key, idxs) => occurrenceDiagnostics (Tables schema) key 0 idxs)
           (duplicateGroups schema).
Proof.
  unfold ValidateDuplicateTablesAsDiagnostics, duplicateGroups.
  rewrite (fold_guarded
             (fun '(key, info) => (1 < length (indices info))%nat)
             (fun '(key, info) => (1 <? length (indices info))%nat)
             (fun '(key, info) =>
                occurrenceDiagnostics (Tables schema) key 0 (indices info))).
  - cbn [app]. rewrite flat_map_fmap. apply flat_map_ext. by intros [key info].
  - intros [key info]. apply Nat.ltb_lt.
  - intros acc [key info]. done.
Qed.

Lemma errorMessage_of_groups schema :
  validateNoDuplicateTables schema =
  match map (fun '(key, idxs) => duplicateErrorMessage (Tables schema) key idxs)
            (duplicateGroups schema) with
  | [] => None
  | m :: ms => Some (GoStrings.Join (m :: ms) "; ")
  end.
Proof.
  unfold validateNoDuplicateTables, duplicateGroups.
  rewrite (fold_guarded
             (fun '(key, info) => (1 < length (indices info))%nat)
             (fun '(key, info) => (1 <? length (indices info))%nat)
             (fun '(key, info) =>
                [duplicateErrorMessage (Tables schema) key (indices info)])).
  - cbn [app].
    assert (Hmap : forall l : list (string * tableInfo),
      flat_map (fun '(key, info) =>
                  [duplicateErrorMessage (Tables schema) key (indices info)]) l =
      map (fun '(key, idxs) => duplicateErrorMessage (Tables schema) key idxs)
          (map (fun '(key, info) => (key, indices info)) l)).
    { induction l as [|[key info] l IH]; [done|]. cbn. by rewrite IH. }
    rewrite Hmap. by destruct (map _ _).
  - intros [key info]. apply Nat.ltb_lt.
  - intros acc [key info]. done.
Qed.

Lemma occurrenceDiagnostics_length tables key idxs : forall i,
  Forall (fun j => is_Some (tables !! j)) idxs ->
  length (occurrenceDiagnostics tables key i idxs) = length idxs.
Proof.
  induction idxs as [|j idxs IH]; intros i Hall; [done|].
  apply Forall_cons in Hall as [[t Ht] Hall].
  cbn. rewrite Ht. cbn. by rewrite IH.
Qed.

Lemma group_diagnostics_length schema k idxs :
  (k, idxs) ∈ duplicateGroups schema ->
  length (occurrenceDiagnostics (Tables schema) k 0 idxs) = length idxs.
Proof.
  intros [-> _]%duplicateGroups_elem. apply occurrenceDiagnostics_length.
  apply Forall_forall. intros j Hj. by eapply occurrences_in_range.
Qed.

Lemma diagnostics_nil_iff schema :
  ValidateDuplicateTablesAsDiagnostics schema = [] <-> duplicateGroups schema = [].
Proof.
  rewrite diagnostics_of_groups. split; [|by intros ->].
  destruct (duplicateGroups schema) as [|[k idxs] groups] eqn:Hg; [done|].
  intros Hnil. cbn in Hnil. apply app_eq_nil in Hnil as [Hnil _].
  assert (Hin : (k, idxs) ∈ duplicateGroups schema) by (rewrite Hg; left).
  pose proof (group_diagnostics_length _ _ _ Hin) as Hlen.
  apply duplicateGroups_elem in Hin as [_ Hgt].
  rewrite Hnil in Hlen. cbn in Hlen. lia.
Qed.

Lemma errorMessage_None_iff schema :
  validateNoDuplicateTables schema = None <-> duplicateGroups schema = [].
Proof.
  rewrite errorMessage_of_groups.
  destruct (duplicateGroups schema) as [|[k idxs] groups]; cbn; split; done.
Qed.

End Order.



End Duplicates.


(** *** Pairs of tables *)

Lemma length_append (a b : string) :
  String.length (a +:+ b) = (String.length a + String.length b)%nat.
Proof. induction a as [|c a IH]; [done|]. rewrite append_cons. cbn. by rewrite IH. Qed.

Lemma append_inv_tail (a b x : string) : a +:+ x = b +:+ x -> a = b.
Proof.
  revert b. induction a as [|c a IH]; intros [|c' b] Heq; [done|..].
  - apply (f_equal String.length) in Heq.
    rewrite !length_append in Heq. cbn in Heq. lia.
  - apply (f_equal String.length) in Heq.
    rewrite !length_append in Heq. cbn in Heq. lia.
  - rewrite !append_cons in Heq. injection Heq as -> Heq. f_equal. by apply IH.
Qed.

(** With equal names, the keys are equal exactly when the effective
    schemas are. *)
Lemma tableKey_same_name t1 t2 :
  Table_Name t1 = Table_Name t2 ->
  (tableKey t1 = tableKey t2 <->
   effectiveSchema (Table_Schema t1) = effectiveSchema (Table_Schema t2)).
Proof.
  intros Hname. unfold tableKey. rewrite Hname. split; [|by intros ->].
  apply append_inv_tail.
Qed.

(** The key is the dotted text, not the pair: a dot inside a quoted
    identifier can make two different pairs share a key. *)
Lemma tableKey_dotted_names :
  tableKey (sampleTable "a.b" "c" "" 1) = tableKey (sampleTable "a" "b.c" "" 1).
Proof. reflexivity. Qed.

Section Pair.
Context {lib : GoLib} {order : MapOrder tableInfo}.

Lemma pair_distinct_keys t1 t2 d :
  tableKey t1 <> tableKey t2 ->
  ValidateDuplicateTablesAsDiagnostics
    {| Tables := [t1; t2]; Schema_Dialect := d |} = [].
Proof.
  intros Hne. apply diagnostics_nil_iff.
  destruct (duplicateGroups _) as [|[k idxs] groups] eqn:Hg; [done|].
  assert (Hin : (k, idxs) ∈ duplicateGroups
                  {| Tables := [t1; t2]; Schema_Dialect := d |})
    by (rewrite Hg; left).
  apply duplicateGroups_elem in Hin as [-> Hlen]. exfalso.
  cbn in Hlen.
  destruct (String.eqb_spec (tableKey t1) k), (String.eqb_spec (tableKey t2) k);
    cbn in Hlen; try lia. congruence.
Qed.

Lemma pair_same_key t1 t2 d :
  tableKey t1 = tableKey t2 ->
  ValidateDuplicateTablesAsDiagnostics
    {| Tables := [t1; t2]; Schema_Dialect := d |} =
  [occurrenceDiagnostic (tableKey t1) 0 t1; occurrenceDiagnostic (tableKey t1) 1 t2].
Proof.
  intros Hkey. unfold ValidateDuplicateTablesAsDiagnostics.
  cbn [Tables collectSeen]. rewrite lookup_empty. rewrite <- Hkey.
  rewrite lookup_insert_eq. cbn [firstIndex indices app].
  rewrite insert_insert_eq, insert_empty.
  pose proof (rangeOrder_perm
    ({[tableKey t1 := {| firstIndex := 0; indices := [0; 1]%nat |}]}
       : gmap string tableInfo)) as Hperm.
  rewrite map_to_list_singleton in Hperm.
  apply Permutation_singleton_r in Hperm. rewrite Hperm. reflexivity.
Qed.

Lemma occurrenceDiagnostic_fields key i t :
  Diag_Message (occurrenceDiagnostic key i t) =
    (if Nat.eqb i 0 then firstOccurrenceMessage key else duplicateMessage key) /\
  Diag_Severity (occurrenceDiagnostic key i t) = "error" /\
  (forall loc, Table_SourceLocation t = Some loc ->
     Diag_File (occurrenceDiagnostic key i t) = Loc_File loc /\
     Diag_Line (occurrenceDiagnostic key i t) = Loc_Line loc /\
     Diag_Column (occurrenceDiagnostic key i t) = Loc_Column loc) /\
  (Table_SourceLocation t = None ->
     Diag_File (occurrenceDiagnostic key i t) = "" /\
     Diag_Line (occurrenceDiagnostic key i t) = 1 /\
     Diag_Column (occurrenceDiagnostic key i t) = 1).
Proof.
  unfold occurrenceDiagnostic.
  destruct (Table_SourceLocation t) as [l|]; cbn; split_and!; try done.
  intros ? [= <-]. split_and!; try done.
  by destruct (String.eqb_spec (Loc_File l) "").
Qed.

(** C1. Duplicate detection on a pair of tables. A schema of two tables
    with the same name gives no diagnostic when their effective schemas
    (empty read as public) differ. When the effective schemas are equal
    -- in particular for one table stored with empty schema and one with
    the explicit schema public -- it gives exactly two diagnostics, in
    this order: the message of the first is the text Table, the quoted
    key schema.name and "is defined multiple times (first occurrence)",
    that of the second the text Table, the quoted key and "is already
    defined (duplicate definition)"; both have severity error, and each
    has the file, line and column of the source location of its own
    table. *)
Theorem duplicate_pair (t1 t2 : Table) (d : Dialect) :
  Table_Name t1 = Table_Name t2 ->
  let schema := {| Tables := [t1; t2]; Schema_Dialect := d |} in
  (effectiveSchema (Table_Schema t1) <> effectiveSchema (Table_Schema t2) ->
   ValidateDuplicateTablesAsDiagnostics schema = []) /\
  (effectiveSchema (Table_Schema t1) = effectiveSchema (Table_Schema t2) ->
   exists d1 d2,
     ValidateDuplicateTablesAsDiagnostics schema = [d1; d2] /\
     Diag_Message d1 =
       "Table "
       +:+ strconv_Quote (effectiveSchema (Table_Schema t1) +:+ "." +:+ Table_Name t1)
       +:+ " is defined multiple times (first occurrence)" /\
     Diag_Message d2 =
       "Table "
       +:+ strconv_Quote (effectiveSchema (Table_Schema t1) +:+ "." +:+ Table_Name t1)
       +:+ " is already defined (duplicate definition)" /\
     Diag_Severity d1 = "error" /\ Diag_Severity d2 = "error" /\
     (forall loc, Table_SourceLocation t1 = Some loc ->
        Diag_File d1 = Loc_File loc /\ Diag_Line d1 = Loc_Line loc /\
        Diag_Column d1 = Loc_Column loc) /\
     (forall loc, Table_SourceLocation t2 = Some loc ->
        Diag_File d2 = Loc_File loc /\ Diag_Line d2 = Loc_Line loc /\
        Diag_Column d2 = Loc_Column loc)) /\
  (Table_Schema t1 = "" -> Table_Schema t2 = "public" ->
   effectiveSchema (Table_Schema t1) = effectiveSchema (Table_Schema t2)).
Proof.
  intros Hname schema. split; [|split].
  - intros Hne. apply pair_distinct_keys. by rewrite tableKey_same_name.
  - intros Heq. subst schema. rewrite pair_same_key by by rewrite tableKey_same_name.
    do 2 eexists. split; [reflexivity|].
    destruct (occurrenceDiagnostic_fields (tableKey t1) 0 t1) as (? & ? & ? & _).
    destruct (occurrenceDiagnostic_fields (tableKey t1) 1 t2) as (? & ? & ? & _).
    split_and!; done.
  - by intros -> ->.
Qed.

End Pair.

(** The implicit and the explicit [public.users], and [public.users]
    next to [auth.users]. *)
Lemma duplicate_pair_witness :
  @ValidateDuplicateTablesAsDiagnostics plainLib listOrder
     {| Tables := [sampleTable "" "users" "a.lp.sql" 1;
                   sampleTable "public" "users" "b.lp.sql" 4];
        Schema_Dialect := DialectPostgres |}
  = [ errorDiagnostic
        ("Table " +:+ dquote +:+ "public.users" +:+ dquote
         +:+ " is defined multiple times (first occurrence)") "a.lp.sql" 1 1;
      errorDiagnostic
        ("Table " +:+ dquote +:+ "public.users" +:+ dquote
         +:+ " is already defined (duplicate definition)") "b.lp.sql" 4 1 ] /\
  @ValidateDuplicateTablesAsDiagnostics plainLib listOrder
     {| Tables := [sampleTable "public" "users" "a.lp.sql" 1;
                   sampleTable "auth" "users" "b.lp.sql" 4];
        Schema_Dialect := DialectPostgres |} = [].
Proof.
  split.
  - destruct (proj1 (proj2 (@duplicate_pair plainLib listOrder
                (sampleTable "" "users" "a.lp.sql" 1)
                (sampleTable "public" "users" "b.lp.sql" 4)
                DialectPostgres eq_refl)) eq_refl)
      as (d1 & d2 & Hrun & _).
    rewrite Hrun. vm_compute in Hrun. injection Hrun as <- <-. reflexivity.
  - apply (proj1 (@duplicate_pair plainLib listOrder
                (sampleTable "public" "users" "a.lp.sql" 1)
                (sampleTable "auth" "users" "b.lp.sql" 4)
                DialectPostgres eq_refl)).
    discriminate.
Defined.

(** ** Loader *)

(** *** [strings.HasSuffix] *)

Lemma substring_all (s : string) : String.substring 0 (String.length s) s = s.
Proof. induction s as [|c s IH]; [done|]. cbn. by rewrite IH. Qed.

Lemma substring_skip (a b : string) n :
  String.substring (String.length a) n (a +:+ b) = String.substring 0 n b.
Proof. induction a as [|c a IH]; [done|]. rewrite append_cons. cbn. apply IH. Qed.

Lemma substring_split (s : string) : forall n, (n <= String.length s)%nat ->
  s = String.substring 0 n s +:+ String.substring n (String.length s - n) s.
Proof.
  induction s as [|c s IH]; intros [|n] Hn; cbn in *; try done; try lia.
  - by rewrite substring_all.
  - rewrite append_cons. f_equal. apply IH. lia.
Qed.

(** [HasSuffix s suffix] holds exactly when [s] ends in [suffix]. *)
Lemma HasSuffix_spec (s suffix : string) :
  GoStrings.HasSuffix s suffix = true <-> exists before, s = before +:+ suffix.
Proof.
  unfold GoStrings.HasSuffix. rewrite andb_true_iff, Nat.leb_le, String.eqb_eq.
  split.
  - intros [Hlen Hsub].
    exists (String.substring 0 (String.length s - String.length suffix) s).
    pose proof (substring_split s (String.length s - String.length suffix)) as Hs.
    replace (String.length s - (String.length s - String.length suffix))%nat
      with (String.length suffix) in Hs by lia.
    rewrite Hsub in Hs. apply Hs. lia.
  - intros [before ->]. rewrite length_append. split; [lia|].
    replace (String.length before + String.length suffix - String.length suffix)%nat
      with (String.length before) by lia.
    rewrite substring_skip. apply substring_all.
Qed.

Section Loader.
Context {lib : GoLib} {world : World} {order : MapOrder tableInfo}.

(** *** Which entries are collected *)

Lemma collectSQLFiles_filter dir entries :
  collectSQLFiles dir entries =
  map (fun e => filepath_Join dir (Entry_Name e))
      (List.filter isSchemaFile entries).
Proof.
  unfold collectSQLFiles.
  assert (Hgen : forall acc,
    fold_left (fun sqlFiles entry =>
                 if Entry_IsDir entry then sqlFiles
                 else if Entry_IsSymlink entry then sqlFiles
                 else
                   let name := Entry_Name entry in
                   let lowerName := GoStrings.ToLower name in
                   if GoStrings.HasSuffix lowerName schemaSuffix
                   then sqlFiles ++ [filepath_Join dir name]
                   else sqlFiles) entries acc =
    acc ++ map (fun e => filepath_Join dir (Entry_Name e))
               (List.filter isSchemaFile entries)).
  { induction entries as [|e entries IH]; intros acc; cbn [fold_left List.filter].
    - by rewrite app_nil_r.
    - rewrite IH. unfold isSchemaFile at 2.
      destruct (Entry_IsDir e), (Entry_IsSymlink e); cbn; try done.
      destruct (GoStrings.HasSuffix _ _); cbn; [|done]. by rewrite <- app_assoc. }
  apply Hgen.
Qed.

(** C8. Input selection. A path that is not a directory (a file, or
    nothing at all) and does not end, compared in lower case, in .lp.sql
    is rejected with the error "did not find .lp.sql file(s)": no schema
    is returned. A directory that can be listed and holds no regular file
    with that suffix is rejected with the error "no .lp.sql files found
    in directory " followed by the directory's path. *)
Theorem LoadSchema_input_selection :
  (forall path,
     os_Stat path <> Some true ->
     GoStrings.HasSuffix (GoStrings.ToLower path) ".lp.sql" = false ->
     LoadSchema path = Err "did not find .lp.sql file(s)") /\
  (forall dir entries,
     os_Stat dir = Some true ->
     os_ReadDir dir = Ok entries ->
     Forall (fun e => isSchemaFile e = false) entries ->
     LoadSchema dir = Err ("no .lp.sql files found in directory " +:+ dir)) /\
  (forall e,
     GoStrings.HasSuffix (GoStrings.ToLower (Entry_Name e)) ".lp.sql" = false ->
     isSchemaFile e = false).
Proof.
  split; [|split].
  - intros path Hstat Hsuffix. unfold LoadSchema, schemaSuffix.
    destruct (os_Stat path) as [[]|]; [done| |done]. by rewrite Hsuffix.
  - intros dir entries Hstat Hread Hnone. unfold LoadSchema. rewrite Hstat.
    unfold loadSchemaFromDir. rewrite Hread, collectSQLFiles_filter.
    replace (List.filter isSchemaFile entries) with (@nil DirEntry); [done|].
    symmetry. clear Hread. induction Hnone as [|e entries He _ IH]; [done|].
    cbn [List.filter]. rewrite He. exact IH.
  - intros e He. unfold isSchemaFile, schemaSuffix. rewrite He. apply andb_false_r.
Qed.

End Loader.

Lemma LoadSchema_input_selection_witness :
  @LoadSchema plainLib demoWorld listOrder "schema.sql"
    = Err "did not find .lp.sql file(s)" /\
  @LoadSchema plainLib demoWorld listOrder "docs"
    = Err "no .lp.sql files found in directory docs".
Proof.
  split.
  - apply (proj1 (@LoadSchema_input_selection plainLib demoWorld listOrder)).
    + discriminate.
    + reflexivity.
  - apply (proj1 (proj2 (@LoadSchema_input_selection plainLib demoWorld listOrder))
             "docs" [regularFile "notes.txt"]).
    + reflexivity.
    + reflexivity.
    + repeat constructor.
Defined.

(** *** Statement order within a file *)

Lemma parseCreateTable_flag {lib : GoLib} stmt ctx loc t :
  parseCreateTable stmt ctx loc = Ok t -> Table_setRLSEnabled false t = t.
Proof.
  unfold parseCreateTable. destruct (Relation stmt); [|done].
  destruct (byteOffsetToLineColumn _ _) as [line column].
  destruct (parseTableElts _ _); [|done]. by intros [= <-].
Qed.

Lemma parseAlterTable_keeps schema stmt schema' :
  parseAlterTable schema stmt = Ok schema' ->
  map (Table_setRLSEnabled false) (Tables schema')
    = map (Table_setRLSEnabled false) (Tables schema) /\
  Schema_Dialect schema' = Schema_Dialect schema.
Proof.
  unfold parseAlterTable. destruct (AlterTable_Relation stmt); [|done].
  destruct (findTable _ _ _ _) as [idx|]; intros [= <-]; [|done].
  cbn [Tables Schema_Dialect]. split; [|done]. rewrite applyAlterCmds.
  change (map (Table_setRLSEnabled false)) with (fmap (M:=list) (Table_setRLSEnabled false)).
  rewrite (list_fmap_alter _ _ id).
  - apply list_alter_id. done.
  - apply Forall_forall. intros t _. by destruct t.
Qed.

(** The tables of the lowered schema are, up to the flag set by later
    [ALTER TABLE] statements, the tables already there followed by the
    tables of the [CREATE TABLE] statements in statement order. *)
Lemma lowerStmts_order {lib : GoLib} ctx stmts : forall schema schema',
  lowerStmts stmts ctx schema = Ok schema' ->
  map (Table_setRLSEnabled false) (Tables schema')
    = map (Table_setRLSEnabled false) (Tables schema) ++ createdTables stmts ctx /\
  Schema_Dialect schema' = Schema_Dialect schema.
Proof.
  induction stmts as [|stmt stmts IH]; intros schema schema' Hrun.
  - cbn in Hrun. injection Hrun as <-. by rewrite app_nil_r.
  - cbn [lowerStmts createdTables] in *.
    destruct (Stmt stmt) as [node|]; [|by apply IH].
    destruct node; try by apply IH.
    + destruct (parseCreateTable _ _ _) as [table|] eqn:Hcreate; [|done].
      apply IH in Hrun as [Htables Hdialect]. cbn [Tables Schema_Dialect] in *.
      split; [|done]. rewrite Htables, map_app. cbn [map].
      rewrite (parseCreateTable_flag _ _ _ _ Hcreate). by rewrite <- app_assoc.
    + destruct (parseAlterTable _ _) as [altered|] eqn:Halter; [|done].
      apply parseAlterTable_keeps in Halter as [Hsame Hdialect].
      apply IH in Hrun as [Htables Hdialect']. split; [|congruence].
      by rewrite Htables, Hsame.
Qed.

Section LoaderOrder.
Context {lib : GoLib} {world : World} {order : MapOrder tableInfo}.

Lemma loadSQLSchemaFromBytes_order data file schema :
  loadSQLSchemaFromBytesWithFilename data file = Ok schema ->
  exists stmts,
    pg_query_Parse data = Ok stmts /\
    map (Table_setRLSEnabled false) (Tables schema)
      = createdTables stmts {| ctx_sql := data; ctx_filename := file |} /\
    validateNoDuplicateTables schema = None.
Proof.
  unfold loadSQLSchemaFromBytesWithFilename, ParseSQLSchemaWithDialectAndFilename,
    parsePostgresSQLSchemaWithFilename.
  destruct (pg_query_Parse data) as [stmts|]; [|done].
  destruct (lowerStmts _ _ _) as [lowered|] eqn:Hlower; [|done].
  destruct (validateNoDuplicateTables lowered) eqn:Hvalid; [done|].
  intros [= <-]. exists stmts. split; [done|]. split; [|done].
  by apply lowerStmts_order in Hlower as [-> _].
Qed.

(** *** The loop over the files *)

Lemma loadFiles_spec files : forall allTables result,
  loadFiles files allTables = Ok result <->
  exists perFile,
    Forall2 fileLoads files perFile /\
    result = allTables ++ concat (map Tables perFile).
Proof.
  induction files as [|file files IH]; intros allTables result; cbn [loadFiles].
  - split.
    + intros [= <-]. exists []. split; [constructor|]. by rewrite app_nil_r.
    + intros (perFile & Hall & ->). inversion Hall; subst. cbn. by rewrite app_nil_r.
  - split.
    + destruct (os_ReadFile file) as [data|] eqn:Hread; [|done].
      destruct (loadSQLSchemaFromBytesWithFilename data file) as [schema|] eqn:Hload;
        [|done].
      intros (perFile & Hall & ->)%IH. exists (schema :: perFile). split.
      * constructor; [|done]. by exists data.
      * cbn. by rewrite <- app_assoc.
    + intros (perFile & Hall & ->).
      inversion Hall as [|? schema ? perFile' (data & Hread & Hload) Hall']; subst.
      rewrite Hread, Hload. apply IH. exists perFile'. split; [done|].
      cbn. by rewrite <- app_assoc.
Qed.

Lemma sort_Strings_sorted files :
  StronglySorted String.le (sort_Strings files) /\ sort_Strings files ≡ₚ files.
Proof.
  split.
  - apply StronglySorted_merge_sort; apply _.
  - apply merge_sort_Permutation.
Qed.

(** [sort.Strings] has one possible result. *)
Lemma sort_Strings_unique files sorted :
  StronglySorted String.le sorted -> sorted ≡ₚ files -> sorted = sort_Strings files.
Proof.
  intros Hsorted Hperm. apply (StronglySorted_unique String.le); [done| |].
  - apply sort_Strings_sorted.
  - rewrite Hperm. symmetry. apply sort_Strings_sorted.
Qed.

(** C3. Order of the aggregate schema. For a directory that can be
    listed, the loader processes the paths of the collected entries in
    increasing byte-wise order of the full path (the one sorted
    arrangement of them); when every entry is a regular schema file these
    are the paths of all entries. It returns a schema exactly when there
    is at least one such file, every file, taken in that order, is read
    and lowered without error, and the concatenation of the per-file
    tables has no duplicate; the tables of the returned schema are that
    concatenation. Within each file the tables are those of its CREATE
    TABLE statements in statement order (up to the row-security flag a
    later ALTER TABLE sets). *)
Theorem loadSchemaFromDir_order (dir : string) (entries : list DirEntry) :
  os_ReadDir dir = Ok entries ->
  let files := sort_Strings (collectSQLFiles dir entries) in
  StronglySorted String.le files /\
  files ≡ₚ collectSQLFiles dir entries /\
  (forall sorted, StronglySorted String.le sorted ->
     sorted ≡ₚ collectSQLFiles dir entries -> sorted = files) /\
  (Forall (fun e => isSchemaFile e = true) entries ->
     collectSQLFiles dir entries
       = map (fun e => filepath_Join dir (Entry_Name e)) entries) /\
  (forall schema,
     loadSchemaFromDir dir = Ok schema <->
     files <> [] /\
     exists perFile,
       Forall2 fileLoads files perFile /\
       schema = {| Tables := concat (map Tables perFile);
                   Schema_Dialect := DialectPostgres |} /\
       validateNoDuplicateTables schema = None) /\
  (forall file fileSchema,
     fileLoads file fileSchema ->
     exists data stmts,
       os_ReadFile file = Ok data /\ pg_query_Parse data = Ok stmts /\
       map (Table_setRLSEnabled false) (Tables fileSchema)
         = createdTables stmts {| ctx_sql := data; ctx_filename := file |}).
Proof.
  intros Hread files. subst files. split_and!.
  - apply sort_Strings_sorted.
  - apply sort_Strings_sorted.
  - apply sort_Strings_unique.
  - intros Hall. rewrite collectSQLFiles_filter. f_equal.
    clear Hread. induction Hall as [|e entries He _ IH]; [done|].
    cbn [List.filter]. by rewrite He, IH.
  - intros schema. unfold loadSchemaFromDir. rewrite Hread.
    destruct (collectSQLFiles dir entries) as [|f fs] eqn:Hfiles.
    { split; [done|]. by intros [Hne _]. }
    rewrite <- Hfiles.
    assert (Hne : sort_Strings (collectSQLFiles dir entries) <> []).
    { intros Hnil. pose proof (proj2 (sort_Strings_sorted (collectSQLFiles dir entries))) as Hperm.
      rewrite Hnil, Hfiles in Hperm. by apply Permutation_nil_cons in Hperm. }
    split.
    + destruct (loadFiles _ _) as [allTables|] eqn:Hload; [|done].
      apply loadFiles_spec in Hload as (perFile & Hall & ->). cbn [app] in *.
      destruct (validateNoDuplicateTables _) eqn:Hvalid; [done|].
      intros [= <-]. split; [done|]. by exists perFile.
    + intros (_ & perFile & Hall & -> & Hvalid).
      assert (Hload : loadFiles (sort_Strings (collectSQLFiles dir entries)) []
                      = Ok (concat (map Tables perFile))).
      { apply loadFiles_spec. by exists perFile. }
      by rewrite Hload, Hvalid.
  - intros file fileSchema (data & Hfile & Hload).
    apply loadSQLSchemaFromBytes_order in Hload as (stmts & Hparse & Horder & _).
    by exists data, stmts.
Qed.

End LoaderOrder.

(** The directory [schema/] of [demoWorld]: [posts.LP.SQL] sorts before
    [users.lp.sql], and its two tables keep their order. *)
Lemma loadSchemaFromDir_order_witness :
  StronglySorted String.le
    (sort_Strings (@collectSQLFiles plainLib "schema"
       [regularFile "users.lp.sql"; regularFile "posts.LP.SQL";
        regularFile "notes.txt";
        {| Entry_Name := "old"; Entry_IsDir := true; Entry_IsSymlink := false |}])) /\
  sort_Strings (@collectSQLFiles plainLib "schema"
       [regularFile "users.lp.sql"; regularFile "posts.LP.SQL";
        regularFile "notes.txt";
        {| Entry_Name := "old"; Entry_IsDir := true; Entry_IsSymlink := false |}])
    = ["schema/posts.LP.SQL"; "schema/users.lp.sql"] /\
  option_map (fun s => map Table_Name (Tables s))
    (match @loadSchemaFromDir plainLib demoWorld listOrder "schema" with
     | Ok s => Some s
     | Err _ => None
     end) = Some ["posts"; "tags"; "users"].
Proof.
  split; [|split].
  - exact (proj1 (@loadSchemaFromDir_order plainLib demoWorld listOrder
                    "schema" _ eq_refl)).
  - vm_compute. reflexivity.
  - vm_compute. reflexivity.
Defined.

(** ** Check pipeline *)

(** *** The pattern matcher finds a match exactly when there is one *)

Lemma plusSplits_sound cls s p r :
  (p, r) ∈ Regexp.plusSplits cls s ->
  p <> "" /\ Spec.allIn cls p = true /\ s = p +:+ r.
Proof.
  revert p r. induction s as [|c s IH]; intros p r Hin; cbn in Hin.
  - by apply elem_of_nil in Hin.
  - destruct (cls c) eqn:Hc; [|by apply elem_of_nil in Hin].
    apply elem_of_app in Hin as [Hin|Hin].
    + apply list_elem_of_fmap in Hin as ([p' r'] & [= -> ->] & Hin).
      apply IH in Hin as (_ & Hall & ->). cbn. by rewrite Hc, Hall.
    + apply list_elem_of_singleton in Hin as [= -> ->]. cbn. by rewrite Hc.
Qed.

Lemma plusSplits_complete cls p r :
  p <> "" -> Spec.allIn cls p = true -> (p, r) ∈ Regexp.plusSplits cls (p +:+ r).
Proof.
  induction p as [|c p IH]; intros Hne Hall; [done|].
  cbn in Hall. apply andb_true_iff in Hall as [Hc Hall].
  rewrite append_cons. cbn. rewrite Hc. apply elem_of_app.
  destruct p as [|c' p].
  - right. by apply list_elem_of_singleton.
  - left. apply list_elem_of_fmap. exists (String c' p, r). split; [done|].
    by apply IH.
Qed.

Lemma firstSome_Some {A B} (f : A -> option B) l y :
  Regexp.firstSome f l = Some y -> exists x, x ∈ l /\ f x = Some y.
Proof.
  induction l as [|x l IH]; cbn; [done|].
  destruct (f x) as [y'|] eqn:Hx.
  - intros [= <-]. exists x. split; [left|done].
  - intros (x' & Hin & Hx')%IH. exists x'. split; [by right|done].
Qed.

Lemma firstSome_None {A B} (f : A -> option B) l x :
  Regexp.firstSome f l = None -> x ∈ l -> f x = None.
Proof.
  induction l as [|x' l IH]; cbn; [by intros _ ?%elem_of_nil|].
  destruct (f x') eqn:Hx'; [done|].
  intros Hnone [->|Hin]%elem_of_cons; auto.
Qed.

Lemma matchHere_sound re : forall s caps,
  Regexp.matchHere re s = Some caps ->
  exists m rest, s = m +:+ rest /\ Spec.Matches re caps m.
Proof.
  induction re as [|[c|cls] re IH]; intros s caps Hrun; cbn in Hrun.
  - injection Hrun as <-. exists "", s. split; [done|constructor].
  - destruct s as [|c' s]; [done|].
    destruct (Ascii.eqb_spec c' c) as [->|]; [|done].
    apply IH in Hrun as (m & rest & -> & Hm).
    exists (String c m), rest. split; [done|by constructor].
  - apply firstSome_Some in Hrun as ([p r] & Hin & Hrun).
    destruct (Regexp.matchHere re r) as [caps'|] eqn:Hrest; [|done].
    injection Hrun as <-.
    apply plusSplits_sound in Hin as (Hne & Hall & ->).
    apply IH in Hrest as (m & rest & -> & Hm).
    exists (p +:+ m), rest. split; [by rewrite append_assoc|by constructor].
Qed.

Lemma matchHere_complete re caps m :
  Spec.Matches re caps m -> forall rest, Regexp.matchHere re (m +:+ rest) <> None.
Proof.
  induction 1 as [|c re caps m Hm IH|cls re p caps m Hne Hall Hm IH];
    intros rest; cbn.
  - done.
  - rewrite append_cons. by rewrite Ascii.eqb_refl.
  - intros Hnone.
    pose proof (firstSome_None _ _ (p, m +:+ rest) Hnone) as Hsplit.
    rewrite append_assoc in Hsplit.
    specialize (Hsplit (plusSplits_complete cls p (m +:+ rest) Hne Hall)).
    cbn in Hsplit. specialize (IH rest).
    by destruct (Regexp.matchHere re (m +:+ rest)).
Qed.

Lemma FindStringSubmatch_sound re s caps :
  Regexp.FindStringSubmatch re s = Some caps ->
  exists before m after, s = before +:+ m +:+ after /\ Spec.Matches re caps m.
Proof.
  induction s as [|c s IH]; cbn.
  - destruct (Regexp.matchHere re "") eqn:Hhere; [|done].
    intros [= ->]. apply matchHere_sound in Hhere as (m & rest & -> & Hm).
    by exists "", m, rest.
  - destruct (Regexp.matchHere re (String c s)) eqn:Hhere.
    + intros [= ->]. apply matchHere_sound in Hhere as (m & rest & -> & Hm).
      by exists "", m, rest.
    + intros (before & m & after & -> & Hm)%IH.
      by exists (String c before), m, after.
Qed.

Lemma FindStringSubmatch_complete re caps before m after :
  Spec.Matches re caps m ->
  Regexp.FindStringSubmatch re (before +:+ m +:+ after) <> None.
Proof.
  intros Hm. induction before as [|c before IH].
  - change ("" +:+ m +:+ after) with (m +:+ after).
    pose proof (matchHere_complete re caps m Hm after) as Hhere.
    destruct (m +:+ after) eqn:Hs; cbn;
      by destruct (Regexp.matchHere re _).
  - rewrite append_cons. cbn.
    by destruct (Regexp.matchHere re _).
Qed.

Lemma Matches_fileLoc caps m :
  Spec.Matches Regexp.fileLocPattern caps m <->
  exists file line column,
    caps = [file; line; column] /\ Spec.isFileLoc file line column m.
Proof.
  unfold Regexp.fileLocPattern, Spec.isFileLoc. split.
  - intros H.
    inversion H as [| |? ? file ? ? Hf1 Hf2 H1]; subst; clear H.
    inversion H1 as [|? ? ? ? H2|]; subst; clear H1.
    inversion H2 as [| |? ? line ? ? Hl1 Hl2 H3]; subst; clear H2.
    inversion H3 as [|? ? ? ? H4|]; subst; clear H3.
    inversion H4 as [| |? ? column ? ? Hc1 Hc2 H5]; subst; clear H4.
    inversion H5; subst; clear H5.
    exists file, line, column. split; [done|]. split_and!; try done.
    by rewrite append_empty_r.
  - intros (file & line & column & -> & Hf1 & Hf2 & Hl1 & Hl2 & Hc1 & Hc2 & ->).
    constructor; [done..|]. apply (Spec.Matches_lit ":").
    constructor; [done..|]. apply (Spec.Matches_lit ":").
    rewrite <- (append_empty_r column) at 2. constructor; [done..|]. constructor.
Qed.

Lemma Matches_line caps m :
  Spec.Matches Regexp.linePattern caps m <->
  exists line, caps = [line] /\ Spec.isLineRef line m.
Proof.
  unfold Regexp.linePattern, Spec.isLineRef. cbn. split.
  - intros H.
    do 5 (inversion H as [|? ? ? ? H'|]; subst; clear H; rename H' into H).
    inversion H as [| |? ? line ? ? Hl1 Hl2 H']; subst; clear H.
    inversion H'; subst; clear H'.
    exists line. split; [done|]. split_and!; try done.
    by rewrite append_empty_r.
  - intros (line & -> & Hl1 & Hl2 & ->).
    do 5 (rewrite append_cons; constructor).
    change ("" +:+ line) with line.
    rewrite <- (append_empty_r line) at 2. constructor; [done..|]. constructor.
Qed.

Lemma hasFileLoc_found text :
  Spec.hasFileLoc text <->
  Regexp.FindStringSubmatch Regexp.fileLocPattern text <> None.
Proof.
  split.
  - intros (before & m & after & file & line & column & -> & Hm).
    eapply FindStringSubmatch_complete. apply Matches_fileLoc.
    by exists file, line, column.
  - destruct (Regexp.FindStringSubmatch _ _) as [caps|] eqn:Hrun; [|done].
    intros _. apply FindStringSubmatch_sound in Hrun as (before & m & after & -> & Hm).
    apply Matches_fileLoc in Hm as (file & line & column & _ & Hm).
    by exists before, m, after, file, line, column.
Qed.

Lemma hasLineRef_found text :
  Spec.hasLineRef text <->
  Regexp.FindStringSubmatch Regexp.linePattern text <> None.
Proof.
  split.
  - intros (before & m & after & line & -> & Hm).
    eapply FindStringSubmatch_complete. apply Matches_line. by exists line.
  - destruct (Regexp.FindStringSubmatch _ _) as [caps|] eqn:Hrun; [|done].
    intros _. apply FindStringSubmatch_sound in Hrun as (before & m & after & -> & Hm).
    apply Matches_line in Hm as (line & _ & Hm).
    by exists before, m, after, line.
Qed.

(** *** The diagnostic of a load error *)

Section Check.
Context {lib : GoLib}.

Lemma parseErrorToDiagnostic_cases (err path : string) :
  let d := parseErrorToDiagnostic err path in
  Diag_Severity d = "error" /\
  match Regexp.FindStringSubmatch Regexp.fileLocPattern err with
  | Some caps =>
      exists before m after file line column,
        caps = [file; line; column] /\
        err = before +:+ m +:+ after /\ Spec.isFileLoc file line column m /\
        Diag_File d = file /\ Diag_Line d = GoStrings.Atoi line /\
        Diag_Column d = GoStrings.Atoi column
  | None =>
      ~ Spec.hasFileLoc err /\
      match Regexp.FindStringSubmatch Regexp.linePattern err with
      | Some caps =>
          exists before m after line,
            caps = [line] /\
            err = before +:+ m +:+ after /\ Spec.isLineRef line m /\
            Diag_Message d = err /\
            Diag_File d = path /\ Diag_Line d = GoStrings.Atoi line /\
            Diag_Column d = 1
      | None =>
          ~ Spec.hasLineRef err /\
          Diag_Message d = err /\
          Diag_File d = path /\ Diag_Line d = 1 /\ Diag_Column d = 1
      end
  end.
Proof.
  unfold parseErrorToDiagnostic.
  destruct (Regexp.FindStringSubmatch Regexp.fileLocPattern err) as [caps|] eqn:Hloc.
  - apply FindStringSubmatch_sound in Hloc as (before & m & after & Herr & Hm).
    apply Matches_fileLoc in Hm as (file & line & column & -> & Hm).
    cbn. split; [done|]. by exists before, m, after, file, line, column.
  - assert (Hno : ~ Spec.hasFileLoc err).
    { intros (before & m & after & file & line & column & -> & Hm).
      eapply FindStringSubmatch_complete; [|exact Hloc].
      apply Matches_fileLoc. by exists file, line, column. }
    destruct (Regexp.FindStringSubmatch Regexp.linePattern err) as [caps|] eqn:Hline.
    + apply FindStringSubmatch_sound in Hline as (before & m & after & Herr & Hm).
      apply Matches_line in Hm as (line & -> & Hm).
      cbn. split; [done|]. split; [done|]. by exists before, m, after, line.
    + cbn. split; [done|]. split; [done|]. split; [|done].
      intros (before & m & after & line & -> & Hm).
      eapply FindStringSubmatch_complete; [|exact Hline].
      apply Matches_line. by exists line.
Qed.

Lemma fold_appendError ds : forall output,
  fold_left appendError ds output =
  {| Diagnostics := Diagnostics output ++ ds;
     Output_Summary :=
       {| Errors := Errors (Output_Summary output) + Z.of_nat (length ds);
          Warnings := Warnings (Output_Summary output);
          Valid := match ds with
                   | [] => Valid (Output_Summary output)
                   | _ :: _ => false
                   end |} |}.
Proof.
  induction ds as [|d ds IH]; intros [diags [errors warnings valid]].
  - cbn. rewrite app_nil_r. do 2 f_equal. lia.
  - cbn [fold_left]. rewrite IH. cbn [appendError Diagnostics Output_Summary
      Errors Warnings Valid length].
    rewrite <- app_assoc. cbn [app]. do 2 f_equal; [lia|]. by destruct ds.
Qed.

Lemma occurrenceDiagnostics_severity tables key idxs : forall i,
  Forall (fun d => Diag_Severity d = "error")
         (occurrenceDiagnostics tables key i idxs).
Proof.
  induction idxs as [|idx idxs IH]; intros i; cbn; [constructor|].
  destruct (tables !! idx); [|done]. constructor; [|done].
  apply occurrenceDiagnostic_fields.
Qed.

Context {world : World} {order : MapOrder tableInfo}.

Lemma diagnostics_severity schema :
  Forall (fun d => Diag_Severity d = "error")
         (ValidateDuplicateTablesAsDiagnostics schema).
Proof.
  rewrite diagnostics_of_groups.
  induction (duplicateGroups schema) as [|[key idxs] groups IH]; cbn; [constructor|].
  apply Forall_app. split; [|done]. apply occurrenceDiagnostics_severity.
Qed.

(** C6. The check pipeline returns an error only when the report cannot
    be marshalled; every failure of the load becomes a report. When the
    load fails the report holds exactly one diagnostic, of severity
    error, with one error counted and the validity flag cleared, and
    nothing else is done. The diagnostic is located by the leftmost
    path:line:col part of the error text when the text has one; else by
    the leftmost "line N" part, in the input path at column 1; else at
    line 1, column 1 of the input path. When the load succeeds the
    report holds the diagnostics of the duplicate validator, in its
    order, all of severity error, the error count is their number and the
    validity flag is cleared as soon as there is one. *)
Theorem checkOutput_shape {json : Json} (path : string) :
  (forall marshalled, json_MarshalIndent (checkOutput path) = Ok marshalled ->
     CheckSchema path = Ok marshalled) /\
  (forall errMsg,
     loadSchemaWithoutValidation path = Err errMsg ->
     exists d,
       checkOutput path =
         {| Diagnostics := [d];
            Output_Summary := {| Errors := 1; Warnings := 0; Valid := false |} |} /\
       Diag_Severity d = "error" /\
       (Spec.hasFileLoc errMsg ->
          exists before m after file line column,
            errMsg = before +:+ m +:+ after /\
            Spec.isFileLoc file line column m /\
            Regexp.FindStringSubmatch Regexp.fileLocPattern errMsg
              = Some [file; line; column] /\
            Diag_File d = file /\ Diag_Line d = GoStrings.Atoi line /\
            Diag_Column d = GoStrings.Atoi column) /\
       (~ Spec.hasFileLoc errMsg -> Spec.hasLineRef errMsg ->
          exists before m after line,
            errMsg = before +:+ m +:+ after /\ Spec.isLineRef line m /\
            Regexp.FindStringSubmatch Regexp.linePattern errMsg = Some [line] /\
            Diag_File d = path /\ Diag_Line d = GoStrings.Atoi line /\
            Diag_Column d = 1) /\
       (~ Spec.hasFileLoc errMsg -> ~ Spec.hasLineRef errMsg ->
          Diag_Message d = errMsg /\
          Diag_File d = path /\ Diag_Line d = 1 /\ Diag_Column d = 1)) /\
  (forall schema,
     loadSchemaWithoutValidation path = Ok schema ->
     let diagnostics := ValidateDuplicateTablesAsDiagnostics schema in
     Diagnostics (checkOutput path) = diagnostics /\
     Forall (fun d => Diag_Severity d = "error") diagnostics /\
     Errors (Output_Summary (checkOutput path)) = Z.of_nat (length diagnostics) /\
     Warnings (Output_Summary (checkOutput path)) = 0 /\
     Valid (Output_Summary (checkOutput path))
       = match diagnostics with [] => true | _ :: _ => false end).
Proof.
  split; [|split].
  - intros marshalled Hjson. unfold CheckSchema. by rewrite Hjson.
  - intros errMsg Hload. unfold checkOutput. rewrite Hload.
    exists (parseErrorToDiagnostic errMsg path). split; [done|].
    pose proof (parseErrorToDiagnostic_cases errMsg path) as [Hsev Hcases].
    cbn zeta in Hcases. split; [done|].
    destruct (Regexp.FindStringSubmatch Regexp.fileLocPattern errMsg)
      as [caps|] eqn:Hloc.
    + destruct Hcases as (before & m & after & file & line & column
                          & -> & Herr & Hm & Hfields).
      split_and!.
      * intros _. by exists before, m, after, file, line, column.
      * intros Hno. destruct Hno. by exists before, m, after, file, line, column.
      * intros Hno. destruct Hno. by exists before, m, after, file, line, column.
    + destruct Hcases as [Hno Hcases]. split; [done|].
      destruct (Regexp.FindStringSubmatch Regexp.linePattern errMsg)
        as [caps|] eqn:Hline.
      * destruct Hcases as (before & m & after & line & -> & Herr & Hm & _ & Hfields).
        split.
        -- intros _ _. by exists before, m, after, line.
        -- intros _ Hnoline. destruct Hnoline. by exists before, m, after, line.
      * destruct Hcases as [Hnoline Hfields]. split; [done|]. by intros _ _.
  - intros schema Hload diagnostics. unfold checkOutput. rewrite Hload.
    rewrite fold_appendError. cbn. split_and!; try done.
    apply diagnostics_severity.
Qed.

End Check.

(** In [demoWorld]: an unreadable file whose error text has a
    path:line:col part, a file the parser rejects with a "line N"
    message, a path with the wrong suffix, and the directory [dup/]
    with two definitions of one table. *)
Lemma checkOutput_shape_witness :
  (exists d,
     @checkOutput plainLib demoWorld listOrder "odd.lp.sql" =
       {| Diagnostics := [d];
          Output_Summary := {| Errors := 1; Warnings := 0; Valid := false |} |} /\
     Diag_File d = " read odd.lp.sql" /\ Diag_Line d = 3 /\ Diag_Column d = 7) /\
  (exists d,
     @checkOutput plainLib demoWorld listOrder "broken.lp.sql" =
       {| Diagnostics := [d];
          Output_Summary := {| Errors := 1; Warnings := 0; Valid := false |} |} /\
     Diag_File d = "broken.lp.sql" /\ Diag_Line d = 1 /\ Diag_Column d = 1) /\
  (exists d,
     @checkOutput plainLib demoWorld listOrder "schema.sql" =
       {| Diagnostics := [d];
          Output_Summary := {| Errors := 1; Warnings := 0; Valid := false |} |} /\
     Diag_File d = "schema.sql" /\ Diag_Line d = 1 /\ Diag_Column d = 1) /\
  Errors (Output_Summary (@checkOutput plainLib demoWorld listOrder "dup")) = 2 /\
  @CheckSchema plainLib demoWorld listOrder countJson "dup" = Ok "2".
Proof.
  pose proof (fun path =>
    @checkOutput_shape plainLib demoWorld listOrder countJson path) as Hshape.
  split_and!.
  - destruct (proj1 (proj2 (Hshape "odd.lp.sql"))
                "failed to read SQL file: read odd.lp.sql:3:7: input/output error"
                eq_refl)
      as (d & Hout & _ & Hloc & _).
    exists d. split; [exact Hout|].
    destruct Hloc as (before & m & after & file & line & column
                      & _ & _ & Hfound & -> & -> & ->).
    { apply hasFileLoc_found. vm_compute. discriminate. }
    vm_compute in Hfound. injection Hfound as <- <- <-.
    split_and!; reflexivity.
  - destruct (proj1 (proj2 (Hshape "broken.lp.sql"))
                "failed to parse SQL DDL: failed to parse SQL: syntax error at or near line 1"
                eq_refl)
      as (d & Hout & _ & _ & Hline & _).
    exists d. split; [exact Hout|].
    destruct Hline as (before & m & after & line & _ & _ & Hfound & -> & -> & ->).
    { rewrite hasFileLoc_found. vm_compute. intros Hne. by apply Hne. }
    { apply hasLineRef_found. vm_compute. discriminate. }
    vm_compute in Hfound. injection Hfound as <-. split_and!; reflexivity.
  - destruct (proj1 (proj2 (Hshape "schema.sql"))
                "did not find .lp.sql file(s)" eq_refl)
      as (d & Hout & _ & _ & _ & Hnone).
    exists d. split; [exact Hout|].
    destruct Hnone as (_ & -> & -> & ->); [| |split_and!; reflexivity].
    + rewrite hasFileLoc_found. vm_compute. intros Hne. by apply Hne.
    + rewrite hasLineRef_found. vm_compute. intros Hne. by apply Hne.
  - destruct (@loadSchemaWithoutValidation plainLib demoWorld "dup")
      as [schema|] eqn:Hload; [|discriminate Hload].
    destruct (proj2 (proj2 (Hshape "dup")) schema Hload) as (_ & _ & -> & _).
    vm_compute in Hload. injection Hload as <-. reflexivity.
  - apply (proj1 (Hshape "dup")). reflexivity.
Defined.

(** * Further properties of the code *)

(** ** Counters of the report *)

Lemma countSeverity_app severity ds1 ds2 :
  Spec2.countSeverity severity (ds1 ++ ds2)
    = (Spec2.countSeverity severity ds1 + Spec2.countSeverity severity ds2)%nat.
Proof. unfold Spec2.countSeverity. by rewrite List.filter_app, length_app. Qed.

Lemma wellCounted_addReport c r :
  Spec2.wellCounted c -> Spec2.wellCounted (Spec2.addReport c r).
Proof.
  intros (Herr & Hwarn & Hvalid & Hlen).
  destruct r; unfold Spec2.wellCounted; cbn [Spec2.addReport AddError AddWarning
    Diagnostics Output_Summary Errors Warnings Valid];
    rewrite !countSeverity_app, length_app; cbn; split_and!; try lia.
  exact Hvalid.
Qed.

Lemma wellCounted_errors ds :
  Forall (fun d => Diag_Severity d = "error") ds ->
  Spec2.countSeverity "error" ds = length ds /\
  Spec2.countSeverity "warning" ds = 0%nat.
Proof.
  unfold Spec2.countSeverity.
  induction 1 as [|d ds Hd _ [IH1 IH2]]; [done|].
  cbn. rewrite Hd. cbn. by rewrite IH1, IH2.
Qed.

(** X1. The counters of a report are kept in step with its diagnostics.
    Starting from the empty report, after any sequence of AddError and
    AddWarning calls the error count is the number of diagnostics of
    severity error, the warning count the number of severity warning,
    there are no other diagnostics, and the report is valid exactly when
    the error count is zero: a warning never makes a report invalid. The
    report the check pipeline builds for a path has the same property. *)
Theorem report_counters :
  (forall reports,
     Spec2.wellCounted (fold_left Spec2.addReport reports NewCheckOutput)) /\
  (forall (lib : GoLib) (world : World) (order : MapOrder tableInfo) path,
     Spec2.wellCounted (checkOutput path)).
Proof.
  split.
  - intros reports.
    assert (Hgen : forall c, Spec2.wellCounted c ->
              Spec2.wellCounted (fold_left Spec2.addReport reports c)).
    { induction reports as [|r reports IH]; intros c Hc; [done|].
      cbn. apply IH. by apply wellCounted_addReport. }
    apply Hgen. unfold Spec2.wellCounted. cbn. split_and!; done.
  - intros lib world order path. unfold checkOutput.
    destruct (loadSchemaWithoutValidation path) as [schema|errMsg].
    + rewrite fold_appendError.
      destruct (wellCounted_errors _ (diagnostics_severity schema)) as [He Hw].
      unfold Spec2.wellCounted.
      cbn [Diagnostics Output_Summary Errors Warnings Valid NewCheckOutput app].
      rewrite He, Hw. split_and!; try lia.
      destruct (ValidateDuplicateTablesAsDiagnostics schema); cbn [length];
        split; try done; lia.
    + pose proof (parseErrorToDiagnostic_cases errMsg path) as [Hsev _].
      cbn zeta in Hsev.
      unfold Spec2.wellCounted, Spec2.countSeverity. cbn. rewrite Hsev. cbn.
      split_and!; done.
Qed.

(** ** Column definitions and [CREATE TABLE] *)

Lemma applyConstraints cs : forall col,
  fold_left (fun col constraint =>
               match constraint with
               | Node_Constraint cons_ => parseColumnConstraint col cons_
               | _ => col
               end) cs col =
  {| Column_Name := Column_Name col;
     Column_Type := Column_Type col;
     Column_Nullable :=
       default (Column_Nullable col) (last (omap Spec2.nullabilityOf cs));
     Column_IsPrimaryKey :=
       (Column_IsPrimaryKey col || existsb Spec2.isPrimary cs)%bool;
     Column_Default :=
       match last (omap Spec2.defaultOf cs) with
       | Some d => Some d
       | None => Column_Default col
       end |}.
Proof.
  induction cs as [|c cs IH]; intros col.
  - cbn. rewrite orb_false_r. by destruct col.
  - cbn [fold_left]. rewrite IH. clear IH.
    destruct c as [| | | | | | |[ty e]| | | |];
      try (cbn; by destruct col).
    destruct ty; cbn [omap list_omap Spec2.nullabilityOf Spec2.defaultOf
                      Spec2.isPrimary existsb parseColumnConstraint Contype RawExpr];
      try (destruct e);
      cbn [Column_setNullable Column_setDefault Column_setIsPrimaryKey
           Column_Name Column_Type Column_Nullable Column_IsPrimaryKey
           Column_Default formatExpr];
      rewrite ?last_cons; rewrite ?orb_true_r;
      try (destruct (last (omap Spec2.nullabilityOf cs)));
      try (destruct (last (omap Spec2.defaultOf cs)));
      cbn; by rewrite ?orb_true_r.
Qed.

Lemma parseColumnDef_spec {lib : GoLib} colDef :
  parseColumnDef colDef =
  if String.eqb (Colname colDef) "" then Err "column missing name"
  else Ok (Spec2.loweredColumn colDef).
Proof.
  unfold parseColumnDef. destruct (String.eqb _ _); [done|].
  rewrite applyConstraints. unfold Spec2.loweredColumn. f_equal.
  destruct (TypeName colDef); cbn; f_equal; by destruct (last _).
Qed.

(** X2. Constraints of a column. A column definition without name is
    rejected with "column missing name". Otherwise the column has the
    name of the definition and its rendered type (empty without type);
    it is nullable unless the last of its NULL, NOT NULL and PRIMARY KEY
    constraints is NOT NULL or PRIMARY KEY; it is a primary key exactly
    when a PRIMARY KEY constraint occurs anywhere, also when a later NULL
    makes it nullable again; its default is the text of the last DEFAULT
    constraint that has an expression, none without one. Nodes that are
    not constraints, and the other constraint kinds, change nothing. *)
Theorem column_constraints {lib : GoLib} (colDef : ColumnDef) :
  (Colname colDef = "" -> parseColumnDef colDef = Err "column missing name") /\
  (Colname colDef <> "" ->
   exists col,
     parseColumnDef colDef = Ok col /\
     Column_Name col = Colname colDef /\
     Column_Type col = match TypeName colDef with
                       | Some typeName => formatTypeName typeName
                       | None => ""
                       end /\
     Column_Nullable col =
       default true (last (omap Spec2.nullabilityOf (Constraints colDef))) /\
     (Column_IsPrimaryKey col = true <->
      exists c, In (Node_Constraint c) (Constraints colDef) /\
                Contype c = CONSTR_PRIMARY) /\
     Column_Default col = last (omap Spec2.defaultOf (Constraints colDef))).
Proof.
  rewrite parseColumnDef_spec. split.
  - by intros ->.
  - intros Hname. destruct (String.eqb_spec (Colname colDef) ""); [done|].
    eexists. split; [reflexivity|]. cbn. split_and!; try done.
    rewrite existsb_exists. split.
    + intros (c & Hin & Hc). destruct c as [| | | | | | |[[] e]| | | |]; try done.
      eexists. split; [exact Hin|done].
    + intros (c & Hin & Hc). exists (Node_Constraint c). split; [done|].
      destruct c as [ty e]. cbn in Hc. by subst ty.
Qed.

Lemma column_constraints_witness :
  @parseColumnDef plainLib nullablePrimaryKey =
    Ok {| Column_Name := "id"; Column_Type := "integer";
          Column_Nullable := true; Column_IsPrimaryKey := true;
          Column_Default := Some "2" |}.
Proof.
  destruct (proj2 (@column_constraints plainLib nullablePrimaryKey))
    as (col & Hrun & _).
  - discriminate.
  - rewrite Hrun. vm_compute in Hrun. injection Hrun as <-. reflexivity.
Defined.

Lemma parseTableElts_spec {lib : GoLib} elts : forall cols,
  parseTableElts elts cols =
  if decide (Forall Spec2.named (Spec2.columnDefs elts))
  then Ok (cols ++ map Spec2.loweredColumn (Spec2.columnDefs elts))
  else Err "column missing name".
Proof.
  induction elts as [|elt elts IH]; intros cols.
  - cbn. by rewrite app_nil_r.
  - destruct elt; cbn [parseTableElts Spec2.columnDefs omap list_omap];
      try apply IH.
    rewrite parseColumnDef_spec.
    destruct (String.eqb_spec (Colname d) "") as [Hd|Hd].
    + rewrite decide_False; [done|]. by intros [? _]%Forall_cons.
    + rewrite IH. fold (Spec2.columnDefs elts).
      destruct (decide (Forall Spec2.named (Spec2.columnDefs elts))) as [Hall|Hall].
      * rewrite decide_True by by constructor. cbn. by rewrite <- app_assoc.
      * rewrite decide_False; [done|]. by intros [_ ?]%Forall_cons.
Qed.

Lemma parseCreateTable_spec {lib : GoLib} stmt ctx loc :
  parseCreateTable stmt ctx loc =
  match Relation stmt with
  | None => Err "CREATE TABLE missing relation"
  | Some relation =>
      if decide (Forall Spec2.named (Spec2.columnDefs (TableElts stmt)))
      then Ok {| Table_Name := Relname relation;
                 Table_Schema := Schemaname relation;
                 Table_Columns :=
                   map Spec2.loweredColumn (Spec2.columnDefs (TableElts stmt));
                 Table_RLSEnabled := false;
                 Table_SourceLocation :=
                   Some {| Loc_File := ctx_filename ctx;
                           Loc_Line := fst (byteOffsetToLineColumn (ctx_sql ctx) loc);
                           Loc_Column := snd (byteOffsetToLineColumn (ctx_sql ctx) loc) |} |}
      else Err "column missing name"
  end.
Proof.
  unfold parseCreateTable. destruct (Relation stmt); [|done].
  destruct (byteOffsetToLineColumn _ _) as [line column].
  rewrite parseTableElts_spec. by destruct (decide _).
Qed.

(** X3. Lowering of CREATE TABLE. The statement is rejected with "CREATE
    TABLE missing relation" when it has no relation and with "column
    missing name" when one of its column definitions has an empty name;
    there is no other failure. Otherwise the table has the relation's
    name and schema exactly as given (an absent schema stays empty), one
    column per column definition in source order (elements that are not
    column definitions, such as table constraints, are skipped), the
    row-level-security flag off, and the file of the context with the
    line and column of the statement's byte offset as source location. *)
Theorem create_table_lowering {lib : GoLib} (stmt : CreateStmt) (ctx : parseContext) (loc : Z) :
  (Relation stmt = None ->
   parseCreateTable stmt ctx loc = Err "CREATE TABLE missing relation") /\
  (Relation stmt <> None ->
   ~ Forall Spec2.named (Spec2.columnDefs (TableElts stmt)) ->
   parseCreateTable stmt ctx loc = Err "column missing name") /\
  (forall relation,
     Relation stmt = Some relation ->
     Forall Spec2.named (Spec2.columnDefs (TableElts stmt)) ->
     exists table,
       parseCreateTable stmt ctx loc = Ok table /\
       Table_Name table = Relname relation /\
       Table_Schema table = Schemaname relation /\
       map Column_Name (Table_Columns table)
         = map Colname (Spec2.columnDefs (TableElts stmt)) /\
       Forall2 (fun colDef col => parseColumnDef colDef = Ok col)
               (Spec2.columnDefs (TableElts stmt)) (Table_Columns table) /\
       Table_RLSEnabled table = false /\
       Table_SourceLocation table =
         Some {| Loc_File := ctx_filename ctx;
                 Loc_Line := fst (byteOffsetToLineColumn (ctx_sql ctx) loc);
                 Loc_Column := snd (byteOffsetToLineColumn (ctx_sql ctx) loc) |}).
Proof.
  rewrite parseCreateTable_spec. split_and!.
  - by intros ->.
  - intros Hrel Hbad. destruct (Relation stmt); [|done]. by rewrite decide_False.
  - intros relation -> Hall. rewrite decide_True by done.
    eexists. split; [reflexivity|]. cbn. split_and!; try done.
    + rewrite map_map. done.
    + induction Hall as [|d ds Hd _ IH]; cbn; constructor; [|done].
      rewrite parseColumnDef_spec. by destruct (String.eqb_spec (Colname d) "").
Qed.

Lemma create_table_lowering_witness :
  exists table,
    @parseCreateTable plainLib postsCreate
      {| ctx_sql := twoLines; ctx_filename := "posts.lp.sql" |} 3 = Ok table /\
    Table_Schema table = "blog" /\
    map Column_Name (Table_Columns table) = ["id"; "title"] /\
    Table_SourceLocation table =
      Some {| Loc_File := "posts.lp.sql"; Loc_Line := 2; Loc_Column := 1 |}.
Proof.
  destruct (proj2 (proj2 (@create_table_lowering plainLib postsCreate
              {| ctx_sql := twoLines; ctx_filename := "posts.lp.sql" |} 3))
              {| Schemaname := "blog"; Relname := "posts" |} eq_refl)
    as (table & Hrun & _ & Hschema & Hnames & _ & _ & Hloc).
  - repeat constructor; discriminate.
  - exists table. split; [exact Hrun|]. split; [exact Hschema|].
    split; [exact Hnames|exact Hloc].
Defined.

(** ** The walk over the statements *)

Lemma parseCreateTable_Ok_iff {lib : GoLib} stmt ctx loc :
  (exists table, parseCreateTable stmt ctx loc = Ok table) <->
  Relation stmt <> None /\
  Forall Spec2.named (Spec2.columnDefs (TableElts stmt)).
Proof.
  rewrite parseCreateTable_spec. destruct (Relation stmt).
  - destruct (decide _); split.
    + done.
    + eauto.
    + by intros [? ?].
    + by intros [_ ?].
  - split; [by intros [? ?]|by intros [? _]].
Qed.

Lemma parseAlterTable_Ok_iff schema stmt :
  (exists schema', parseAlterTable schema stmt = Ok schema') <->
  AlterTable_Relation stmt <> None.
Proof.
  unfold parseAlterTable. destruct (AlterTable_Relation stmt).
  - destruct (findTable _ _ _ _); split; eauto.
  - split; [by intros [? ?]|done].
Qed.

Lemma lowerStmts_Ok_iff {lib : GoLib} ctx stmts : forall schema,
  (exists schema', lowerStmts stmts ctx schema = Ok schema') <->
  Forall Spec2.stmtAccepted stmts.
Proof.
  induction stmts as [|stmt stmts IH]; intros schema.
  - cbn. split; eauto.
  - rewrite Forall_cons. cbn [lowerStmts]. unfold Spec2.stmtAccepted at 1.
    destruct (Stmt stmt) as [node|]; [|rewrite IH; tauto].
    destruct node; try (rewrite IH; tauto).
    + rewrite <- (parseCreateTable_Ok_iff s ctx (StmtLocation stmt)).
      destruct (parseCreateTable s ctx (StmtLocation stmt)) as [table|msg].
      * rewrite IH. split; [intros ?; split; eauto|tauto].
      * split; [by intros [? ?]|by intros [[? ?] _]].
    + rewrite <- (parseAlterTable_Ok_iff schema).
      destruct (parseAlterTable schema s) as [altered|msg].
      * rewrite IH. split; [intros ?; split; eauto|tauto].
      * split; [by intros [? ?]|by intros [[? ?] _]].
Qed.

Lemma lowerStmts_errors {lib : GoLib} ctx stmts : forall schema msg,
  lowerStmts stmts ctx schema = Err msg -> In msg Spec2.loweringErrors.
Proof.
  induction stmts as [|stmt stmts IH]; intros schema msg; [done|].
  cbn [lowerStmts].
  destruct (Stmt stmt) as [node|]; [|apply IH].
  destruct node; try apply IH.
  - rewrite parseCreateTable_spec. destruct (Relation s).
    + destruct (decide _); [apply IH|]. intros [= <-]. cbn. tauto.
    + intros [= <-]. cbn. tauto.
  - unfold parseAlterTable. destruct (AlterTable_Relation s).
    + destruct (findTable _ _ _ _); apply IH.
    + intros [= <-]. cbn. tauto.
Qed.

Lemma createdTables_length {lib : GoLib} ctx stmts :
  Forall Spec2.stmtAccepted stmts ->
  length (createdTables stmts ctx) = length (List.filter Spec2.isCreate stmts).
Proof.
  induction 1 as [|stmt stmts Hstmt _ IH]; [done|].
  cbn [createdTables List.filter]. unfold Spec2.isCreate at 1.
  unfold Spec2.stmtAccepted in Hstmt.
  destruct (Stmt stmt) as [node|]; [|done]. destruct node; try done.
  apply (parseCreateTable_Ok_iff s ctx (StmtLocation stmt)) in Hstmt as [table Htable].
  rewrite Htable. cbn. by rewrite IH.
Qed.

Section Statements.
Context {lib : GoLib} {world : World}.

(** X4. Lowering of a file. When the parser rejects the text the result
    is its error behind "failed to parse SQL: ". When it delivers
    statements, lowering succeeds exactly when every CREATE TABLE has a
    relation and only named columns and every ALTER TABLE has a
    relation; statements of any other kind, and empty statements, are
    passed over. A failure is one of three fixed messages. On success
    the schema has the PostgreSQL dialect and exactly one table per
    CREATE TABLE statement -- none for a text without such a statement,
    the empty text included. *)
Theorem file_lowering (sql filename : string) :
  match pg_query_Parse sql with
  | Err parseErr =>
      parsePostgresSQLSchemaWithFilename sql filename
        = Err ("failed to parse SQL: " +:+ parseErr)
  | Ok stmts =>
      ((exists schema, parsePostgresSQLSchemaWithFilename sql filename = Ok schema)
       <-> Forall Spec2.stmtAccepted stmts) /\
      (forall msg, parsePostgresSQLSchemaWithFilename sql filename = Err msg ->
         In msg Spec2.loweringErrors) /\
      (forall schema, parsePostgresSQLSchemaWithFilename sql filename = Ok schema ->
         Schema_Dialect schema = DialectPostgres /\
         length (Tables schema) = length (List.filter Spec2.isCreate stmts))
  end.
Proof.
  unfold parsePostgresSQLSchemaWithFilename.
  destruct (pg_query_Parse sql) as [stmts|parseErr]; [|done].
  split_and!.
  - apply lowerStmts_Ok_iff.
  - apply lowerStmts_errors.
  - intros schema Hrun.
    assert (Hall : Forall Spec2.stmtAccepted stmts).
    { eapply lowerStmts_Ok_iff. eauto. }
    apply lowerStmts_order in Hrun as [Htables Hdialect].
    split; [done|].
    apply (f_equal length) in Htables. rewrite length_map in Htables.
    rewrite Htables. cbn. by apply createdTables_length.
Qed.

End Statements.

Lemma file_lowering_witness :
  (exists schema,
     @parsePostgresSQLSchemaWithFilename plainLib orderWorld "create-then-alter" "f" = Ok schema /\
     length (Tables schema) = 1%nat) /\
  @parsePostgresSQLSchemaWithFilename plainLib orderWorld "no-relation" "f"
    = Err "failed to parse CREATE TABLE: CREATE TABLE missing relation" /\
  @parsePostgresSQLSchemaWithFilename plainLib orderWorld "garbage" "f"
    = Err "failed to parse SQL: syntax error".
Proof.
  split; [|split].
  - pose proof (@file_lowering plainLib orderWorld "create-then-alter" "f") as H.
    cbn [pg_query_Parse orderWorld] in H.
    change (String.eqb "create-then-alter" "alter-then-create") with false in H.
    change (String.eqb "create-then-alter" "create-then-alter") with true in H.
    cbv iota in H. destruct H as (Hok & _ & Hlen).
    destruct (proj2 Hok) as [schema Hrun].
    + repeat constructor; cbn; try done; repeat constructor; discriminate.
    + exists schema. split; [exact Hrun|]. by destruct (Hlen schema Hrun).
  - reflexivity.
  - exact (@file_lowering plainLib orderWorld "garbage" "f").
Defined.

(** ** [ALTER TABLE]: unknown targets and repetition *)

Lemma findTable_None tables : forall i name sch,
  Forall (fun t => ~ (Table_Name t = name /\ effectiveSchema (Table_Schema t) = sch))
         tables ->
  findTable tables i name sch = None.
Proof.
  induction tables as [|t tables IH]; intros i name sch Hall; [done|].
  apply Forall_cons in Hall as [Ht Hall]. cbn.
  destruct (String.eqb_spec (Table_Name t) name);
    [destruct (String.eqb_spec (effectiveSchema (Table_Schema t)) sch)|];
    cbn; try tauto; by apply IH.
Qed.

Lemma findTable_alter (f : Table -> Table) idx tables : forall i name sch,
  (forall t, Table_Name (f t) = Table_Name t /\ Table_Schema (f t) = Table_Schema t) ->
  findTable (alter f idx tables) i name sch = findTable tables i name sch.
Proof.
  revert idx. induction tables as [|t tables IH]; intros idx i name sch Hf; [done|].
  destruct idx as [|idx]; cbn.
  - destruct (Hf t) as [-> ->]. done.
  - rewrite IH by done. done.
Qed.

Lemma finalFlag_last cmds : forall flag,
  Spec.finalFlag cmds (Spec.finalFlag cmds flag) = Spec.finalFlag cmds flag.
Proof.
  assert (Hcases : forall flag,
    (forall b, Spec.finalFlag cmds b = Spec.finalFlag cmds flag) \/
    (forall b, Spec.finalFlag cmds b = b)).
  { unfold Spec.finalFlag. induction cmds as [|cmd cmds IH]; intros flag.
    - by right.
    - cbn [fold_left].
      destruct cmd as [| | | | | | | | | |[[]]|];
        try (destruct (IH flag) as [H|H]; [left|right]; intros b; by rewrite ?H);
        left; intros b; reflexivity. }
  intros flag. destruct (Hcases flag) as [H|H]; by rewrite H.
Qed.

(** X5. An ALTER TABLE whose target no table of the schema has (by name
    and effective schema) is accepted and leaves the schema as it is.
    So ALTER TABLE statements that precede every CREATE TABLE of a text
    have no effect at all: a table created after the ALTER TABLE meant
    for it keeps its row-level-security flag off. *)
Theorem alter_unknown_target {lib : GoLib} :
  (forall schema (stmt : AlterTableStmt) relation,
     AlterTable_Relation stmt = Some relation ->
     Forall (fun t => ~ Spec.isTarget relation t) (Tables schema) ->
     parseAlterTable schema stmt = Ok schema) /\
  (forall ctx alters rest dialect,
     Forall Spec2.isAlter alters ->
     lowerStmts (alters ++ rest) ctx {| Tables := []; Schema_Dialect := dialect |}
       = lowerStmts rest ctx {| Tables := []; Schema_Dialect := dialect |}).
Proof.
  split.
  - intros schema stmt relation Hrel Hnone. unfold parseAlterTable.
    rewrite Hrel, findTable_None; [done|].
    eapply Forall_impl; [exact Hnone|]. intros t Ht. exact Ht.
  - intros ctx alters rest dialect Hall.
    induction Hall as [|stmt alters (alterStmt & relation & Hstmt & Hrel) _ IH];
      [done|].
    cbn [app lowerStmts]. rewrite Hstmt. unfold parseAlterTable. rewrite Hrel.
    cbn. exact IH.
Qed.

Lemma alter_unknown_target_witness :
  option_map (fun s => map Table_RLSEnabled (Tables s))
    (match @parsePostgresSQLSchemaWithFilename plainLib orderWorld "alter-then-create" "f" with
     | Ok s => Some s
     | Err _ => None
     end) = Some [false] /\
  option_map (fun s => map Table_RLSEnabled (Tables s))
    (match @parsePostgresSQLSchemaWithFilename plainLib orderWorld "create-then-alter" "f" with
     | Ok s => Some s
     | Err _ => None
     end) = Some [true].
Proof.
  split; [|reflexivity].
  unfold parsePostgresSQLSchemaWithFilename.
  change (@pg_query_Parse orderWorld "alter-then-create")
    with (Ok ([enableRLS "" "users"] ++ [simpleCreate "users" 40])).
  cbv iota beta.
  rewrite (proj2 (@alter_unknown_target plainLib)).
  - reflexivity.
  - repeat constructor. do 2 eexists. split; reflexivity.
Defined.

(** X6. Applying an ALTER TABLE statement a second time changes nothing:
    the schema it produced is its own result. *)
Theorem alter_idempotent (schema schema' : Schema) (stmt : AlterTableStmt) :
  parseAlterTable schema stmt = Ok schema' ->
  parseAlterTable schema' stmt = Ok schema'.
Proof.
  unfold parseAlterTable. destruct (AlterTable_Relation stmt) as [relation|]; [|done].
  destruct (findTable (Tables schema) _ _ _) as [idx|] eqn:Hfind.
  - intros [= <-]. cbn [Tables Schema_Dialect].
    rewrite applyAlterCmds, findTable_alter, Hfind by (intros t; by destruct t).
    f_equal. f_equal. rewrite applyAlterCmds, list_alter_alter_eq.
    apply list_alter_ext; [|done]. intros t _. cbn.
    rewrite finalFlag_last. by destruct t.
  - intros [= <-]. by rewrite Hfind.
Qed.

Lemma alter_idempotent_witness :
  exists schema',
    parseAlterTable sampleSchema sampleAlter = Ok schema' /\
    parseAlterTable schema' sampleAlter = Ok schema'.
Proof.
  destruct (parseAlterTable sampleSchema sampleAlter) as [schema'|] eqn:Hrun;
    [|discriminate Hrun].
  exists schema'. split; [reflexivity|].
  exact (alter_idempotent sampleSchema schema' sampleAlter Hrun).
Defined.

(** ** Rendering: canonical names and casts *)

Lemma typeMap_values_fixed {lib : GoLib} key canonical :
  typeMap !! key = Some canonical ->
  normalizePostgreSQLType canonical = canonical.
Proof.
  unfold typeMap. intros Hin%elem_of_list_to_map_2.
  eapply (Forall_forall (fun p : string * string =>
            normalizePostgreSQLType p.2 = p.2)) in Hin; [exact Hin|].
  repeat constructor.
Qed.

(** X7. Normalizing a type name twice gives the same as normalizing it
    once: every canonical name of the table is itself left unchanged by
    the normalizer, and a name outside the table is returned as it is. *)
Theorem normalize_idempotent {lib : GoLib} (pgType : string) :
  normalizePostgreSQLType (normalizePostgreSQLType pgType)
    = normalizePostgreSQLType pgType.
Proof.
  unfold normalizePostgreSQLType at 2 3.
  destruct (typeMap !! GoStrings.ToLower pgType) as [canonical|] eqn:Hlookup.
  - exact (typeMap_values_fixed _ _ Hlookup).
  - unfold normalizePostgreSQLType. by rewrite Hlookup.
Qed.

Lemma formatExprNode_stripCasts :
  forall n, formatExprNode (Spec2.stripCasts n) = formatExprNode n.
Proof.
  fix IH 1. intros n.
  destruct n as [| | |[names args]|[[arg|] ty]| | | | | | |]; try reflexivity.
  - cbn [Spec2.stripCasts Funcname Args formatExprNode].
    assert (Hargs : map formatExprNode (map Spec2.stripCasts args)
                    = map formatExprNode args).
    { induction args as [|a args IHargs]; [reflexivity|].
      cbn [map]. rewrite IH, IHargs. reflexivity. }
    rewrite Hargs. reflexivity.
  - cbn [Spec2.stripCasts Arg formatExprNode]. apply IH.
Qed.

(** X8. Type casts are invisible in rendered expressions at every depth:
    an expression and the same expression with all its casts removed,
    also those inside the arguments of function calls, render to the
    same text. *)
Theorem casts_transparent (node : Node) :
  formatExpr (Some (Spec2.stripCasts node)) = formatExpr (Some node).
Proof. cbn [formatExpr]. apply formatExprNode_stripCasts. Qed.

(** ** What the duplicate validators accept *)

Lemma occurrences_nil key tables : forall i,
  key ∉ map tableKey tables -> Spec.occurrences key tables i = [].
Proof.
  induction tables as [|t tables IH]; intros i Hnot; [done|].
  cbn in *. apply not_elem_of_cons in Hnot as [Hne Hnot].
  destruct (String.eqb_spec (tableKey t) key); [congruence|]. by apply IH.
Qed.

Lemma occurrences_nonempty key tables : forall i,
  key ∈ map tableKey tables -> Spec.occurrences key tables i <> [].
Proof.
  induction tables as [|t tables IH]; intros i Hin; [by apply elem_of_nil in Hin|].
  cbn in *. destruct (String.eqb_spec (tableKey t) key); [done|].
  apply elem_of_cons in Hin as [?|Hin]; [congruence|]. by apply IH.
Qed.

Lemma keys_NoDup_occurrences tables : forall i,
  NoDup (map tableKey tables) <->
  forall key, (length (Spec.occurrences key tables i) <= 1)%nat.
Proof.
  induction tables as [|t tables IH]; intros i.
  - split; [intros _ key; cbn; lia|constructor].
  - cbn [map Spec.occurrences]. rewrite NoDup_cons. split.
    + intros [Hnot Hnodup] key.
      destruct (String.eqb_spec (tableKey t) key) as [<-|Hne].
      * rewrite occurrences_nil by done. cbn. lia.
      * by apply IH.
    + intros Hall. split.
      * intros Hin. specialize (Hall (tableKey t)).
        rewrite String.eqb_refl in Hall. cbn in Hall.
        pose proof (occurrences_nonempty _ _ (S i) Hin).
        destruct (Spec.occurrences (tableKey t) tables (S i)); [done|cbn in Hall; lia].
      * apply (IH (S i)). intros key. specialize (Hall key).
        destruct (String.eqb (tableKey t) key); cbn in Hall; lia.
Qed.

Section Accept.
Context {lib : GoLib} {order : MapOrder tableInfo}.

Lemma duplicateGroups_nil_iff schema :
  duplicateGroups schema = [] <-> NoDup (map tableKey (Tables schema)).
Proof.
  rewrite (keys_NoDup_occurrences _ 0). split.
  - intros Hnil key.
    destruct (decide (1 < length (Spec.occurrences key (Tables schema) 0))%nat)
      as [Hlen|]; [|lia].
    assert (Hin : (key, Spec.occurrences key (Tables schema) 0)
                  ∈ duplicateGroups schema) by by apply duplicateGroups_elem.
    rewrite Hnil in Hin. by apply elem_of_nil in Hin.
  - intros Hall. destruct (duplicateGroups schema) as [|[key idxs] groups] eqn:Hg;
      [done|].
    assert (Hin : (key, idxs) ∈ duplicateGroups schema) by (rewrite Hg; left).
    apply duplicateGroups_elem in Hin as [-> Hlen]. specialize (Hall key). lia.
Qed.

Lemma validate_None_iff schema :
  validateNoDuplicateTables schema = None <-> NoDup (map tableKey (Tables schema)).
Proof. by rewrite errorMessage_None_iff, duplicateGroups_nil_iff. Qed.

Lemma diagnostics_nil_NoDup schema :
  ValidateDuplicateTablesAsDiagnostics schema = [] <->
  NoDup (map tableKey (Tables schema)).
Proof. by rewrite diagnostics_nil_iff, duplicateGroups_nil_iff. Qed.

End Accept.

(** *** Keys and qualified names *)

Lemma dotted_split (s1 s2 n1 n2 : string) :
  Spec2.dotFree s1 -> Spec2.dotFree s2 ->
  s1 +:+ "." +:+ n1 = s2 +:+ "." +:+ n2 -> s1 = s2 /\ n1 = n2.
Proof.
  unfold Spec2.dotFree.
  change ("." +:+ n1) with (String "." n1). change ("." +:+ n2) with (String "." n2).
  revert s2.
  induction s1 as [|c s1 IH]; intros [|c' s2] H1 H2 Heq.
  - change (String "." n1 = String "." n2) in Heq. by injection Heq as ->.
  - change (String "." n1 = String c' (s2 +:+ String "." n2)) in Heq.
    injection Heq as <- _. cbn in H2. done.
  - change (String c (s1 +:+ String "." n1) = String "." n2) in Heq.
    injection Heq as -> _. cbn in H1. done.
  - rewrite !append_cons in Heq. injection Heq as -> Heq.
    cbn in H1, H2.
    apply andb_true_iff in H1 as [_ H1]. apply andb_true_iff in H2 as [_ H2].
    destruct (IH s2 H1 H2 Heq) as [-> ->]. done.
Qed.

Lemma dotFree_effective s : Spec2.dotFree s -> Spec2.dotFree (effectiveSchema s).
Proof. unfold effectiveSchema. by destruct (String.eqb s ""). Qed.

Lemma NoDup_map_equiv {A B C} (f : A -> B) (g : A -> C) (l : list A) :
  (forall x y, x ∈ l -> y ∈ l -> f x = f y <-> g x = g y) ->
  NoDup (map f l) <-> NoDup (map g l).
Proof.
  induction l as [|x l IH]; intros Hfg; [split; constructor|].
  cbn. rewrite !NoDup_cons, IH.
  - assert (Hin : f x ∈ map f l <-> g x ∈ map g l); [|by rewrite Hin].
    change (map f l) with (f <$> l). change (map g l) with (g <$> l).
    rewrite !list_elem_of_fmap. split; intros (y & Hy & Hin); exists y; split; try done.
    + apply Hfg; [left|by right|done].
    + apply Hfg; [left|by right|done].
  - intros y z Hy Hz. apply Hfg; by right.
Qed.

(** X9. Exactness of duplicate detection. Both validators accept a
    schema exactly when the keys "schema.name" of its tables are pairwise
    different. When no stored schema name contains a dot this is the same
    as: the pairs (effective schema, table name) are pairwise different;
    so then a duplicate is reported if and only if two tables really
    have the same schema-qualified name. *)
Theorem duplicates_exact {lib : GoLib} {order : MapOrder tableInfo} (schema : Schema) :
  (validateNoDuplicateTables schema = None <->
   NoDup (map tableKey (Tables schema))) /\
  (ValidateDuplicateTablesAsDiagnostics schema = [] <->
   NoDup (map tableKey (Tables schema))) /\
  (Forall (fun t => Spec2.dotFree (Table_Schema t)) (Tables schema) ->
   (validateNoDuplicateTables schema = None <->
    NoDup (map Spec2.qualifiedName (Tables schema))) /\
   (ValidateDuplicateTablesAsDiagnostics schema = [] <->
    NoDup (map Spec2.qualifiedName (Tables schema)))).
Proof.
  split; [apply validate_None_iff|]. split; [apply diagnostics_nil_NoDup|].
  intros Hdots.
  assert (Hequiv : NoDup (map tableKey (Tables schema)) <->
                   NoDup (map Spec2.qualifiedName (Tables schema))).
  { apply NoDup_map_equiv. intros x y Hx Hy.
    rewrite Forall_forall in Hdots. unfold tableKey, Spec2.qualifiedName. split.
    - intros Heq. apply dotted_split in Heq as [-> ->]; [done|..];
        apply dotFree_effective; by apply Hdots.
    - by intros [= -> ->]. }
  by rewrite validate_None_iff, diagnostics_nil_NoDup, Hequiv.
Qed.

Lemma duplicates_exact_witness :
  @validateNoDuplicateTables plainLib listOrder sampleSchema <> None /\
  ~ NoDup (map Spec2.qualifiedName (Tables sampleSchema)).
Proof.
  assert (Hdots : Forall (fun t => Spec2.dotFree (Table_Schema t)) (Tables sampleSchema))
    by (repeat constructor).
  destruct (proj2 (proj2 (@duplicates_exact plainLib listOrder sampleSchema)) Hdots)
    as [Hiff _].
  assert (Hsome : @validateNoDuplicateTables plainLib listOrder sampleSchema <> None)
    by (vm_compute; discriminate).
  split; [exact Hsome|]. intros Hnodup. apply Hsome, Hiff, Hnodup.
Defined.

(** ** The loader and the check pipeline agree *)

Section Agree.
Context {lib : GoLib} {world : World} {order : MapOrder tableInfo}.

Lemma loadBytes_iff data file schema :
  loadSQLSchemaFromBytesWithFilename data file = Ok schema <->
  ParseSQLSchemaWithDialectAndFilename data DialectPostgres file = Ok schema /\
  NoDup (map tableKey (Tables schema)).
Proof.
  unfold loadSQLSchemaFromBytesWithFilename. rewrite <- validate_None_iff.
  destruct (ParseSQLSchemaWithDialectAndFilename data DialectPostgres file)
    as [parsed|]; [|split; [done|by intros [? _]]].
  destruct (validateNoDuplicateTables parsed) eqn:Hvalid.
  - split; [done|]. intros [[= ->] Hnone]. congruence.
  - split; [by intros [= <-]|by intros [[= ->] _]].
Qed.

Lemma loadFilesWithoutValidation_extends files : forall allTables result,
  loadFilesWithoutValidation files allTables = Ok result ->
  exists more, result = allTables ++ more.
Proof.
  induction files as [|file files IH]; intros allTables result;
    cbn [loadFilesWithoutValidation].
  - intros [= <-]. exists []. by rewrite app_nil_r.
  - destruct (os_ReadFile file) as [data|]; [|done].
    destruct (ParseSQLSchemaWithDialectAndFilename data DialectPostgres file)
      as [schema|]; [|done].
    intros [more ->]%IH. exists (Tables schema ++ more). by rewrite app_assoc.
Qed.

Lemma loadFiles_validated files : forall allTables result,
  loadFiles files allTables = Ok result ->
  loadFilesWithoutValidation files allTables = Ok result.
Proof.
  induction files as [|file files IH]; intros allTables result;
    cbn [loadFiles loadFilesWithoutValidation]; [done|].
  destruct (os_ReadFile file) as [data|]; [|done].
  destruct (loadSQLSchemaFromBytesWithFilename data file) as [schema|] eqn:Hload;
    [|done].
  apply loadBytes_iff in Hload as [-> _]. apply IH.
Qed.

Lemma loadFiles_unvalidated files : forall allTables result,
  loadFilesWithoutValidation files allTables = Ok result ->
  NoDup (map tableKey result) ->
  loadFiles files allTables = Ok result.
Proof.
  induction files as [|file files IH]; intros allTables result;
    cbn [loadFiles loadFilesWithoutValidation]; [done|].
  destruct (os_ReadFile file) as [data|]; [|done].
  destruct (ParseSQLSchemaWithDialectAndFilename data DialectPostgres file)
    as [schema|] eqn:Hparse; [|done].
  intros Hrest Hnodup.
  assert (Hload : loadSQLSchemaFromBytesWithFilename data file = Ok schema).
  { apply loadBytes_iff. split; [done|].
    apply loadFilesWithoutValidation_extends in Hrest as [more ->].
    rewrite !map_app in Hnodup.
    apply NoDup_app in Hnodup as [Hnodup _].
    by apply NoDup_app in Hnodup as (_ & _ & Hnodup). }
  rewrite Hload. by apply IH.
Qed.

Local Ltac failed_iff := split; [done | by intros [? _]].

Lemma LoadSchema_iff path schema :
  LoadSchema path = Ok schema <->
  loadSchemaWithoutValidation path = Ok schema /\
  NoDup (map tableKey (Tables schema)).
Proof.
  unfold LoadSchema, loadSchemaWithoutValidation.
  destruct (os_Stat path) as [[]|].
  - unfold loadSchemaFromDir, loadSchemaFromDirWithoutValidation.
    destruct (os_ReadDir path) as [entries|]; [|failed_iff].
    destruct (collectSQLFiles path entries) as [|f fs]; [failed_iff|].
    split.
    + destruct (loadFiles _ _) as [allTables|] eqn:Hload; [|done].
      apply loadFiles_validated in Hload. rewrite Hload.
      destruct (validateNoDuplicateTables _) eqn:Hvalid; [done|].
      intros [= <-]. split; [done|]. by apply validate_None_iff in Hvalid.
    + destruct (loadFilesWithoutValidation _ _) as [allTables|] eqn:Hload;
        [|by intros [? _]].
      intros [[= <-] Hnodup]. cbn [Tables] in Hnodup.
      rewrite (loadFiles_unvalidated _ _ _ Hload Hnodup).
      apply (validate_None_iff
               {| Tables := allTables; Schema_Dialect := DialectPostgres |}) in Hnodup.
      by rewrite Hnodup.
  - destruct (GoStrings.HasSuffix _ _); [|failed_iff].
    unfold loadSQLSchema, loadSQLSchemaWithoutValidation.
    destruct (os_ReadFile path) as [data|]; [|failed_iff].
    rewrite loadBytes_iff.
    destruct (ParseSQLSchemaWithDialectAndFilename data DialectPostgres path);
      [done|split; by intros [? _]].
  - failed_iff.
Qed.

Lemma checkOutput_valid_iff path :
  (exists schema, LoadSchema path = Ok schema) <->
  Valid (Output_Summary (checkOutput path)) = true.
Proof.
  unfold checkOutput. split.
  - intros [schema [Hload Hnodup]%LoadSchema_iff]. rewrite Hload.
    apply diagnostics_nil_NoDup in Hnodup. by rewrite Hnodup.
  - destruct (loadSchemaWithoutValidation path) as [schema|] eqn:Hload; [|done].
    rewrite fold_appendError. cbn.
    destruct (ValidateDuplicateTablesAsDiagnostics schema) eqn:Hdiag; [|done].
    intros _. exists schema. apply LoadSchema_iff. split; [done|].
    by apply diagnostics_nil_NoDup.
Qed.

(** X10. The loader and the check pipeline accept the same inputs. The
    loader returns a schema for a path exactly when the load without
    validation returns that schema and the keys of its tables are
    pairwise different; in particular the per-file checks of the
    directory loader never reject anything the check of the whole would
    accept. So the report of the check pipeline is valid exactly when
    the loader succeeds, and then it is the empty report. *)
Theorem check_agrees_with_load (path : string) :
  (forall schema,
     LoadSchema path = Ok schema <->
     loadSchemaWithoutValidation path = Ok schema /\
     NoDup (map tableKey (Tables schema))) /\
  ((exists schema, LoadSchema path = Ok schema) <->
   Valid (Output_Summary (checkOutput path)) = true) /\
  (forall schema, LoadSchema path = Ok schema -> checkOutput path = NewCheckOutput).
Proof.
  split; [apply LoadSchema_iff|]. split.
  - apply checkOutput_valid_iff.
  - intros schema [Hload Hnodup]%LoadSchema_iff. unfold checkOutput. rewrite Hload.
    apply diagnostics_nil_NoDup in Hnodup. by rewrite Hnodup.
Qed.

End Agree.

Lemma check_agrees_with_load_witness :
  @checkOutput plainLib demoWorld listOrder "schema" = NewCheckOutput.
Proof.
  destruct (@LoadSchema plainLib demoWorld listOrder "schema") as [schema|] eqn:Hrun;
    [|vm_compute in Hrun; discriminate Hrun].
  exact (proj2 (proj2 (@check_agrees_with_load plainLib demoWorld listOrder "schema"))
           schema Hrun).
Defined.

(** ** What the two validators say about a duplicated key *)

Lemma contains_refl s : Spec2.contains s s.
Proof. exists "", "". by rewrite append_empty_r. Qed.

Lemma contains_trans a b c :
  Spec2.contains a b -> Spec2.contains b c -> Spec2.contains a c.
Proof.
  intros (b1 & b2 & ->) (c1 & c2 & ->). exists (b1 +:+ c1), (c2 +:+ b2).
  by rewrite !append_assoc.
Qed.

Lemma contains_append_l a b c : Spec2.contains a c -> Spec2.contains (a +:+ b) c.
Proof.
  intros (c1 & c2 & ->). exists c1, (c2 +:+ b). by rewrite !append_assoc.
Qed.

Lemma contains_append_r a b c : Spec2.contains b c -> Spec2.contains (a +:+ b) c.
Proof.
  intros (c1 & c2 & ->). exists (a +:+ c1), c2. by rewrite !append_assoc.
Qed.

Lemma Join_contains sep x l : x ∈ l -> Spec2.contains (GoStrings.Join l sep) x.
Proof.
  unfold GoStrings.Join. induction l as [|y l IH]; [by intros ?%elem_of_nil|].
  intros Hin. destruct l as [|z l].
  - apply list_elem_of_singleton in Hin as ->. apply contains_refl.
  - change (String.concat sep (y :: z :: l))
      with (y +:+ sep +:+ String.concat sep (z :: l)).
    apply elem_of_cons in Hin as [->|Hin].
    + apply contains_append_l, contains_refl.
    + apply contains_append_r, contains_append_r, IH, Hin.
Qed.

Lemma occurrenceLocations_elem tables idxs j t loc :
  j ∈ idxs -> tables !! j = Some t -> Table_SourceLocation t = Some loc ->
  Loc_File loc <> "" ->
  (Loc_File loc +:+ ":" +:+ GoStrings.FormatInt (Loc_Line loc)
     +:+ ":" +:+ GoStrings.FormatInt (Loc_Column loc))
    ∈ occurrenceLocations tables idxs.
Proof.
  intros Hin Ht Hloc Hfile. induction idxs as [|idx idxs IH];
    [by apply elem_of_nil in Hin|].
  cbn [occurrenceLocations]. apply elem_of_cons in Hin as [<-|Hin].
  - rewrite Ht. apply elem_of_app. left. unfold occurrenceLocation. rewrite Hloc.
    destruct (String.eqb_spec (Loc_File loc) ""); [done|]. cbn. left.
  - destruct (tables !! idx); [apply elem_of_app; right|]; by apply IH.
Qed.

Section Messages.
Context {lib : GoLib} {order : MapOrder tableInfo}.

Lemma duplicateErrorMessage_prefix tables key idxs :
  exists rest,
    duplicateErrorMessage tables key idxs =
    ("table " +:+ strconv_Quote key +:+ " is defined multiple times") +:+ rest.
Proof.
  unfold duplicateErrorMessage. destruct (occurrenceLocations tables idxs).
  - exists "". by rewrite append_empty_r.
  - eexists (" at: " +:+ _). rewrite !append_assoc. reflexivity.
Qed.

(** X11. Content of the hard-fail error. When the hard-fail validator
    rejects a schema, its message names every duplicated key: for each
    key that more than one table has it contains the text
    [table "key" is defined multiple times] (the key quoted by %q), and
    it contains the text file:line:column of every table with that key
    whose source location has a file. It rejects exactly when there is
    such a key. *)
Theorem hard_fail_message (schema : Schema) :
  (validateNoDuplicateTables schema <> None <->
   exists key, (1 < length (Spec.occurrences key (Tables schema) 0))%nat) /\
  (forall msg key,
     validateNoDuplicateTables schema = Some msg ->
     (1 < length (Spec.occurrences key (Tables schema) 0))%nat ->
     Spec2.contains msg
       ("table " +:+ strconv_Quote key +:+ " is defined multiple times") /\
     forall j t loc,
       Tables schema !! j = Some t -> tableKey t = key ->
       Table_SourceLocation t = Some loc -> Loc_File loc <> "" ->
       Spec2.contains msg
         (Loc_File loc +:+ ":" +:+ GoStrings.FormatInt (Loc_Line loc)
            +:+ ":" +:+ GoStrings.FormatInt (Loc_Column loc))).
Proof.
  split.
  - rewrite errorMessage_None_iff. split.
    + destruct (duplicateGroups schema) as [|[key idxs] groups] eqn:Hg; [done|].
      intros _. exists key.
      assert (Hin : (key, idxs) ∈ duplicateGroups schema) by (rewrite Hg; left).
      by apply duplicateGroups_elem in Hin as [-> ?].
    + intros [key Hlen] Hnil.
      assert (Hin : (key, Spec.occurrences key (Tables schema) 0)
                    ∈ duplicateGroups schema) by by apply duplicateGroups_elem.
      rewrite Hnil in Hin. by apply elem_of_nil in Hin.
  - intros msg key Hrun Hlen. rewrite errorMessage_of_groups in Hrun.
    assert (Hin : (key, Spec.occurrences key (Tables schema) 0)
                  ∈ duplicateGroups schema) by by apply duplicateGroups_elem.
    assert (Hmsg : Spec2.contains msg
              (duplicateErrorMessage (Tables schema) key
                 (Spec.occurrences key (Tables schema) 0))).
    { destruct (map _ (duplicateGroups schema)) as [|m ms] eqn:Hmap; [done|].
      injection Hrun as <-. apply (Join_contains "; " _ (m :: ms)). rewrite <- Hmap.
      change (map ?f ?l) with (f <$> l). apply list_elem_of_fmap.
      by exists (key, Spec.occurrences key (Tables schema) 0). }
    split.
    + eapply contains_trans; [exact Hmsg|].
      destruct (duplicateErrorMessage_prefix (Tables schema) key
                  (Spec.occurrences key (Tables schema) 0)) as [rest ->].
      apply contains_append_l, contains_refl.
    + intros j t loc Hj Hkey Hloc Hfile.
      eapply contains_trans; [exact Hmsg|].
      assert (Hocc : j ∈ Spec.occurrences key (Tables schema) 0).
      { apply occurrences_elem. exists t. rewrite Nat.sub_0_r. auto with lia. }
      pose proof (occurrenceLocations_elem _ _ _ _ _ Hocc Hj Hloc Hfile) as Hl.
      unfold duplicateErrorMessage.
      destruct (occurrenceLocations (Tables schema) _) as [|l0 ls] eqn:Hlocs;
        [by apply elem_of_nil in Hl|].
      do 3 apply contains_append_r. by apply Join_contains.
Qed.

End Messages.

Lemma hard_fail_message_witness :
  Spec2.contains
    (default "" (@validateNoDuplicateTables plainLib listOrder sampleSchema))
    ("table " +:+ @strconv_Quote plainLib "public.users"
       +:+ " is defined multiple times") /\
  Spec2.contains
    (default "" (@validateNoDuplicateTables plainLib listOrder sampleSchema))
    "b.lp.sql:1:1".
Proof.
  destruct (@validateNoDuplicateTables plainLib listOrder sampleSchema)
    as [msg|] eqn:Hrun; [|vm_compute in Hrun; discriminate Hrun].
  destruct (proj2 (@hard_fail_message plainLib listOrder sampleSchema)
              msg "public.users" Hrun) as [Hkey Hlocs].
  - vm_compute. lia.
  - split; [exact Hkey|].
    exact (Hlocs 2%nat (sampleTable "public" "users" "b.lp.sql" 1)
             {| Loc_File := "b.lp.sql"; Loc_Line := 1; Loc_Column := 1 |}
             eq_refl eq_refl eq_refl ltac:(discriminate)).
Defined.

(** ** The diagnostics of a key with several tables *)

Section Blocks.
Context {lib : GoLib} {order : MapOrder tableInfo}.

Lemma occurrenceDiagnostics_imap tables key idxs ts : forall i,
  Forall2 (fun idx t => tables !! idx = Some t) idxs ts ->
  occurrenceDiagnostics tables key i idxs =
  imap (fun p t => occurrenceDiagnostic key (i + p) t) ts.
Proof.
  intros i Hall. revert i.
  induction Hall as [|idx t idxs ts Ht _ IH]; intros i; [done|].
  cbn [occurrenceDiagnostics imap]. rewrite Ht, Nat.add_0_r. f_equal.
  rewrite IH. apply imap_ext. intros p t' _. cbn. f_equal. lia.
Qed.

Lemma occurrences_tables key tables :
  exists ts,
    Forall2 (fun idx t => tables !! idx = Some t)
            (Spec.occurrences key tables 0) ts /\
    Forall (fun t => tableKey t = key) ts.
Proof.
  assert (Hall : Forall (fun idx => exists t, tables !! idx = Some t /\ tableKey t = key)
                        (Spec.occurrences key tables 0)).
  { apply Forall_forall. intros idx (t & _ & Ht & Hk)%occurrences_elem.
    rewrite Nat.sub_0_r in Ht. eauto. }
  induction Hall as [|idx idxs (t & Ht & Hk) _ (ts & Hts & Hkeys)].
  - exists []. split; constructor.
  - exists (t :: ts). split; constructor; done.
Qed.

Lemma flat_map_length_not_one {A B} (f : A -> list B) (l : list A) :
  Forall (fun x => (1 < length (f x))%nat) l -> length (flat_map f l) <> 1%nat.
Proof.
  intros Hall. destruct Hall as [|x l Hx _]; cbn; [done|].
  rewrite length_app. lia.
Qed.

Lemma Forall2_imap {A B} (P : A -> B -> Prop) (g : nat -> A -> B) (l : list A) :
  (forall p x, P x (g p x)) -> Forall2 P l (imap g l).
Proof.
  intros Hg. revert g Hg. induction l as [|x l IH]; intros g Hg; [constructor|].
  cbn [imap]. constructor; [apply Hg|]. apply IH. intros p y. apply Hg.
Qed.

(** X12. Diagnostics of a duplicated key. For a key that n > 1 tables
    have, the diagnostics hold one contiguous run of n diagnostics, one
    per table with that key, in schema order. The message of the first
    is the text Table, the quoted key and "is defined multiple times
    (first occurrence)"; the message of each of the others is the text
    Table, the quoted key and "is already defined (duplicate
    definition)". Each has severity error and the file, line and column
    of the source location of its own table. The output consists of such
    runs only, so it never has exactly one diagnostic. *)
Theorem duplicate_runs (schema : Schema) :
  (forall key,
     (1 < length (Spec.occurrences key (Tables schema) 0))%nat ->
     exists before after first others,
       ValidateDuplicateTablesAsDiagnostics schema =
         before ++ (occurrenceDiagnostic key 0 first
                      :: imap (fun p t => occurrenceDiagnostic key (S p) t) others)
                ++ after /\
       Forall2 (fun idx t => Tables schema !! idx = Some t)
               (Spec.occurrences key (Tables schema) 0) (first :: others) /\
       Forall (fun t => tableKey t = key) (first :: others) /\
       Diag_Message (occurrenceDiagnostic key 0 first) =
         "Table " +:+ strconv_Quote key
         +:+ " is defined multiple times (first occurrence)" /\
       Forall (fun d => Diag_Message d =
                 "Table " +:+ strconv_Quote key
                 +:+ " is already defined (duplicate definition)")
              (imap (fun p t => occurrenceDiagnostic key (S p) t) others) /\
       Forall2 (fun t d =>
                  Diag_Severity d = "error" /\
                  forall loc, Table_SourceLocation t = Some loc ->
                    Diag_File d = Loc_File loc /\ Diag_Line d = Loc_Line loc /\
                    Diag_Column d = Loc_Column loc)
               (first :: others)
               (occurrenceDiagnostic key 0 first
                  :: imap (fun p t => occurrenceDiagnostic key (S p) t) others)) /\
  length (ValidateDuplicateTablesAsDiagnostics schema) <> 1%nat.
Proof.
  split.
  - intros key Hlen.
    assert (Hin : (key, Spec.occurrences key (Tables schema) 0)
                  ∈ duplicateGroups schema) by by apply duplicateGroups_elem.
    apply list_elem_of_split in Hin as (g1 & g2 & Hg).
    destruct (occurrences_tables key (Tables schema)) as (ts & Hts & Hkeys).
    destruct ts as [|first others].
    { apply Forall2_length in Hts. cbn in Hts. lia. }
    eexists _, _, first, others. split_and!; try done.
    + rewrite diagnostics_of_groups, Hg, flat_map_app. cbn [flat_map].
      rewrite (occurrenceDiagnostics_imap _ _ _ _ 0 Hts). cbn [imap]. reflexivity.
    + exact (proj1 (occurrenceDiagnostic_fields key 0 first)).
    + apply Forall_forall. intros d Hd.
      apply list_elem_of_lookup in Hd as [p Hd].
      rewrite list_lookup_imap in Hd.
      destruct (others !! p) as [t|]; [|done]. injection Hd as <-.
      exact (proj1 (occurrenceDiagnostic_fields key (S p) t)).
    + change (occurrenceDiagnostic key 0 first
                :: imap (fun p t => occurrenceDiagnostic key (S p) t) others)
        with (imap (fun p t => occurrenceDiagnostic key p t) (first :: others)).
      apply Forall2_imap. intros p t.
      destruct (occurrenceDiagnostic_fields key p t) as (_ & Hsev & Hloc & _).
      split; [exact Hsev | exact Hloc].
  - rewrite diagnostics_of_groups. apply flat_map_length_not_one.
    apply Forall_forall. intros [key idxs] Hin.
    rewrite (group_diagnostics_length _ _ _ Hin).
    by apply duplicateGroups_elem in Hin as [_ ?].
Qed.

End Blocks.

Lemma duplicate_runs_witness :
  exists before after first others,
    @ValidateDuplicateTablesAsDiagnostics plainLib listOrder sampleSchema =
      before ++ (@occurrenceDiagnostic plainLib "public.users" 0 first
                   :: imap (fun p t => @occurrenceDiagnostic plainLib "public.users" (S p) t)
                           others)
             ++ after /\
    length others = 1%nat /\
    Diag_Message (@occurrenceDiagnostic plainLib "public.users" 0 first) =
      "Table " +:+ dquote +:+ "public.users" +:+ dquote
      +:+ " is defined multiple times (first occurrence)".
Proof.
  destruct (proj1 (@duplicate_runs plainLib listOrder sampleSchema) "public.users")
    as (before & after & first & others & Hrun & Hts & _ & Hfirst & _).
  - vm_compute. lia.
  - exists before, after, first, others. split; [exact Hrun|]. split; [|exact Hfirst].
    apply Forall2_length in Hts.
    change (length (Spec.occurrences "public.users" (Tables sampleSchema) 0))
      with 2%nat in Hts.
    cbn [length] in Hts. lia.
Defined.

(** ** Positions and source locations *)

Lemma scanLines_ge s : forall n line column,
  fst (scanLines s n line column) > line \/
  (fst (scanLines s n line column) = line /\
   snd (scanLines s n line column) >= column).
Proof.
  induction s as [|c s IH]; intros [|n] line column; cbn; try lia.
  destruct (Ascii.eqb c newline).
  - destruct (IH n (line + 1) 1); lia.
  - destruct (IH n line (column + 1)); lia.
Qed.

Lemma scanLines_positive s : forall n line column,
  1 <= line -> 1 <= column ->
  1 <= fst (scanLines s n line column) /\ 1 <= snd (scanLines s n line column).
Proof.
  induction s as [|c s IH]; intros [|n] line column Hl Hc; cbn; try lia.
  destruct (Ascii.eqb c newline); apply IH; lia.
Qed.

Lemma scanLines_increasing s : forall n m line column,
  (n < m <= String.length s)%nat ->
  Spec2.positionBefore (scanLines s n line column) (scanLines s m line column).
Proof.
  unfold Spec2.positionBefore.
  induction s as [|c s IH]; intros n m line column Hnm; cbn in Hnm; [lia|].
  destruct m as [|m]; [lia|]. destruct n as [|n].
  - cbn. destruct (Ascii.eqb c newline).
    + destruct (scanLines_ge s m (line + 1) 1); lia.
    + destruct (scanLines_ge s m line (column + 1)); lia.
  - cbn. destruct (Ascii.eqb c newline); apply IH; lia.
Qed.

Lemma byteOffsetToLineColumn_positive sql offset :
  1 <= fst (byteOffsetToLineColumn sql offset) /\
  1 <= snd (byteOffsetToLineColumn sql offset).
Proof.
  unfold byteOffsetToLineColumn. destruct (_ || _)%bool; [cbn; lia|].
  apply scanLines_positive; lia.
Qed.

(** X13. Positions follow the offsets. For two offsets within one text,
    the smaller one gets the earlier position: an earlier line, or the
    same line and a smaller column. So different offsets within the text
    never get the same line and column. *)
Theorem positions_increase (sql : string) (a b : Z) :
  0 <= a -> a < b -> b <= Z.of_nat (String.length sql) ->
  Spec2.positionBefore (byteOffsetToLineColumn sql a) (byteOffsetToLineColumn sql b) /\
  byteOffsetToLineColumn sql a <> byteOffsetToLineColumn sql b.
Proof.
  intros Ha Hab Hb.
  assert (Hbefore : Spec2.positionBefore (byteOffsetToLineColumn sql a)
                                         (byteOffsetToLineColumn sql b)).
  { unfold byteOffsetToLineColumn.
    replace (a <? 0) with false by lia. replace (b <? 0) with false by lia.
    replace (Z.of_nat (String.length sql) <? a) with false by lia.
    replace (Z.of_nat (String.length sql) <? b) with false by lia.
    cbn [orb]. apply scanLines_increasing. lia. }
  split; [exact Hbefore|]. intros Heq. rewrite Heq in Hbefore.
  unfold Spec2.positionBefore in Hbefore. lia.
Qed.

Lemma positions_increase_witness :
  Spec2.positionBefore (byteOffsetToLineColumn twoLines 2)
                       (byteOffsetToLineColumn twoLines 3).
Proof.
  refine (proj1 (positions_increase twoLines 2 3 _ _ _)).
  - lia.
  - lia.
  - vm_compute. discriminate.
Defined.

(** *** Where the tables of a loaded schema come from *)

Lemma createdTables_located {lib : GoLib} ctx stmts :
  Forall (Spec2.locatedIn (ctx_filename ctx)) (createdTables stmts ctx).
Proof.
  induction stmts as [|stmt stmts IH]; [constructor|].
  cbn [createdTables]. destruct (Stmt stmt) as [node|]; [|done].
  destruct node; try done.
  destruct (parseCreateTable s ctx (StmtLocation stmt)) as [table|] eqn:Hcreate;
    [|done].
  constructor; [|done]. rewrite parseCreateTable_spec in Hcreate.
  destruct (Relation s); [|done]. destruct (decide _); [|done].
  injection Hcreate as <-. eexists. split; [reflexivity|]. cbn.
  split; [done|]. apply byteOffsetToLineColumn_positive.
Qed.

Lemma locatedIn_flag file t :
  Spec2.locatedIn file (Table_setRLSEnabled false t) -> Spec2.locatedIn file t.
Proof. by destruct t. Qed.

Lemma lowered_located {lib : GoLib} `{World} sql filename schema :
  parsePostgresSQLSchemaWithFilename sql filename = Ok schema ->
  Forall (Spec2.locatedIn filename) (Tables schema).
Proof.
  unfold parsePostgresSQLSchemaWithFilename.
  destruct (pg_query_Parse sql) as [stmts|]; [|done].
  intros [Htables _]%lowerStmts_order. cbn in Htables.
  pose proof (createdTables_located {| ctx_sql := sql; ctx_filename := filename |} stmts)
    as Hall.
  rewrite <- Htables in Hall. cbn in Hall.
  apply Forall_forall. intros t Ht. apply locatedIn_flag.
  rewrite Forall_forall in Hall. apply Hall.
  change (map ?f ?l) with (f <$> l). apply list_elem_of_fmap. by exists t.
Qed.

Lemma Forall_map_inv {A B} (f : A -> B) (P : B -> Prop) (l : list A) :
  Forall P (map f l) -> Forall (fun x => P (f x)) l.
Proof.
  induction l as [|x l IH]; cbn; [constructor|].
  intros [? ?]%Forall_cons. constructor; auto.
Qed.

Lemma constant_sorted (file : string) (block : list string) :
  Forall (eq file) block -> StronglySorted String.le block.
Proof.
  induction 1 as [|x block <- Hrest IH]; constructor; [done|].
  eapply Forall_impl; [exact Hrest|]. by intros ? <-.
Qed.

Lemma blocks_sorted (files : list string) (blocks : list (list string)) :
  Forall2 (fun file block => Forall (eq file) block) files blocks ->
  StronglySorted String.le files ->
  StronglySorted String.le (concat blocks) /\
  Forall (fun f => f ∈ files) (concat blocks).
Proof.
  intros Hall. induction Hall as [|file block files blocks Hblock _ IH];
    intros Hsorted; [split; constructor|].
  apply StronglySorted_inv in Hsorted as [Hsorted Hfile].
  destruct (IH Hsorted) as [IHs IHin]. cbn [concat]. split.
  - apply StronglySorted_app_2.
    + intros x1 x2 Hx1 Hx2. rewrite Forall_forall in Hblock.
      rewrite <- (Hblock x1 Hx1). rewrite Forall_forall in Hfile, IHin.
      apply Hfile, IHin, Hx2.
    + by apply (constant_sorted file).
    + done.
  - apply Forall_app. split.
    + eapply Forall_impl; [exact Hblock|]. intros ? <-. left.
    + eapply Forall_impl; [exact IHin|]. intros ? ?. by right.
Qed.

Section Locations.
Context {lib : GoLib} {world : World} {order : MapOrder tableInfo}.

Lemma fileLoads_located file schema :
  fileLoads file schema -> Forall (Spec2.locatedIn file) (Tables schema).
Proof.
  intros (data & _ & Hload). unfold loadSQLSchemaFromBytesWithFilename in Hload.
  destruct (ParseSQLSchemaWithDialectAndFilename data DialectPostgres file)
    as [parsed|] eqn:Hparse; [|done].
  destruct (validateNoDuplicateTables parsed); [done|]. injection Hload as <-.
  by apply lowered_located in Hparse.
Qed.

(** X14. Source locations of a loaded schema. Every table of a schema
    the loader returns has a source location with line and column at
    least 1. For a single file its file is the path given; for a
    directory it is one of the collected paths, and along the tables of
    the schema these paths never decrease: the tables of one file stand
    together, file after file in sorted order. *)
Theorem loaded_locations (path : string) (schema : Schema) :
  LoadSchema path = Ok schema ->
  Forall (fun t => Spec2.locatedIn (Spec2.tableFile t) t) (Tables schema) /\
  StronglySorted String.le (map Spec2.tableFile (Tables schema)) /\
  (os_Stat path <> Some true ->
   Forall (fun t => Spec2.tableFile t = path) (Tables schema)) /\
  (forall entries,
     os_Stat path = Some true -> os_ReadDir path = Ok entries ->
     Forall (fun t => Spec2.tableFile t ∈ collectSQLFiles path entries)
            (Tables schema)).
Proof.
  intros Hload.
  assert (Hfile : forall file s,
            Forall (Spec2.locatedIn file) (Tables s) ->
            Forall (fun t => Spec2.locatedIn (Spec2.tableFile t) t) (Tables s) /\
            Forall (eq file) (map Spec2.tableFile (Tables s))).
  { intros file s Hall. split.
    - eapply Forall_impl; [exact Hall|]. intros t (loc & Hloc & <- & Hpos).
      unfold Spec2.tableFile. rewrite Hloc. by exists loc.
    - apply Forall_fmap. eapply Forall_impl; [exact Hall|].
      intros t (loc & Hloc & <- & _). cbn. unfold Spec2.tableFile. by rewrite Hloc. }
  unfold LoadSchema in Hload. destruct (os_Stat path) as [[]|] eqn:Hstat.
  - unfold loadSchemaFromDir in Hload.
    destruct (os_ReadDir path) as [entries|] eqn:Hread; [|done].
    destruct (collectSQLFiles path entries) as [|f fs] eqn:Hfiles; [done|].
    rewrite <- Hfiles in Hload.
    destruct (loadFiles _ _) as [allTables|] eqn:Hrun; [|done].
    destruct (validateNoDuplicateTables _); [done|]. injection Hload as <-.
    apply loadFiles_spec in Hrun as (perFile & Hall & ->). cbn [app Tables].
    destruct (sort_Strings_sorted (collectSQLFiles path entries)) as [Hsorted Hperm].
    assert (Hblocks : Forall2 (fun file block => Forall (eq file) block)
              (sort_Strings (collectSQLFiles path entries))
              (map (fun s => map Spec2.tableFile (Tables s)) perFile)).
    { apply Forall2_fmap_r. eapply Forall2_impl; [exact Hall|].
      intros file s Hs. by apply Hfile, fileLoads_located. }
    destruct (blocks_sorted _ _ Hblocks Hsorted) as [Hs Hin].
    assert (Hconcat : map Spec2.tableFile (concat (map Tables perFile)) =
              concat (map (fun s => map Spec2.tableFile (Tables s)) perFile)).
    { clear. induction perFile as [|s perFile IH]; [done|].
      cbn. by rewrite map_app, IH. }
    rewrite Hconcat. split_and!.
    + clear -Hall Hfile. induction Hall as [|file s files perFile Hs _ IH];
        [constructor|].
      cbn. apply Forall_app. split; [|done]. by apply (Hfile file), fileLoads_located.
    + done.
    + done.
    + intros entries' _ [= <-]. rewrite <- Hconcat in Hin.
      apply Forall_map_inv in Hin.
      eapply Forall_impl; [exact Hin|]. intros t Ht. cbn in Ht.
      by rewrite <- Hperm.
  - destruct (GoStrings.HasSuffix _ _); [|done]. unfold loadSQLSchema in Hload.
    destruct (os_ReadFile path) as [data|] eqn:Hread; [|done].
    assert (Hloaded : fileLoads path schema) by by exists data.
    destruct (Hfile path schema (fileLoads_located _ _ Hloaded)) as [Hloc Hsame].
    split_and!.
    + done.
    + by apply (constant_sorted path).
    + intros _. apply Forall_map_inv in Hsame.
      eapply Forall_impl; [exact Hsame|]. by intros t <-.
    + done.
  - done.
Qed.

End Locations.

Lemma loaded_locations_witness :
  exists schema,
    @LoadSchema plainLib demoWorld listOrder "schema" = Ok schema /\
    map Spec2.tableFile (Tables schema)
      = ["schema/posts.LP.SQL"; "schema/posts.LP.SQL"; "schema/users.lp.sql"] /\
    StronglySorted String.le (map Spec2.tableFile (Tables schema)).
Proof.
  destruct (@LoadSchema plainLib demoWorld listOrder "schema") as [schema|] eqn:Hrun;
    [|vm_compute in Hrun; discriminate Hrun].
  exists schema. split; [reflexivity|].
  split.
  - vm_compute in Hrun. injection Hrun as <-. reflexivity.
  - exact (proj1 (proj2 (@loaded_locations plainLib demoWorld listOrder
                           "schema" schema Hrun))).
Defined.

(** ** A directory with one schema file *)

Section Single.
Context {lib : GoLib} {world : World} {order : MapOrder tableInfo}.

Lemma loadBytes_dialect data file schema :
  loadSQLSchemaFromBytesWithFilename data file = Ok schema ->
  schema = {| Tables := Tables schema; Schema_Dialect := DialectPostgres |} /\
  validateNoDuplicateTables schema = None.
Proof.
  unfold loadSQLSchemaFromBytesWithFilename, ParseSQLSchemaWithDialectAndFilename,
    parsePostgresSQLSchemaWithFilename.
  destruct (pg_query_Parse data) as [stmts|]; [|done].
  destruct (lowerStmts _ _ _) as [lowered|] eqn:Hlower; [|done].
  destruct (validateNoDuplicateTables lowered) eqn:Hvalid; [done|].
  intros [= <-]. apply lowerStmts_order in Hlower as [_ Hdialect].
  cbn in Hdialect. destruct lowered as [tables dialect]. cbn in *. by subst.
Qed.

(** X15. Loading a directory that holds exactly one schema file gives
    the same schema as loading that file by its path: each of the two
    loads returns a schema exactly when the other returns it. *)
Theorem single_file_directory (dir file : string) (entries : list DirEntry)
    (schema : Schema) :
  os_Stat dir = Some true ->
  os_ReadDir dir = Ok entries ->
  collectSQLFiles dir entries = [file] ->
  os_Stat file = Some false ->
  GoStrings.HasSuffix (GoStrings.ToLower file) ".lp.sql" = true ->
  (LoadSchema dir = Ok schema <-> LoadSchema file = Ok schema).
Proof.
  intros Hdir Hread Hfiles Hfile Hsuffix.
  unfold LoadSchema. rewrite Hdir, Hfile. unfold schemaSuffix. rewrite Hsuffix.
  unfold loadSchemaFromDir, loadSQLSchema. rewrite Hread, Hfiles.
  assert (Hsort : sort_Strings [file] = [file]).
  { apply Permutation_singleton_r. apply merge_sort_Permutation. }
  rewrite Hsort. cbn [loadFiles].
  destruct (os_ReadFile file) as [data|]; [|done].
  destruct (loadSQLSchemaFromBytesWithFilename data file) as [loaded|] eqn:Hload;
    [|done].
  apply loadBytes_dialect in Hload as [Hshape Hvalid]. cbn [app].
  assert (Hsame : validateNoDuplicateTables
            {| Tables := Tables loaded; Schema_Dialect := DialectPostgres |} = None)
    by by rewrite <- Hshape.
  rewrite Hsame. rewrite <- Hshape. done.
Qed.

End Single.

Lemma single_file_directory_witness :
  exists schema,
    @LoadSchema plainLib soloWorld listOrder "solo/users.lp.sql" = Ok schema /\
    @LoadSchema plainLib soloWorld listOrder "solo" = Ok schema.
Proof.
  destruct (@LoadSchema plainLib soloWorld listOrder "solo/users.lp.sql")
    as [schema|] eqn:Hrun; [|vm_compute in Hrun; discriminate Hrun].
  exists schema. split; [reflexivity|].
  apply (@single_file_directory plainLib soloWorld listOrder
           "solo" "solo/users.lp.sql"
           [regularFile "notes.txt"; regularFile "users.lp.sql"] schema);
    try reflexivity.
  exact Hrun.
Defined.

(** ** Error texts that start with a location *)

Lemma plusSplits_longest cls p r :
  p <> "" -> Spec.allIn cls p = true ->
  match r with String c _ => cls c = false | EmptyString => True end ->
  exists shorter, Regexp.plusSplits cls (p +:+ r) = (p, r) :: shorter.
Proof.
  intros Hne Hall Hr. induction p as [|c p IH]; [done|].
  cbn in Hall. apply andb_true_iff in Hall as [Hc Hall].
  rewrite append_cons. cbn [Regexp.plusSplits]. rewrite Hc.
  destruct p as [|c' p].
  - change ("" +:+ r) with r.
    assert (Hnil : Regexp.plusSplits cls r = []).
    { destruct r as [|c0 r]; [done|]. cbn. by rewrite Hr. }
    rewrite Hnil. by exists [].
  - destruct IH as [shorter ->]; [done..|]. cbn. eauto.
Qed.

Lemma cut_colon (p r : string) :
  Spec.allIn Regexp.notColon p = true ->
  GoStrings.cut ":" (p +:+ String ":" r) = Some (p, r).
Proof.
  induction p as [|c p IH]; intros Hall; [done|].
  cbn in Hall. apply andb_true_iff in Hall as [Hc Hall].
  rewrite append_cons. cbn [GoStrings.cut]. unfold Regexp.notColon in Hc.
  destruct (Ascii.eqb c ":"); [done|]. by rewrite IH.
Qed.

Lemma digits_notColon s :
  Spec.allIn GoStrings.isDigit s = true -> Spec.allIn Regexp.notColon s = true.
Proof.
  induction s as [|c s IH]; [done|]. cbn.
  intros [Hc Hs]%andb_true_iff. rewrite IH by done. rewrite andb_true_r.
  unfold Regexp.notColon. destruct (Ascii.eqb_spec c ":") as [->|]; [done|done].
Qed.

Lemma FindStringSubmatch_here re s caps :
  Regexp.matchHere re s = Some caps -> Regexp.FindStringSubmatch re s = Some caps.
Proof. intros Hhere. destruct s; cbn; by rewrite Hhere. Qed.

Lemma matchHere_fileLoc file line column tail :
  Spec.isFileLoc file line column
    (file +:+ ":" +:+ line +:+ ":" +:+ column) ->
  match tail with
  | String c _ => GoStrings.isDigit c = false
  | EmptyString => True
  end ->
  Regexp.matchHere Regexp.fileLocPattern
    (file +:+ ":" +:+ line +:+ ":" +:+ column +:+ tail)
  = Some [file; line; column].
Proof.
  intros (Hf1 & Hf2 & Hl1 & Hl2 & Hc1 & Hc2 & _) Htail.
  unfold Regexp.fileLocPattern. cbn [Regexp.matchHere].
  destruct (plusSplits_longest Regexp.notColon file
              (":" +:+ line +:+ ":" +:+ column +:+ tail) Hf1 Hf2 eq_refl)
    as [s1 ->].
  cbn [Regexp.firstSome].
  change (":" +:+ line +:+ ":" +:+ column +:+ tail)
    with (String ":" (line +:+ ":" +:+ column +:+ tail)).
  cbn [Ascii.eqb Bool.eqb].
  destruct (plusSplits_longest GoStrings.isDigit line
              (":" +:+ column +:+ tail) Hl1 Hl2 eq_refl) as [s2 ->].
  cbn [Regexp.firstSome].
  change (":" +:+ column +:+ tail) with (String ":" (column +:+ tail)).
  cbn [Ascii.eqb Bool.eqb].
  destruct (plusSplits_longest GoStrings.isDigit column tail Hc1 Hc2 Htail)
    as [s3 ->].
  reflexivity.
Qed.

(** X16. Error texts that start with a location. For an error text of
    the form file:line:column:rest, where file is non-empty without
    colon and line and column are non-empty digit strings, the
    diagnostic has exactly that file, the numbers of line and column,
    and as message the rest with surrounding white space trimmed. For
    the text file:line:column alone the message is the whole text. *)
Theorem located_error {lib : GoLib} (file line column rest path : string) :
  Spec.isFileLoc file line column (file +:+ ":" +:+ line +:+ ":" +:+ column) ->
  parseErrorToDiagnostic
    (file +:+ ":" +:+ line +:+ ":" +:+ column +:+ ":" +:+ rest) path
  = errorDiagnostic (strings_TrimSpace rest) file
      (GoStrings.Atoi line) (GoStrings.Atoi column) /\
  parseErrorToDiagnostic (file +:+ ":" +:+ line +:+ ":" +:+ column) path
  = errorDiagnostic (file +:+ ":" +:+ line +:+ ":" +:+ column) file
      (GoStrings.Atoi line) (GoStrings.Atoi column).
Proof.
  intros Hloc. pose proof Hloc as (Hf1 & Hf2 & Hl1 & Hl2 & Hc1 & Hc2 & _).
  unfold parseErrorToDiagnostic. split.
  - rewrite (FindStringSubmatch_here _ _ [file; line; column]).
    + change (":" +:+ line +:+ ":" +:+ column +:+ ":" +:+ rest)
        with (String ":" (line +:+ ":" +:+ column +:+ ":" +:+ rest)).
      cbn [GoStrings.SplitN]. rewrite cut_colon by done.
      change (":" +:+ column +:+ ":" +:+ rest)
        with (String ":" (column +:+ ":" +:+ rest)).
      rewrite cut_colon by by apply digits_notColon.
      change (":" +:+ rest) with (String ":" rest).
      rewrite cut_colon by by apply digits_notColon.
      reflexivity.
    + by apply (matchHere_fileLoc file line column (":" +:+ rest)).
  - rewrite (FindStringSubmatch_here _ _ [file; line; column]).
    + change (":" +:+ line +:+ ":" +:+ column)
        with (String ":" (line +:+ ":" +:+ column)).
      cbn [GoStrings.SplitN]. rewrite cut_colon by done.
      change (":" +:+ column) with (String ":" column).
      rewrite cut_colon by by apply digits_notColon.
      assert (Hnone : GoStrings.cut ":" column = None).
      { apply digits_notColon in Hc2. clear -Hc2.
        induction column as [|c s IH]; [done|]. cbn in *.
        apply andb_true_iff in Hc2 as [Hc Hs]. unfold Regexp.notColon in Hc.
        destruct (Ascii.eqb c ":"); [done|]. by rewrite IH. }
      rewrite Hnone. reflexivity.
    + pose proof (matchHere_fileLoc file line column "" Hloc I) as Hhere.
      by rewrite !append_empty_r in Hhere.
Qed.

Lemma located_error_witness :
  @parseErrorToDiagnostic trimLib "users.lp.sql:12:5: syntax error" "schema"
  = errorDiagnostic "syntax error" "users.lp.sql" 12 5.
Proof.
  apply (proj1 (@located_error trimLib "users.lp.sql" "12" "5" " syntax error"
                  "schema" ltac:(repeat split; discriminate))).
Defined.

(** ** The [check] command *)

Section Command.
Context {lib : GoLib} {world : World} {order : MapOrder tableInfo}
        {json : Json} {cli : Cli}.

(** X17. The check command. With any number of arguments other than one
    it prints the usage text and exits with status 1; with one argument
    and both --print-schema and --output json it writes the conflict
    message to the error stream and exits with status 1; in both cases
    the outcome does not depend on what the path names. With one argument and neither flag it returns
    normally, printing the valid line, exactly when the report of the
    check pipeline for that path is valid, and otherwise exits with
    status 1 and the loader's error on the error stream. With --output
    json alone it prints the report and returns normally whatever the
    report says, as long as the report can be marshalled. *)
Theorem check_command (flags : Flags) (args : list string) :
  (length args <> 1%nat ->
   runCheck flags args = {| Exit := Some 1; Stdout := usageText; Stderr := "" |}) /\
  (forall path,
     args = [path] -> checkPrintSchema flags = true ->
     checkOutputFormat flags = "json" ->
     runCheck flags args = {| Exit := Some 1; Stdout := ""; Stderr := conflictText |}) /\
  (forall path,
     args = [path] -> checkPrintSchema flags = false ->
     checkOutputFormat flags <> "json" ->
     (Exit (runCheck flags args) = None <->
      Valid (Output_Summary (checkOutput path)) = true) /\
     (Exit (runCheck flags args) = None ->
      Stdout (runCheck flags args) = validText +:+ lineEnd /\
      Stderr (runCheck flags args) = "") /\
     (Exit (runCheck flags args) <> None ->
      Exit (runCheck flags args) = Some 1 /\
      Stdout (runCheck flags args) = "" /\
      exists err, LoadSchema path = Err err /\
                  Stderr (runCheck flags args) = "Error: " +:+ err +:+ lineEnd)) /\
  (forall path marshalled,
     args = [path] -> checkPrintSchema flags = false ->
     checkOutputFormat flags = "json" ->
     json_MarshalIndent (checkOutput path) = Ok marshalled ->
     runCheck flags args = {| Exit := None; Stdout := marshalled; Stderr := "" |}).
Proof.
  split_and!.
  - intros Hlen. destruct args as [|a [|b args]]; try done.
  - intros path -> Hprint Hformat. unfold runCheck. by rewrite Hprint, Hformat.
  - intros path -> Hprint Hformat. unfold runCheck. rewrite Hprint.
    destruct (String.eqb_spec (checkOutputFormat flags) "json"); [done|].
    cbn [andb]. rewrite <- checkOutput_valid_iff.
    destruct (LoadSchema path) as [schema|err]; cbn; split_and!; try done.
    + split; eauto.
    + split; [done|]. by intros [? ?].
    + intros _. split_and!; eauto.
  - intros path marshalled -> Hprint Hformat Hjson. unfold runCheck, CheckSchema.
    by rewrite Hprint, Hformat, Hjson.
Qed.

End Command.

Lemma check_command_witness :
  @runCheck plainLib demoWorld listOrder countJson countCli
    {| checkPrintSchema := false; checkOutputFormat := "" |} ["schema"]
    = {| Exit := None; Stdout := validText +:+ lineEnd; Stderr := "" |} /\
  Exit (@runCheck plainLib demoWorld listOrder countJson countCli
          {| checkPrintSchema := false; checkOutputFormat := "" |} ["dup"])
    = Some 1 /\
  @runCheck plainLib demoWorld listOrder countJson countCli
    {| checkPrintSchema := false; checkOutputFormat := "json" |} ["dup"]
    = {| Exit := None; Stdout := "2"; Stderr := "" |} /\
  @runCheck plainLib demoWorld listOrder countJson countCli
    {| checkPrintSchema := true; checkOutputFormat := "json" |} ["dup"]
    = {| Exit := Some 1; Stdout := ""; Stderr := conflictText |} /\
  @runCheck plainLib demoWorld listOrder countJson countCli
    {| checkPrintSchema := false; checkOutputFormat := "json" |} []
    = {| Exit := Some 1; Stdout := usageText; Stderr := "" |}.
Proof.
  pose proof (fun flags args =>
    @check_command plainLib demoWorld listOrder countJson countCli flags args)
    as Hcmd.
  split_and!.
  - destruct (Hcmd {| checkPrintSchema := false; checkOutputFormat := "" |} ["schema"])
      as (_ & _ & Hdefault & _).
    destruct (Hdefault "schema" eq_refl eq_refl ltac:(discriminate))
      as (Hiff & Hout & _).
    assert (Hexit : Exit (@runCheck plainLib demoWorld listOrder countJson countCli
              {| checkPrintSchema := false; checkOutputFormat := "" |} ["schema"])
              = None).
    { apply Hiff. vm_compute. reflexivity. }
    destruct (Hout Hexit) as [Hstdout Hstderr].
    destruct (runCheck _ _) as [e o r]. cbn in *. by subst.
  - destruct (Hcmd {| checkPrintSchema := false; checkOutputFormat := "" |} ["dup"])
      as (_ & _ & Hdefault & _).
    destruct (Hdefault "dup" eq_refl eq_refl ltac:(discriminate))
      as (Hiff & _ & Hfail).
    apply Hfail. intros Hnone. apply Hiff in Hnone. vm_compute in Hnone.
    discriminate Hnone.
  - apply (proj2 (proj2 (proj2
      (Hcmd {| checkPrintSchema := false; checkOutputFormat := "json" |} ["dup"])))
      "dup" "2" eq_refl eq_refl eq_refl).
    vm_compute. reflexivity.
  - apply (proj1 (proj2
      (Hcmd {| checkPrintSchema := true; checkOutputFormat := "json" |} ["dup"]))
      "dup"); reflexivity.
  - apply (proj1
      (Hcmd {| checkPrintSchema := false; checkOutputFormat := "json" |} [])).
    discriminate.
Defined.

(** ** Inputs that are not schema inputs *)

Section Missing.
Context {lib : GoLib} {world : World} {order : MapOrder tableInfo}
        {json : Json} {cli : Cli}.

Lemma parseErrorToDiagnostic_notFound path :
  parseErrorToDiagnostic notFoundText path = errorDiagnostic notFoundText path 1 1.
Proof.
  unfold parseErrorToDiagnostic.
  replace (Regexp.FindStringSubmatch Regexp.fileLocPattern notFoundText)
    with (@None (list string)) by (vm_compute; reflexivity).
  replace (Regexp.FindStringSubmatch Regexp.linePattern notFoundText)
    with (@None (list string)) by (vm_compute; reflexivity).
  reflexivity.
Qed.

(** X18. A path that does not exist, or that names an existing file
    that is no directory and lacks the .lp.sql suffix, is no schema
    input: the loader fails with "did not find .lp.sql file(s)", the
    report of
    the check pipeline holds exactly one error diagnostic with that
    message, located at the given path, line 1, column 1, and the check
    command in its default mode writes "Error: did not find .lp.sql
    file(s)" to the error stream and exits with status 1. *)
Theorem missing_input_report (path : string) (flags : Flags) :
  os_Stat path = None \/
  (os_Stat path = Some false /\
   GoStrings.HasSuffix (GoStrings.ToLower path) schemaSuffix = false) ->
  LoadSchema path = Err notFoundText /\
  checkOutput path =
    {| Diagnostics := [ {| Diag_Code := ""; Diag_Message := notFoundText;
                           Diag_Severity := "error"; Diag_File := path;
                           Diag_Line := 1; Diag_Column := 1 |} ];
       Output_Summary := {| Errors := 1; Warnings := 0; Valid := false |} |} /\
  (checkPrintSchema flags = false -> checkOutputFormat flags <> "json" ->
   runCheck flags [path] =
     {| Exit := Some 1; Stdout := "";
        Stderr := "Error: " +:+ notFoundText +:+ lineEnd |}).
Proof.
  intros Hstat.
  assert (Hload : LoadSchema path = Err notFoundText).
  { unfold LoadSchema. by destruct Hstat as [->|[-> ->]]. }
  assert (Hraw : loadSchemaWithoutValidation path = Err notFoundText).
  { unfold loadSchemaWithoutValidation. by destruct Hstat as [->|[-> ->]]. }
  split_and!.
  - done.
  - unfold checkOutput. rewrite Hraw, parseErrorToDiagnostic_notFound. reflexivity.
  - intros Hprint Hformat. unfold runCheck. rewrite Hprint.
    destruct (String.eqb_spec (checkOutputFormat flags) "json"); [done|].
    cbn [andb]. by rewrite Hload.
Qed.

End Missing.

Lemma missing_input_report_witness :
  @LoadSchema plainLib demoWorld listOrder "schema.sql" = Err notFoundText /\
  Diagnostics (@checkOutput plainLib demoWorld listOrder "nowhere")
    = [errorDiagnostic notFoundText "nowhere" 1 1].
Proof.
  split.
  - apply (@missing_input_report plainLib demoWorld listOrder countJson countCli
             "schema.sql" {| checkPrintSchema := false; checkOutputFormat := "" |}).
    right. split; vm_compute; reflexivity.
  - destruct (@missing_input_report plainLib demoWorld listOrder countJson countCli
             "nowhere" {| checkPrintSchema := false; checkOutputFormat := "" |})
      as (_ & Hreport & _).
    + left. vm_compute. reflexivity.
    + rewrite Hreport. reflexivity.
Defined.
